(** * External scanner of tree-sitter-xonsh: a shallow embedding of
    [src/scanner.c] and the properties of its dispatcher, subprocess
    detector, string lexer, layout handling and serialization. *)

From Stdlib Require Import ZArith List Bool Lia Ascii String.
Import ListNotations.
Local Open Scope Z_scope.

(** ** Characters

    [lexer->lookahead] is a 32-bit code point.  Character literals of the C
    source are written [chr "x"]; the few characters that cannot be written
    conveniently get a name. *)

Definition chr (a : ascii) : Z := Z.of_nat (nat_of_ascii a).
Arguments chr a%_char.

Definition NUL : Z := 0.
Definition TAB : Z := 9.
Definition NL : Z := 10.
Definition FF : Z := 12.
Definition CR : Z := 13.
Definition DQUOTE : Z := 34.
Definition SQUOTE : Z := 39.
Definition BACKSLASH : Z := 92.
Definition BACKTICK : Z := 96.

Fixpoint codes (s : string) : list Z :=
  match s with
  | EmptyString => []
  | String a s' => chr a :: codes s'
  end.

(** ** Token kinds and delimiter flags *)

Inductive TokenType : Type :=
| NEWLINE | INDENT | DEDENT
| STRING_START | STRING_CONTENT | ESCAPE_INTERPOLATION | STRING_END
| COMMENT | CLOSE_PAREN | CLOSE_BRACKET | CLOSE_BRACE | EXCEPT
| SUBPROCESS_START
| LOGICAL_AND | LOGICAL_OR | BACKGROUND_AMP
| KEYWORD_AND | KEYWORD_OR
| SUBPROCESS_MACRO_START | BLOCK_MACRO_START | PATH_PREFIX.

Definition TokenType_eqb (a b : TokenType) : bool :=
  match a, b with
  | NEWLINE, NEWLINE | INDENT, INDENT | DEDENT, DEDENT
  | STRING_START, STRING_START | STRING_CONTENT, STRING_CONTENT
  | ESCAPE_INTERPOLATION, ESCAPE_INTERPOLATION | STRING_END, STRING_END
  | COMMENT, COMMENT | CLOSE_PAREN, CLOSE_PAREN
  | CLOSE_BRACKET, CLOSE_BRACKET | CLOSE_BRACE, CLOSE_BRACE
  | EXCEPT, EXCEPT | SUBPROCESS_START, SUBPROCESS_START
  | LOGICAL_AND, LOGICAL_AND | LOGICAL_OR, LOGICAL_OR
  | BACKGROUND_AMP, BACKGROUND_AMP | KEYWORD_AND, KEYWORD_AND
  | KEYWORD_OR, KEYWORD_OR
  | SUBPROCESS_MACRO_START, SUBPROCESS_MACRO_START
  | BLOCK_MACRO_START, BLOCK_MACRO_START | PATH_PREFIX, PATH_PREFIX => true
  | _, _ => false
  end.

(** The parser's [valid_symbols] array, indexed by token kind. *)
Definition ValidSymbols : Type := TokenType -> bool.

Definition only (l : list TokenType) : ValidSymbols :=
  fun t => existsb (TokenType_eqb t) l.

(** [enum Flags]: one bit each. *)
Definition SingleQuote : Z := Z.shiftl 1 0.
Definition DoubleQuote : Z := Z.shiftl 1 1.
Definition BackQuote : Z := Z.shiftl 1 2.
Definition Raw : Z := Z.shiftl 1 3.
Definition Format : Z := Z.shiftl 1 4.
Definition Triple : Z := Z.shiftl 1 5.
Definition Bytes : Z := Z.shiftl 1 6.

(** [struct Delimiter { char flags; }]: the byte is kept as its bit
    pattern, a number in [0, 256). *)
Record Delimiter : Type := mkDelimiter { flags : Z }.

Definition new_delimiter : Delimiter := {| flags := 0 |}.

Definition has_bit (d : Delimiter) (bit : Z) : bool :=
  negb (Z.land (flags d) bit =? 0).

Definition is_format (d : Delimiter) : bool := has_bit d Format.
Definition is_raw (d : Delimiter) : bool := has_bit d Raw.
Definition is_triple (d : Delimiter) : bool := has_bit d Triple.
Definition is_bytes (d : Delimiter) : bool := has_bit d Bytes.

Definition end_character (d : Delimiter) : Z :=
  if has_bit d SingleQuote then SQUOTE
  else if has_bit d DoubleQuote then DQUOTE
  else if has_bit d BackQuote then BACKTICK
  else 0.

Definition set_bit (d : Delimiter) (bit : Z) : Delimiter :=
  {| flags := Z.lor (flags d) bit |}.

Definition set_format (d : Delimiter) : Delimiter := set_bit d Format.
Definition set_raw (d : Delimiter) : Delimiter := set_bit d Raw.
Definition set_triple (d : Delimiter) : Delimiter := set_bit d Triple.
Definition set_bytes (d : Delimiter) : Delimiter := set_bit d Bytes.

(** The source asserts that [character] is one of the three quotes; every
    call site passes a quote, so the default branch leaves the value as is. *)
Definition set_end_character (d : Delimiter) (character : Z) : Delimiter :=
  if character =? SQUOTE then set_bit d SingleQuote
  else if character =? DQUOTE then set_bit d DoubleQuote
  else if character =? BACKTICK then set_bit d BackQuote
  else d.

(** ** Persistent scanner state

    The two arrays are kept in index order: index 0 (the bottom of the stack)
    is the head of the list, [array_back] is the last element. *)

Record Scanner : Type := mkScanner {
  indents : list Z;             (* Array(uint16_t) *)
  delimiters : list Delimiter;  (* Array(Delimiter) *)
  inside_f_string : bool
}.

Definition array_back {A : Type} (l : list A) (d : A) : A := last l d.
Definition array_push {A : Type} (l : list A) (x : A) : list A := l ++ [x].
Definition array_pop {A : Type} (l : list A) : list A := removelast l.

Definition to_uint16 (z : Z) : Z := z mod 65536.
Definition to_uint32 (z : Z) : Z := z mod 4294967296.
Definition to_int32 (z : Z) : Z :=
  let u := to_uint32 z in if u <? 2147483648 then u else u - 4294967296.
Definition to_uint8 (z : Z) : Z := z mod 256.

(** ** The lexer handed in by the host

    [input] is what is left to read; its head is [lookahead], which is 0 at
    the end of input.  [advance] moves one code point, with the skip bit it
    also moves the start of the token; at the end of input it does nothing.
    [mark_end] records the current position as the end of the token. *)

Record TSLexer : Type := mkLexer {
  input : list Z;
  position : nat;
  token_start : nat;
  token_end : option nat;
  result_symbol : TokenType
}.

Definition lookahead (lexer : TSLexer) : Z :=
  match input lexer with
  | [] => 0
  | c :: _ => c
  end.

Definition eof (lexer : TSLexer) : bool :=
  match input lexer with
  | [] => true
  | _ :: _ => false
  end.

Definition lexer_advance (lexer : TSLexer) (skip_bit : bool) : TSLexer :=
  match input lexer with
  | [] => lexer
  | _ :: rest =>
      {| input := rest;
         position := S (position lexer);
         token_start := if skip_bit then S (position lexer) else token_start lexer;
         token_end := token_end lexer;
         result_symbol := result_symbol lexer |}
  end.

Definition advance (lexer : TSLexer) : TSLexer := lexer_advance lexer false.
Definition skip (lexer : TSLexer) : TSLexer := lexer_advance lexer true.

Definition mark_end (lexer : TSLexer) : TSLexer :=
  {| input := input lexer;
     position := position lexer;
     token_start := token_start lexer;
     token_end := Some (position lexer);
     result_symbol := result_symbol lexer |}.

Definition set_result (lexer : TSLexer) (t : TokenType) : TSLexer :=
  {| input := input lexer;
     position := position lexer;
     token_start := token_start lexer;
     token_end := token_end lexer;
     result_symbol := t |}.

(** A lexer as the host sets it up before a scan call at offset [pos]. *)
Definition lexer_at (pos : nat) (text : list Z) : TSLexer :=
  {| input := text; position := pos; token_start := pos;
     token_end := None; result_symbol := NEWLINE |}.

Definition lexer_on (text : list Z) : TSLexer := lexer_at 0 text.

(** ** Control flow

    A C function body either returns or falls through to the next statement;
    a loop is run with a bound on its iterations, and [Exhausted] is the
    outcome of a bound that proved too small. *)

Inductive flow (R A : Type) : Type :=
| Exhausted : flow R A
| Return : R -> flow R A
| Fall : A -> flow R A.
Arguments Exhausted {R A}.
Arguments Return {R A} _.
Arguments Fall {R A} _.

Definition bind {R A B : Type} (m : flow R A) (k : A -> flow R B) : flow R B :=
  match m with
  | Exhausted => Exhausted
  | Return r => Return r
  | Fall a => k a
  end.

Notation "x <- m ;; k" := (bind m (fun x => k))
  (at level 61, m at next level, right associativity).
Notation "' p <- m ;; k" := (bind m (fun x => let 'p := x in k))
  (at level 61, p pattern, m at next level, right associativity).

Definition run {R : Type} (m : flow R R) : option R :=
  match m with
  | Exhausted => None
  | Return r => Some r
  | Fall r => Some r
  end.

(** One iteration of a loop: return from the function, leave the loop, or go
    round again. *)
Inductive iteration (R B S : Type) : Type :=
| Ret : R -> iteration R B S
| Break : B -> iteration R B S
| Next : S -> iteration R B S.
Arguments Ret {R B S} _.
Arguments Break {R B S} _.
Arguments Next {R B S} _.

Fixpoint loop {R B S : Type} (body : S -> iteration R B S) (fuel : nat) (s : S)
  : flow R B :=
  match fuel with
  | O => Exhausted
  | S fuel' =>
      match body s with
      | Ret r => Return r
      | Break b => Fall b
      | Next s' => loop body fuel' s'
      end
  end.

(** [reaches body s t]: the loop with this body, started in state [s],
    comes round to state [t]. *)
Inductive reaches {R B S : Type} (body : S -> iteration R B S) : S -> S -> Prop :=
| reaches_here : forall s, reaches body s s
| reaches_next :
    forall s s' t, body s = Next s' -> reaches body s' t -> reaches body s t.

(** [while (p(lexer->lookahead)) advance(lexer);] for a predicate that is
    false on 0, so that the loop stops at the latest when the input ends. *)
Fixpoint lexer_while (skip_bit : bool) (p : Z -> bool) (n : nat) (lexer : TSLexer)
  : TSLexer :=
  match n with
  | O => lexer
  | S n' =>
      if p (lookahead lexer)
      then lexer_while skip_bit p n' (lexer_advance lexer skip_bit)
      else lexer
  end.

Definition advance_while (p : Z -> bool) (lexer : TSLexer) : TSLexer :=
  lexer_while false p (List.length (input lexer)) lexer.

Definition skip_while (p : Z -> bool) (lexer : TSLexer) : TSLexer :=
  lexer_while true p (List.length (input lexer)) lexer.

(** ** Character predicates and the two tables *)

Definition in_range (lo hi c : Z) : bool := (lo <=? c) && (c <=? hi).

Definition is_identifier_start (c : Z) : bool :=
  in_range (chr "a") (chr "z") c || in_range (chr "A") (chr "Z") c || (c =? chr "_").

Definition is_identifier_char (c : Z) : bool :=
  is_identifier_start c || in_range (chr "0") (chr "9") c.

Definition is_digit (c : Z) : bool := in_range (chr "0") (chr "9") c.

Definition is_whitespace (c : Z) : bool := (c =? chr " ") || (c =? TAB).

(** [EOF] of <stdio.h>. *)
Definition EOF : Z := -1.

(** The arguments on which the C standard defines the functions of
    <ctype.h>: [EOF] and the values of [unsigned char]. *)
Definition ctype_defined (c : Z) : bool := (c =? EOF) || in_range 0 255 c.

(** What [isalnum] answers on those arguments in the C locale. *)
Definition isalnum_c_locale (c : Z) : bool :=
  in_range (chr "a") (chr "z") c || in_range (chr "A") (chr "Z") c
  || in_range (chr "0") (chr "9") c.

Definition python_keywords : list string :=
  [ "def"; "class"; "if"; "elif"; "else"; "for"; "while"; "try"; "except";
    "finally"; "with"; "import"; "from"; "return"; "yield"; "raise"; "pass";
    "break"; "continue"; "del"; "global"; "nonlocal"; "assert"; "lambda";
    "async"; "await"; "match"; "case"; "type";
    "xontrib" ]%string.

Definition shell_commands : list string :=
  [ "cd"; "ls"; "pwd"; "echo"; "cat"; "cp"; "mv"; "rm"; "mkdir"; "rmdir";
    "touch"; "chmod"; "chown"; "ln"; "head"; "tail"; "less"; "more";
    "grep"; "find"; "sed"; "awk"; "sort"; "uniq"; "wc"; "cut"; "tr"; "xargs";
    "make"; "cmake"; "ninja"; "gradle"; "mvn"; "ant"; "meson";
    "npm"; "yarn"; "pnpm"; "pip"; "pip3"; "cargo"; "go"; "gem"; "composer";
    "git"; "svn"; "hg"; "bzr";
    "docker"; "podman"; "kubectl"; "helm"; "docker-compose";
    "curl"; "wget"; "ssh"; "scp"; "rsync"; "ping"; "nc"; "netstat";
    "tar"; "zip"; "unzip"; "gzip"; "gunzip"; "xz"; "bzip2";
    "sudo"; "su"; "ps"; "top"; "htop"; "kill"; "killall"; "df"; "du"; "mount";
    "gcc"; "g++"; "clang"; "clang++"; "rustc"; "javac"; "python"; "python3";
    "vi"; "vim"; "nvim"; "nano"; "emacs"; "code";
    "xpip"; "completer"; "history"; "replay"; "trace"; "timeit" ]%string.

Fixpoint codes_eqb (a b : list Z) : bool :=
  match a, b with
  | [], [] => true
  | x :: a', y :: b' => (x =? y) && codes_eqb a' b'
  | _, _ => false
  end.

(** [strlen(word) == len && strncmp(ident, word, len) == 0] *)
Definition word_matches (ident : list Z) (word : string) : bool :=
  let len := List.length ident in
  Nat.eqb (String.length word) len
  && codes_eqb (firstn len ident) (firstn len (codes word)).

Definition is_python_keyword (ident : list Z) : bool :=
  existsb (word_matches ident) python_keywords.

Definition is_shell_command (ident : list Z) : bool :=
  existsb (word_matches ident) shell_commands.

(** ** Subprocess-line detection *)

Inductive DetectResult : Type :=
| DETECT_NONE
| DETECT_SUBPROCESS
| DETECT_SUBPROCESS_MACRO
| DETECT_STRING
| DETECT_BLOCK_MACRO
| DETECT_PATH_PREFIX.

(** What [detect_subprocess_line] hands back: its return value, the lexer as
    it left it, and the two out-parameters ([None] is a NULL
    [string_delimiter]). *)
Record Detected : Type := mkDetected {
  verdict : DetectResult;
  after : TSLexer;
  subprocess_macro_end : nat;
  string_delimiter : option Delimiter
}.

Definition detected (r : DetectResult) (lexer : TSLexer) (sd : option Delimiter)
  : Detected :=
  {| verdict := r; after := lexer; subprocess_macro_end := 0;
     string_delimiter := sd |}.

(** [lexer->lookahead == '\n' || lexer->lookahead == '\0' || lexer->eof(lexer)] *)
Definition at_end_of_line (lexer : TSLexer) : bool :=
  (lookahead lexer =? NL) || (lookahead lexer =? 0) || eof lexer.

(** [while (is_identifier_char(lexer->lookahead) && len < 63)
       { buf[len++] = (char)lexer->lookahead; advance(lexer); }]
    with [room] the number of slots left; identifier characters are ASCII, so
    the cast to [char] keeps them. *)
Fixpoint read_identifier (room : nat) (lexer : TSLexer) (buf : list Z)
  : list Z * TSLexer :=
  match room with
  | O => (buf, lexer)
  | S room' =>
      if is_identifier_char (lookahead lexer)
      then read_identifier room' (advance lexer) (buf ++ [lookahead lexer])
      else (buf, lexer)
  end.

(** A one-character probe that returns [hit] when [next] follows [first]:
    [if (lookahead == first) { advance; pos++; if (next(lookahead)) return hit; }] *)
Definition probe (first : Z) (next : Z -> bool) (hit : DetectResult)
  (sd : option Delimiter) (st : TSLexer * nat) : flow Detected (TSLexer * nat) :=
  let '(lexer, pos) := st in
  if lookahead lexer =? first then
    let lexer := advance lexer in
    let pos := S pos in
    if next (lookahead lexer) then Return (detected hit lexer sd)
    else Fall (lexer, pos)
  else Fall (lexer, pos).

Definition is_slash (c : Z) : bool := c =? chr "/".
Definition opens_capture (c : Z) : bool := (c =? chr "(") || (c =? chr "[").

(** The block for a line that starts with [@]; every path through it returns.
    The source also counts [pos] here, which no return of the block uses. *)
Definition probe_at_sign (lexer : TSLexer) (sd : option Delimiter) : Detected :=
  let lexer := advance lexer in
  if is_identifier_start (lookahead lexer) then
    let lexer := advance_while is_identifier_char lexer in
    if (lookahead lexer =? chr ".") || (lookahead lexer =? chr "(") then
      detected DETECT_NONE lexer sd
    else if is_whitespace (lookahead lexer) then
      let lexer := advance_while is_whitespace lexer in
      if (lookahead lexer =? chr "/") || (lookahead lexer =? chr ".")
         || (lookahead lexer =? chr "~") || (lookahead lexer =? chr "-") then
        detected DETECT_SUBPROCESS lexer sd
      else if is_identifier_start (lookahead lexer) then
        let '(cmd, lexer) := read_identifier 63 lexer [] in
        if is_shell_command cmd then detected DETECT_SUBPROCESS lexer sd
        else detected DETECT_NONE lexer sd
      else detected DETECT_NONE lexer sd
    else detected DETECT_NONE lexer sd
  else detected DETECT_NONE lexer sd.

Definition is_prefix_letter (c : Z) : bool :=
  (c =? chr "f") || (c =? chr "F") || (c =? chr "r") || (c =? chr "R")
  || (c =? chr "b") || (c =? chr "B") || (c =? chr "u") || (c =? chr "U").

Definition prefix_flag (d : Delimiter) (c : Z) : Delimiter :=
  if (c =? chr "f") || (c =? chr "F") then set_format d
  else if (c =? chr "r") || (c =? chr "R") then set_raw d
  else if (c =? chr "b") || (c =? chr "B") then set_bytes d
  else d.

Definition is_path_prefix (ident : list Z) : bool :=
  match ident with
  | [p] => (p =? chr "p") || (p =? chr "P")
  | [p; q] =>
      ((p =? chr "p") || (p =? chr "P"))
      && ((q =? chr "f") || (q =? chr "F") || (q =? chr "r") || (q =? chr "R"))
  | _ => false
  end.

(** [ident_len == 4 && strncmp(first_ident, "with", 4) == 0] *)
Definition is_with (ident : list Z) : bool :=
  Nat.eqb (List.length ident) 4 && codes_eqb (firstn 4 ident) (codes "with").

(** The analysis of the first identifier: string prefix, path prefix, help
    expression, keyword, and the macro forms [ident! ] and [with! ]. *)
Definition first_identifier (lexer : TSLexer) (pos : nat) (sd : option Delimiter)
  : flow Detected (list Z * TSLexer * nat) :=
  if is_identifier_start (lookahead lexer) then
    let '(first_ident, lexer) := read_identifier 63 lexer [] in
    let ident_len := List.length first_ident in
    let pos := (pos + ident_len)%nat in
    _ <- (if Nat.leb 1 ident_len && Nat.leb ident_len 3
             && ((lookahead lexer =? DQUOTE) || (lookahead lexer =? SQUOTE))
          then
            let is_string_prefix := forallb is_prefix_letter first_ident in
            match (if is_string_prefix then sd else None) with
            | Some _ =>
                Return {| verdict := DETECT_STRING; after := lexer;
                          subprocess_macro_end := 0;
                          string_delimiter :=
                            Some (fold_left prefix_flag first_ident new_delimiter) |}
            | None =>
                if is_path_prefix first_ident
                then Return (detected DETECT_PATH_PREFIX lexer sd)
                else Fall tt
            end
          else Fall tt) ;;
    lexer <- (if lookahead lexer =? chr "?" then
                let lexer := advance lexer in
                let lexer :=
                  if lookahead lexer =? chr "?" then advance lexer else lexer in
                let lexer := advance_while is_whitespace lexer in
                if at_end_of_line lexer then Return (detected DETECT_NONE lexer sd)
                else Fall lexer
              else Fall lexer) ;;
    _ <- (if is_python_keyword first_ident
             && negb (is_with first_ident && (lookahead lexer =? chr "!"))
          then Return (detected DETECT_NONE lexer sd)
          else Fall tt) ;;
    if lookahead lexer =? chr "!" then
      let lexer := advance lexer in
      let pos := S pos in
      if is_whitespace (lookahead lexer) then
        if is_with first_ident then Return (detected DETECT_BLOCK_MACRO lexer sd)
        else
          let past := advance_while is_whitespace lexer in
          let pos := (pos + (position past - position lexer))%nat in
          Return {| verdict := DETECT_SUBPROCESS_MACRO; after := past;
                    subprocess_macro_end := pos; string_delimiter := sd |}
      else Fall (first_ident, lexer, pos)
    else Fall (first_ident, lexer, pos)
  else Fall ([], lexer, pos).

(** Everything [detect_subprocess_line] does before its rest-of-line loop:
    the opening probes, the first identifier and the comma-only line. *)
Definition detect_opening (lexer : TSLexer) (sd : option Delimiter)
  : flow Detected (list Z * TSLexer * nat) :=
  let lexer := mark_end lexer in
  let lexer := advance_while is_whitespace lexer in
  let pos := O in
  if lookahead lexer =? chr "/" then Return (detected DETECT_SUBPROCESS lexer sd)
  else
    st <- probe (chr ".") is_slash DETECT_SUBPROCESS sd (lexer, pos) ;;
    st <- probe (chr "~") is_slash DETECT_SUBPROCESS sd st ;;
    st <- probe (chr "$") opens_capture DETECT_NONE sd st ;;
    '(lexer, pos) <- probe (chr "!") opens_capture DETECT_NONE sd st ;;
    if lookahead lexer =? chr "[" then Return (detected DETECT_NONE lexer sd)
    else if lookahead lexer =? chr "@" then Return (probe_at_sign lexer sd)
    else
      let '(lexer, pos) :=
        if lookahead lexer =? chr "$" then (advance lexer, S pos) else (lexer, pos) in
      '(first_ident, lexer, pos) <- first_identifier lexer pos sd ;;
      lexer <- (if Nat.eqb (List.length first_ident) 0 && (lookahead lexer =? chr ",")
                then
                  let lexer := advance_while (fun c => c =? chr ",") lexer in
                  let lexer := advance_while is_whitespace lexer in
                  if at_end_of_line lexer
                  then Return (detected DETECT_SUBPROCESS lexer sd)
                  else Fall lexer
                else Fall lexer) ;;
      Fall (first_ident, lexer, pos).

(** The booleans that the rest-of-line loop raises and the decision reads. *)
Inductive Signal : Type :=
| has_flag | has_pipe | has_redirect | has_assignment | has_call_parens
| has_subscript | has_attribute | has_comparison | has_env_arg
| has_macro_call | has_subprocess_macro.

Scheme Equality for Signal.

Definition Signals : Type := Signal -> bool.

Definition no_signal : Signals := fun _ => false.

Definition raise (sig : Signal) (s : Signals) : Signals :=
  fun x => if Signal_beq x sig then true else s x.

(** The remaining locals of the loop, with the lexer. *)
Record LineScan : Type := mkLineScan {
  signals : Signals;
  in_string : bool;
  string_char : Z;
  prev_was_ident_no_space : bool;
  prev_was_space : bool;
  seen_shell_signal : bool;
  prev_was_flag : bool;
  python_eval_depth : Z;
  cursor : TSLexer
}.

Definition set_signals (v : Signals) (s : LineScan) : LineScan :=
  mkLineScan v (in_string s) (string_char s) (prev_was_ident_no_space s)
    (prev_was_space s) (seen_shell_signal s) (prev_was_flag s)
    (python_eval_depth s) (cursor s).
Definition set_in_string (v : bool) (s : LineScan) : LineScan :=
  mkLineScan (signals s) v (string_char s) (prev_was_ident_no_space s)
    (prev_was_space s) (seen_shell_signal s) (prev_was_flag s)
    (python_eval_depth s) (cursor s).
Definition set_string_char (v : Z) (s : LineScan) : LineScan :=
  mkLineScan (signals s) (in_string s) v (prev_was_ident_no_space s)
    (prev_was_space s) (seen_shell_signal s) (prev_was_flag s)
    (python_eval_depth s) (cursor s).
Definition set_prev_was_ident_no_space (v : bool) (s : LineScan) : LineScan :=
  mkLineScan (signals s) (in_string s) (string_char s) v
    (prev_was_space s) (seen_shell_signal s) (prev_was_flag s)
    (python_eval_depth s) (cursor s).
Definition set_prev_was_space (v : bool) (s : LineScan) : LineScan :=
  mkLineScan (signals s) (in_string s) (string_char s) (prev_was_ident_no_space s)
    v (seen_shell_signal s) (prev_was_flag s)
    (python_eval_depth s) (cursor s).
Definition set_seen_shell_signal (v : bool) (s : LineScan) : LineScan :=
  mkLineScan (signals s) (in_string s) (string_char s) (prev_was_ident_no_space s)
    (prev_was_space s) v (prev_was_flag s)
    (python_eval_depth s) (cursor s).
Definition set_prev_was_flag (v : bool) (s : LineScan) : LineScan :=
  mkLineScan (signals s) (in_string s) (string_char s) (prev_was_ident_no_space s)
    (prev_was_space s) (seen_shell_signal s) v
    (python_eval_depth s) (cursor s).
Definition set_python_eval_depth (v : Z) (s : LineScan) : LineScan :=
  mkLineScan (signals s) (in_string s) (string_char s) (prev_was_ident_no_space s)
    (prev_was_space s) (seen_shell_signal s) (prev_was_flag s)
    v (cursor s).
Definition set_cursor (v : TSLexer) (s : LineScan) : LineScan :=
  mkLineScan (signals s) (in_string s) (string_char s) (prev_was_ident_no_space s)
    (prev_was_space s) (seen_shell_signal s) (prev_was_flag s)
    (python_eval_depth s) v.

(** [sig = true;] *)
Definition signal (sig : Signal) (s : LineScan) : LineScan :=
  set_signals (raise sig (signals s)) s.

(** [sig = true; seen_shell_signal = true;] *)
Definition shell_signal (sig : Signal) (s : LineScan) : LineScan :=
  set_seen_shell_signal true (signal sig s).

Notation "s '|>' f" := (f s) (at level 45, left associativity, only parsing).

Definition line_scan_start (first_ident : list Z) (lexer : TSLexer) : LineScan :=
  let ident_len := List.length first_ident in
  let is_known_command := Nat.ltb 0 ident_len && is_shell_command first_ident in
  {| signals := no_signal;
     in_string := false;
     string_char := 0;
     prev_was_ident_no_space := Nat.ltb 0 ident_len;
     prev_was_space := false;
     seen_shell_signal := is_known_command;
     prev_was_flag := false;
     python_eval_depth := 0;
     cursor := lexer |}.

(** One round of [while (lexer->lookahead && lexer->lookahead != '\n')]. *)
Definition line_scan_body (s : LineScan) : iteration Detected LineScan LineScan :=
  let lexer := cursor s in
  let c := lookahead lexer in
  if negb (c =? 0) && negb (c =? NL) then
    Next (
      if negb (in_string s) && ((c =? DQUOTE) || (c =? SQUOTE)) then
        s |> set_in_string true |> set_string_char c
          |> set_cursor (advance lexer) |> set_prev_was_ident_no_space false
      else if in_string s then
        if c =? BACKSLASH then
          let lexer := advance lexer in
          let lexer := if negb (lookahead lexer =? 0) then advance lexer else lexer in
          s |> set_cursor lexer
        else
          let s := if c =? string_char s then set_in_string false s else s in
          s |> set_cursor (advance lexer)
      else if c =? chr "-" then
        let lexer := advance lexer in
        let lexer := if lookahead lexer =? chr "-" then advance lexer else lexer in
        let s :=
          if is_identifier_start (lookahead lexer)
          then s |> shell_signal has_flag |> set_prev_was_flag true
          else s in
        s |> set_prev_was_ident_no_space false |> set_cursor lexer
      else if c =? chr "|" then
        let lexer := advance lexer in
        if lookahead lexer =? chr "|" then
          s |> shell_signal has_pipe |> set_cursor (advance lexer)
            |> set_prev_was_ident_no_space false
        else
          let s :=
            if negb (lookahead lexer =? chr "=") then shell_signal has_pipe s else s in
          s |> set_prev_was_ident_no_space false |> set_cursor lexer
      else if c =? chr "&" then
        let lexer := advance lexer in
        if lookahead lexer =? chr "&" then
          s |> shell_signal has_pipe |> set_cursor (advance lexer)
            |> set_prev_was_ident_no_space false
        else
          let lexer := advance_while is_whitespace lexer in
          let s := if at_end_of_line lexer then shell_signal has_pipe s else s in
          s |> set_prev_was_ident_no_space false |> set_cursor lexer
      else if c =? chr ">" then
        let lexer := advance lexer in
        let s :=
          if lookahead lexer =? chr "=" then signal has_comparison s
          else shell_signal has_redirect s in
        s |> set_prev_was_ident_no_space false |> set_cursor lexer
      else if c =? chr "<" then
        let lexer := advance lexer in
        let s :=
          if lookahead lexer =? chr "=" then signal has_comparison s
          else if negb (lookahead lexer =? chr "<") then shell_signal has_redirect s
          else s in
        s |> set_prev_was_ident_no_space false |> set_cursor lexer
      else if c =? chr "=" then
        let lexer := advance lexer in
        if (lookahead lexer =? chr "=") && (python_eval_depth s =? 0) then
          s |> signal has_comparison |> set_cursor (advance lexer)
            |> set_prev_was_flag false |> set_prev_was_ident_no_space false
        else if prev_was_flag s then
          s |> set_prev_was_ident_no_space false |> set_cursor lexer
        else if python_eval_depth s =? 0 then
          s |> signal has_assignment |> set_prev_was_flag false
            |> set_prev_was_ident_no_space false |> set_cursor lexer
        else
          s |> set_prev_was_ident_no_space false |> set_cursor lexer
      else if c =? chr "!" then
        let lexer := advance lexer in
        let s :=
          if (lookahead lexer =? chr "=") && (python_eval_depth s =? 0)
          then signal has_comparison s
          else if prev_was_ident_no_space s && (lookahead lexer =? chr "(")
          then signal has_macro_call s
          else if prev_was_ident_no_space s && is_whitespace (lookahead lexer)
          then signal has_subprocess_macro s
          else s in
        s |> set_prev_was_ident_no_space false |> set_cursor lexer
      else if c =? chr ":" then
        let lexer := advance lexer in
        let s :=
          if (lookahead lexer =? chr "=") && (python_eval_depth s =? 0)
          then signal has_comparison s
          else s in
        s |> set_prev_was_ident_no_space false |> set_cursor lexer
      else if (c =? chr "(") && (0 <? python_eval_depth s) then
        s |> set_python_eval_depth (python_eval_depth s + 1)
          |> set_cursor (advance lexer) |> set_prev_was_ident_no_space false
      else if (c =? chr ")") && (0 <? python_eval_depth s) then
        s |> set_python_eval_depth (python_eval_depth s - 1)
          |> set_cursor (advance lexer) |> set_prev_was_ident_no_space false
      else if (c =? chr "(") && prev_was_ident_no_space s
              && negb (seen_shell_signal s) then
        s |> signal has_call_parens |> set_prev_was_ident_no_space false
          |> set_cursor (advance lexer)
      else if (c =? chr "[") && prev_was_ident_no_space s
              && negb (seen_shell_signal s) then
        s |> signal has_subscript |> set_prev_was_ident_no_space false
          |> set_cursor (advance lexer)
      else if (c =? chr ".") && prev_was_ident_no_space s
              && negb (seen_shell_signal s) then
        s |> signal has_attribute |> set_prev_was_ident_no_space false
          |> set_cursor (advance lexer)
      else if is_identifier_start c then
        s |> set_cursor (advance_while is_identifier_char lexer)
          |> set_prev_was_ident_no_space true
      else if (c =? chr "$") && prev_was_space s then
        let lexer := advance lexer in
        let s :=
          if is_identifier_start (lookahead lexer) then shell_signal has_env_arg s
          else if (lookahead lexer =? chr "(") || (lookahead lexer =? chr "[")
          then shell_signal has_env_arg s
          else s in
        s |> set_prev_was_ident_no_space false |> set_prev_was_space false
          |> set_cursor lexer
      else if (c =? chr "@") && prev_was_space s then
        let lexer := advance lexer in
        let s :=
          if lookahead lexer =? chr "$" then
            let lexer := advance lexer in
            let s :=
              if lookahead lexer =? chr "(" then shell_signal has_env_arg s else s in
            set_cursor lexer s
          else if lookahead lexer =? chr "(" then
            s |> set_cursor (advance lexer) |> set_python_eval_depth 1
              |> shell_signal has_env_arg
          else set_cursor lexer s in
        s |> set_prev_was_ident_no_space false |> set_prev_was_space false
      else if is_whitespace c then
        s |> set_cursor (advance lexer) |> set_prev_was_ident_no_space false
          |> set_prev_was_space true |> set_prev_was_flag false
      else
        s |> set_prev_was_ident_no_space false |> set_prev_was_space false
          |> set_cursor (advance lexer))
  else Break s.

(** The rest-of-line loop: each round reads at least one character, so one
    round more than there are characters left is enough. *)
Definition line_scan (first_ident : list Z) (lexer : TSLexer)
  : flow Detected LineScan :=
  loop line_scan_body (S (List.length (input lexer)))
    (line_scan_start first_ident lexer).

Definition python_signal (s : Signals) : bool :=
  s has_assignment || s has_comparison || s has_call_parens
  || s has_subscript || s has_attribute || s has_macro_call.

Definition shell_signalled (s : Signals) : bool :=
  s has_flag || s has_pipe || s has_redirect || s has_env_arg
  || s has_subprocess_macro.

(** The decision at the end of [detect_subprocess_line]. *)
Definition line_decision (s : Signals) (first_ident : list Z) : DetectResult :=
  if python_signal s then DETECT_NONE
  else if shell_signalled s then DETECT_SUBPROCESS
  else if Nat.ltb 0 (List.length first_ident) && is_shell_command first_ident
  then DETECT_SUBPROCESS
  else DETECT_NONE.

Definition detect_subprocess_line (lexer : TSLexer) (sd : option Delimiter)
  : flow Detected Detected :=
  '(first_ident, lexer, _) <- detect_opening lexer sd ;;
  s <- line_scan first_ident lexer ;;
  Return (detected (line_decision (signals s) first_ident) (cursor s) sd).

(** ** The scan function *)

(** What a scan call leaves behind: its return value, the lexer (with
    [result_symbol] and the marked end) and the scanner state. *)
Record ScanResult : Type := mkScanResult {
  token_found : bool;
  lexer_after : TSLexer;
  scanner_after : Scanner
}.

(** [lexer->result_symbol = t; return found;] *)
Definition finish {A : Type} (found : bool) (t : TokenType) (lexer : TSLexer)
  (scanner : Scanner) : flow ScanResult A :=
  Return {| token_found := found; lexer_after := set_result lexer t;
            scanner_after := scanner |}.

(** [return false;] *)
Definition no_token {A : Type} (lexer : TSLexer) (scanner : Scanner)
  : flow ScanResult A :=
  Return {| token_found := false; lexer_after := lexer; scanner_after := scanner |}.

(** The result of a called function, whichever way it ended. *)
Definition call {R X : Type} (m : flow R R) : flow X R :=
  match m with
  | Exhausted => Exhausted
  | Return r => Fall r
  | Fall r => Fall r
  end.

Definition error_recovery_mode (valid_symbols : ValidSymbols) : bool :=
  valid_symbols STRING_CONTENT && valid_symbols INDENT.

Definition within_brackets (valid_symbols : ValidSymbols) : bool :=
  valid_symbols CLOSE_BRACE || valid_symbols CLOSE_PAREN
  || valid_symbols CLOSE_BRACKET.

Definition is_brace (c : Z) : bool := (c =? chr "{") || (c =? chr "}").

Definition pop_delimiter (scanner : Scanner) : Scanner :=
  {| indents := indents scanner;
     delimiters := array_pop (delimiters scanner);
     inside_f_string := false |}.

Definition push_delimiter (scanner : Scanner) (d : Delimiter) : Scanner :=
  {| indents := indents scanner;
     delimiters := array_push (delimiters scanner) d;
     inside_f_string := is_format d |}.

(** Brace escape inside a format string; falls through with
    [advanced_once]. *)
Definition scan_escape (scanner : Scanner) (lexer : TSLexer)
  (valid_symbols : ValidSymbols) : flow ScanResult bool :=
  let advanced_once := false in
  if valid_symbols ESCAPE_INTERPOLATION
     && Nat.ltb 0 (List.length (delimiters scanner))
     && is_brace (lookahead lexer)
     && negb (error_recovery_mode valid_symbols)
  then
    let delimiter := array_back (delimiters scanner) new_delimiter in
    if is_format delimiter then
      let lexer := mark_end lexer in
      let is_left_brace := lookahead lexer =? chr "{" in
      let lexer := advance lexer in
      if ((lookahead lexer =? chr "{") && is_left_brace)
         || ((lookahead lexer =? chr "}") && negb is_left_brace)
      then finish true ESCAPE_INTERPOLATION (mark_end (advance lexer)) scanner
      else no_token lexer scanner
    else Fall advanced_once
  else Fall advanced_once.

(** One round of the string-content loop [while (lexer->lookahead)]; the
    state is [has_content] and the lexer. *)
Definition content_body (scanner : Scanner) (delimiter : Delimiter)
  (advanced_once : bool) (st : bool * TSLexer)
  : iteration ScanResult TSLexer (bool * TSLexer) :=
  let '(has_content, lexer) := st in
  let end_char := end_character delimiter in
  (* the end of the loop body: [advance(lexer); has_content = true;] *)
  let bottom (lexer : TSLexer) := Next (true, advance lexer) in
  if lookahead lexer =? 0 then Break lexer
  else if (advanced_once || is_brace (lookahead lexer)) && is_format delimiter then
    Ret {| token_found := has_content;
           lexer_after := set_result (mark_end lexer) STRING_CONTENT;
           scanner_after := scanner |}
  else if lookahead lexer =? BACKSLASH then
    if is_raw delimiter then
      let lexer := advance lexer in
      let lexer :=
        if (lookahead lexer =? end_character delimiter)
           || (lookahead lexer =? BACKSLASH)
        then advance lexer else lexer in
      let lexer :=
        if lookahead lexer =? CR then
          let lexer := advance lexer in
          if lookahead lexer =? NL then advance lexer else lexer
        else if lookahead lexer =? NL then advance lexer
        else lexer in
      Next (has_content, lexer)
    else if is_bytes delimiter then
      let lexer := advance (mark_end lexer) in
      if (lookahead lexer =? chr "N") || (lookahead lexer =? chr "u")
         || (lookahead lexer =? chr "U")
      then bottom (advance lexer)
      else
        Ret {| token_found := has_content;
               lexer_after := set_result lexer STRING_CONTENT;
               scanner_after := scanner |}
    else
      Ret {| token_found := has_content;
             lexer_after := set_result (mark_end lexer) STRING_CONTENT;
             scanner_after := scanner |}
  else if lookahead lexer =? end_char then
    if is_triple delimiter then
      let lexer := advance (mark_end lexer) in
      if lookahead lexer =? end_char then
        let lexer := advance lexer in
        if lookahead lexer =? end_char then
          if has_content then
            Ret {| token_found := true;
                   lexer_after := set_result lexer STRING_CONTENT;
                   scanner_after := scanner |}
          else
            Ret {| token_found := true;
                   lexer_after := set_result (mark_end (advance lexer)) STRING_END;
                   scanner_after := pop_delimiter scanner |}
        else
          Ret {| token_found := true;
                 lexer_after := set_result (mark_end lexer) STRING_CONTENT;
                 scanner_after := scanner |}
      else
        Ret {| token_found := true;
               lexer_after := set_result (mark_end lexer) STRING_CONTENT;
               scanner_after := scanner |}
    else if has_content then
      Ret {| token_found := true;
             lexer_after := mark_end (set_result lexer STRING_CONTENT);
             scanner_after := scanner |}
    else
      Ret {| token_found := true;
             lexer_after := mark_end (set_result (advance lexer) STRING_END);
             scanner_after := pop_delimiter scanner |}
  else if (lookahead lexer =? NL) && has_content && negb (is_triple delimiter) then
    Ret {| token_found := false; lexer_after := lexer; scanner_after := scanner |}
  else bottom lexer.

(** String content; falls through (with the lexer where the loop left it)
    when the loop runs into a 0 lookahead. *)
Definition scan_content (scanner : Scanner) (lexer : TSLexer)
  (valid_symbols : ValidSymbols) (advanced_once : bool)
  : flow ScanResult TSLexer :=
  if valid_symbols STRING_CONTENT
     && Nat.ltb 0 (List.length (delimiters scanner))
     && negb (error_recovery_mode valid_symbols)
  then
    let delimiter := array_back (delimiters scanner) new_delimiter in
    let has_content := advanced_once in
    loop (content_body scanner delimiter advanced_once)
      (S (List.length (input lexer))) (has_content, lexer)
  else Fall lexer.

(** The locals of the layout loop, with the lexer. [indent_length] is a
    [uint32_t], [first_comment_indent_length] an [int32_t]. *)
Record Layout : Type := mkLayout {
  found_end_of_line : bool;
  indent_length : Z;
  first_comment_indent_length : Z;
  here : TSLexer
}.

Definition comment_allowed (valid_symbols : ValidSymbols) : bool :=
  valid_symbols INDENT || valid_symbols DEDENT || valid_symbols NEWLINE
  || valid_symbols EXCEPT.

Definition in_comment (c : Z) : bool := negb (c =? 0) && negb (c =? NL).

(** One round of the layout loop [for (;;)]. *)
Definition layout_body (scanner : Scanner) (valid_symbols : ValidSymbols)
  (s : Layout) : iteration ScanResult Layout Layout :=
  let lexer := here s in
  let c := lookahead lexer in
  if c =? NL then
    Next (mkLayout true 0 (first_comment_indent_length s) (skip lexer))
  else if c =? chr " " then
    Next (mkLayout (found_end_of_line s) (to_uint32 (indent_length s + 1))
            (first_comment_indent_length s) (skip lexer))
  else if (c =? CR) || (c =? FF) then
    Next (mkLayout (found_end_of_line s) 0 (first_comment_indent_length s)
            (skip lexer))
  else if c =? TAB then
    Next (mkLayout (found_end_of_line s) (to_uint32 (indent_length s + 8))
            (first_comment_indent_length s) (skip lexer))
  else if (c =? chr "#") && comment_allowed valid_symbols then
    if negb (found_end_of_line s) then
      Ret {| token_found := false; lexer_after := lexer; scanner_after := scanner |}
    else
      let first_comment :=
        if first_comment_indent_length s =? -1
        then to_int32 (indent_length s)
        else first_comment_indent_length s in
      let lexer := skip (skip_while in_comment lexer) in
      Next (mkLayout (found_end_of_line s) 0 first_comment lexer)
  else if c =? BACKSLASH then
    let lexer := skip lexer in
    let lexer := if lookahead lexer =? CR then skip lexer else lexer in
    if (lookahead lexer =? NL) || eof lexer then
      Next (mkLayout (found_end_of_line s) (indent_length s)
              (first_comment_indent_length s) (skip lexer))
    else
      Ret {| token_found := false; lexer_after := lexer; scanner_after := scanner |}
  else if eof lexer then
    Break (mkLayout true 0 (first_comment_indent_length s) lexer)
  else Break s.

Definition scan_layout (scanner : Scanner) (lexer : TSLexer)
  (valid_symbols : ValidSymbols) : flow ScanResult Layout :=
  let lexer := mark_end lexer in
  loop (layout_body scanner valid_symbols) (S (List.length (input lexer)))
    (mkLayout false 0 (-1) lexer).

Definition is_quote (c : Z) : bool :=
  (c =? DQUOTE) || (c =? SQUOTE) || (c =? BACKTICK).

Definition push_indent (scanner : Scanner) (width : Z) : Scanner :=
  {| indents := array_push (indents scanner) (to_uint16 width);
     delimiters := delimiters scanner;
     inside_f_string := inside_f_string scanner |}.

Definition pop_indent (scanner : Scanner) : Scanner :=
  {| indents := array_pop (indents scanner);
     delimiters := delimiters scanner;
     inside_f_string := inside_f_string scanner |}.

(** INDENT, DEDENT or NEWLINE after the layout loop. *)
Definition scan_layout_emit (scanner : Scanner) (valid_symbols : ValidSymbols)
  (s : Layout) : flow ScanResult unit :=
  let lexer := here s in
  if found_end_of_line s then
    _ <- (if Nat.ltb 0 (List.length (indents scanner)) then
            let current_indent_length := array_back (indents scanner) 0 in
            if valid_symbols INDENT && (current_indent_length <? indent_length s)
            then finish true INDENT lexer (push_indent scanner (indent_length s))
            else
              let next_tok_is_string_start := is_quote (lookahead lexer) in
              if (valid_symbols DEDENT
                  || (negb (valid_symbols NEWLINE)
                      && negb (valid_symbols STRING_START && next_tok_is_string_start)
                      && negb (within_brackets valid_symbols)))
                 && (indent_length s <? current_indent_length)
                 && negb (inside_f_string scanner)
                 && (first_comment_indent_length s <? current_indent_length)
              then finish true DEDENT lexer (pop_indent scanner)
              else Fall tt
          else Fall tt) ;;
    if valid_symbols NEWLINE && negb (error_recovery_mode valid_symbols)
    then finish true NEWLINE lexer scanner
    else Fall tt
  else Fall tt.

(** [&], [&&], [|] and [||]. *)
Definition scan_logical_operators (scanner : Scanner) (lexer : TSLexer)
  (valid_symbols : ValidSymbols) : flow ScanResult TSLexer :=
  if valid_symbols LOGICAL_AND || valid_symbols LOGICAL_OR
     || valid_symbols BACKGROUND_AMP
  then
    if lookahead lexer =? chr "&" then
      let lexer := advance lexer in
      if lookahead lexer =? chr "&" then
        if valid_symbols LOGICAL_AND
        then finish true LOGICAL_AND (mark_end (advance lexer)) scanner
        else no_token lexer scanner
      else if valid_symbols BACKGROUND_AMP
      then finish true BACKGROUND_AMP (mark_end lexer) scanner
      else no_token lexer scanner
    else if (lookahead lexer =? chr "|") && valid_symbols LOGICAL_OR then
      let lexer := advance lexer in
      if lookahead lexer =? chr "|"
      then finish true LOGICAL_OR (mark_end (advance lexer)) scanner
      else no_token lexer scanner
    else Fall lexer
  else Fall lexer.

(** The keyword test below calls [isalnum] on the lookahead, a 32-bit code
    point.  Outside [ctype_defined] the C standard leaves the behaviour of
    that call undefined, so the model leaves its answer open:
    [isalnum_beyond] is whatever the C library at hand answers there, and
    everything that follows holds for every library.  A call that does not
    come back at all is outside the model: a property that states the
    result of the keyword test restricts the character that the test reads
    to [ctype_defined]. *)
Class CLibrary : Type := { isalnum_beyond : Z -> bool }.

Section Libc.
Context {libc : CLibrary}.

Definition isalnum (c : Z) : bool :=
  if ctype_defined c then isalnum_c_locale c else isalnum_beyond c.

(** The keywords [and] and [or], each up to a word boundary. *)
Definition scan_keyword_operators (scanner : Scanner) (lexer : TSLexer)
  (valid_symbols : ValidSymbols) : flow ScanResult TSLexer :=
  if valid_symbols KEYWORD_AND || valid_symbols KEYWORD_OR then
    if valid_symbols KEYWORD_AND && (lookahead lexer =? chr "a") then
      let lexer := advance lexer in
      if lookahead lexer =? chr "n" then
        let lexer := advance lexer in
        if lookahead lexer =? chr "d" then
          let lexer := advance lexer in
          if negb (isalnum (lookahead lexer)) && negb (lookahead lexer =? chr "_")
          then finish true KEYWORD_AND (mark_end lexer) scanner
          else no_token lexer scanner
        else no_token lexer scanner
      else no_token lexer scanner
    else if valid_symbols KEYWORD_OR && (lookahead lexer =? chr "o") then
      let lexer := advance lexer in
      if lookahead lexer =? chr "r" then
        let lexer := advance lexer in
        if negb (isalnum (lookahead lexer)) && negb (lookahead lexer =? chr "_")
        then finish true KEYWORD_OR (mark_end lexer) scanner
        else no_token lexer scanner
      else no_token lexer scanner
    else Fall lexer
  else Fall lexer.

(** Operator dispatch: the two blocks one after the other. *)
Definition scan_operators (scanner : Scanner) (lexer : TSLexer)
  (valid_symbols : ValidSymbols) : flow ScanResult TSLexer :=
  lexer <- scan_logical_operators scanner lexer valid_symbols ;;
  scan_keyword_operators scanner lexer valid_symbols.

(** The opening quote [q] at the lookahead, once or three times:
    [set_end_character; advance; mark_end; if (q) { advance; if (q)
    { advance; mark_end; set_triple; } }]. *)
Definition open_quote (q : Z) (d : Delimiter) (lexer : TSLexer)
  : Delimiter * TSLexer :=
  let d := set_end_character d q in
  let lexer := mark_end (advance lexer) in
  if lookahead lexer =? q then
    let lexer := advance lexer in
    if lookahead lexer =? q
    then (set_triple d, mark_end (advance lexer))
    else (d, lexer)
  else (d, lexer).

Definition open_quotes (d : Delimiter) (lexer : TSLexer) : Delimiter * TSLexer :=
  if lookahead lexer =? SQUOTE then open_quote SQUOTE d lexer
  else if lookahead lexer =? DQUOTE then open_quote DQUOTE d lexer
  else (d, lexer).

Definition DetectResult_eqb (a b : DetectResult) : bool :=
  match a, b with
  | DETECT_NONE, DETECT_NONE | DETECT_SUBPROCESS, DETECT_SUBPROCESS
  | DETECT_SUBPROCESS_MACRO, DETECT_SUBPROCESS_MACRO
  | DETECT_STRING, DETECT_STRING | DETECT_BLOCK_MACRO, DETECT_BLOCK_MACRO
  | DETECT_PATH_PREFIX, DETECT_PATH_PREFIX => true
  | _, _ => false
  end.

Definition check_subprocess (lexer : TSLexer) (valid_symbols : ValidSymbols)
  (first_comment_indent_length : Z) : bool :=
  let looks_like_string :=
    (lookahead lexer =? DQUOTE) || (lookahead lexer =? SQUOTE) in
  (valid_symbols SUBPROCESS_START || valid_symbols SUBPROCESS_MACRO_START
   || valid_symbols BLOCK_MACRO_START)
  && negb (within_brackets valid_symbols)
  && negb (error_recovery_mode valid_symbols)
  && (first_comment_indent_length =? -1)
  && negb (lookahead lexer =? chr "#")
  && negb looks_like_string.

(** Subprocess, macro, path-prefix and prefixed-string tokens from the
    verdict of [detect_subprocess_line]; falls through with the lexer as the
    detector left it. *)
Definition scan_subprocess (scanner : Scanner) (lexer : TSLexer)
  (valid_symbols : ValidSymbols) (first_comment_indent_length : Z)
  : flow ScanResult TSLexer :=
  if check_subprocess lexer valid_symbols first_comment_indent_length then
    d <- call (detect_subprocess_line lexer (Some new_delimiter)) ;;
    let result := verdict d in
    let lexer := after d in
    if DetectResult_eqb result DETECT_BLOCK_MACRO && valid_symbols BLOCK_MACRO_START
    then finish true BLOCK_MACRO_START (mark_end lexer) scanner
    else if DetectResult_eqb result DETECT_SUBPROCESS_MACRO
            && valid_symbols SUBPROCESS_MACRO_START
    then finish true SUBPROCESS_MACRO_START (mark_end lexer) scanner
    else if DetectResult_eqb result DETECT_SUBPROCESS && valid_symbols SUBPROCESS_START
    then finish true SUBPROCESS_START lexer scanner
    else if DetectResult_eqb result DETECT_PATH_PREFIX && valid_symbols PATH_PREFIX
    then finish true PATH_PREFIX (mark_end lexer) scanner
    else if DetectResult_eqb result DETECT_STRING && valid_symbols STRING_START then
      let string_delim :=
        match string_delimiter d with
        | Some sd => sd
        | None => new_delimiter
        end in
      let '(string_delim, lexer) := open_quotes string_delim lexer in
      if negb (end_character string_delim =? 0)
      then finish true STRING_START lexer (push_delimiter scanner string_delim)
      else Fall lexer
    else Fall lexer
  else Fall lexer.

Definition is_plain_quote (c : Z) : bool := (c =? SQUOTE) || (c =? DQUOTE).

(** [p], [pf], [pr] (either case) immediately before a quote. *)
Definition scan_path_prefix (scanner : Scanner) (lexer : TSLexer)
  (valid_symbols : ValidSymbols) (first_comment_indent_length : Z)
  : flow ScanResult TSLexer :=
  if (first_comment_indent_length =? -1) && valid_symbols PATH_PREFIX then
    if (lookahead lexer =? chr "p") || (lookahead lexer =? chr "P") then
      let lexer := advance lexer in
      if is_plain_quote (lookahead lexer)
      then finish true PATH_PREFIX (mark_end lexer) scanner
      else if (lookahead lexer =? chr "f") || (lookahead lexer =? chr "F")
              || (lookahead lexer =? chr "r") || (lookahead lexer =? chr "R")
      then
        let lexer := advance lexer in
        if is_plain_quote (lookahead lexer)
        then finish true PATH_PREFIX (mark_end lexer) scanner
        else no_token lexer scanner
      else no_token lexer scanner
    else Fall lexer
  else Fall lexer.

(** The prefix letters before a quote: [while (lexer->lookahead) { ... }],
    at most one round per character left. *)
Fixpoint string_prefix (n : nat) (d : Delimiter) (has_flags : bool)
  (lexer : TSLexer) : Delimiter * bool * TSLexer :=
  match n with
  | O => (d, has_flags, lexer)
  | S n' =>
      let c := lookahead lexer in
      if c =? 0 then (d, has_flags, lexer)
      else if (c =? chr "f") || (c =? chr "F")
      then string_prefix n' (set_format d) true (advance lexer)
      else if (c =? chr "r") || (c =? chr "R")
      then string_prefix n' (set_raw d) true (advance lexer)
      else if (c =? chr "b") || (c =? chr "B")
      then string_prefix n' (set_bytes d) true (advance lexer)
      else if negb (c =? chr "u") && negb (c =? chr "U")
      then (d, has_flags, lexer)
      else string_prefix n' d true (advance lexer)
  end.

Definition scan_string_start (scanner : Scanner) (lexer : TSLexer)
  (valid_symbols : ValidSymbols) (first_comment_indent_length : Z)
  : flow ScanResult TSLexer :=
  if (first_comment_indent_length =? -1) && valid_symbols STRING_START then
    let '(delimiter, has_flags, lexer) :=
      string_prefix (List.length (input lexer)) new_delimiter false lexer in
    if lookahead lexer =? BACKTICK then no_token lexer scanner
    else
      let '(delimiter, lexer) := open_quotes delimiter lexer in
      if negb (end_character delimiter =? 0)
      then finish true STRING_START lexer (push_delimiter scanner delimiter)
      else if has_flags then no_token lexer scanner
      else Fall lexer
  else Fall lexer.

(** The stages of a scan call up to and including layout emission. *)
Definition scan_front (scanner : Scanner) (lexer : TSLexer)
  (valid_symbols : ValidSymbols) : flow ScanResult Layout :=
  advanced_once <- scan_escape scanner lexer valid_symbols ;;
  lexer <- scan_content scanner lexer valid_symbols advanced_once ;;
  s <- scan_layout scanner lexer valid_symbols ;;
  _ <- scan_layout_emit scanner valid_symbols s ;;
  Fall s.

(** The stages after operator dispatch: subprocess detection, path prefix,
    string start, and the final [return false]. *)
Definition scan_back (scanner : Scanner) (lexer : TSLexer)
  (valid_symbols : ValidSymbols) (first_comment_indent_length : Z)
  : flow ScanResult ScanResult :=
  lexer <- scan_subprocess scanner lexer valid_symbols first_comment_indent_length ;;
  lexer <- scan_path_prefix scanner lexer valid_symbols first_comment_indent_length ;;
  lexer <- scan_string_start scanner lexer valid_symbols first_comment_indent_length ;;
  no_token lexer scanner.

(** The dispatcher, with the stages after operator dispatch as [back]. *)
Definition scan_with
  (back : Scanner -> TSLexer -> ValidSymbols -> Z -> flow ScanResult ScanResult)
  (scanner : Scanner) (lexer : TSLexer) (valid_symbols : ValidSymbols)
  : option ScanResult :=
  run (s <- scan_front scanner lexer valid_symbols ;;
       lexer <- scan_operators scanner (here s) valid_symbols ;;
       back scanner lexer valid_symbols (first_comment_indent_length s)).

(** [tree_sitter_xonsh_external_scanner_scan]; [None] would be a loop bound
    that ran out, which [scan_total] excludes. *)
Definition scan (scanner : Scanner) (lexer : TSLexer)
  (valid_symbols : ValidSymbols) : option ScanResult :=
  scan_with scan_back scanner lexer valid_symbols.

(** The token a finished call reports to the parser. *)
Definition emitted (r : ScanResult) : option TokenType :=
  if token_found r then Some (result_symbol (lexer_after r)) else None.

(** ** Serialization *)

Definition TREE_SITTER_SERIALIZATION_BUFFER_SIZE : nat := 1024.
Definition UINT8_MAX : nat := 255.

(** [for (; iter < indents.size && size < BUFFER_SIZE; ++iter)
       buffer[size++] = (char)indents[iter];] over the entries from [iter]
    on; the buffer is the list of the bytes written so far. *)
Fixpoint serialize_indents (rest : list Z) (buffer : list Z) : list Z :=
  match rest with
  | [] => buffer
  | width :: rest' =>
      if Nat.ltb (List.length buffer) TREE_SITTER_SERIALIZATION_BUFFER_SIZE
      then serialize_indents rest' (buffer ++ [to_uint8 width])
      else buffer
  end.

(** [tree_sitter_xonsh_external_scanner_serialize]: the bytes written, whose
    number is the return value. *)
Definition serialize (scanner : Scanner) : list Z :=
  let buffer := [Z.b2z (inside_f_string scanner)] in
  let delimiter_count := List.length (delimiters scanner) in
  let delimiter_count :=
    if Nat.ltb UINT8_MAX delimiter_count then UINT8_MAX else delimiter_count in
  let buffer := buffer ++ [Z.of_nat delimiter_count] in
  let buffer :=
    buffer ++ map (fun d => to_uint8 (flags d))
                (firstn delimiter_count (delimiters scanner)) in
  serialize_indents (skipn 1 (indents scanner)) buffer.

(** [for (; size < length; size++) array_push(&indents, (unsigned char)buffer[size]);]
    with [n] the rounds left. *)
Fixpoint deserialize_indents (n : nat) (buffer : list Z) (size : nat)
  (indents : list Z) : list Z :=
  match n with
  | O => indents
  | S n' =>
      deserialize_indents n' buffer (S size)
        (array_push indents (to_uint8 (nth size buffer 0)))
  end.

(** [tree_sitter_xonsh_external_scanner_deserialize] on the first [length]
    bytes of [buffer]; a byte beyond the list reads as 0. *)
Definition deserialize (scanner : Scanner) (buffer : list Z) (length : nat)
  : Scanner :=
  let indents := array_push [] 0 in
  if Nat.ltb 0 length then
    let inside := negb (nth 0 buffer 0 =? 0) in
    let delimiter_count := Z.to_nat (to_uint8 (nth 1 buffer 0)) in
    let delims :=
      map (fun i => mkDelimiter (nth (2 + i) buffer 0)) (seq 0 delimiter_count) in
    let size := (2 + delimiter_count)%nat in
    {| indents := deserialize_indents (length - size) buffer size indents;
       delimiters := delims;
       inside_f_string := inside |}
  else
    {| indents := indents; delimiters := [];
       inside_f_string := inside_f_string scanner |}.

(** [tree_sitter_xonsh_external_scanner_create]: zeroed memory, then
    [deserialize(scanner, NULL, 0)]. *)
Definition create : Scanner :=
  deserialize {| indents := []; delimiters := []; inside_f_string := false |} [] 0.

(** The state the host gets back when it saves and restores the scanner. *)
Definition roundtrip (scanner : Scanner) : Scanner :=
  let buffer := serialize scanner in
  deserialize scanner buffer (List.length buffer).

(** The state the host gets back when it restores, into the scanner
    [target], the bytes that it saved from [scanner]. *)
Definition restore (target scanner : Scanner) : Scanner :=
  let buffer := serialize scanner in
  deserialize target buffer (List.length buffer).

(** * The vocabulary of the properties *)

(** ** Sample inputs and states *)

(** Every symbol valid, as the parser asks during error recovery. *)
Definition all_valid : ValidSymbols := fun _ => true.

(** The line [ls -la]. *)
Definition sample_ls : TSLexer := lexer_on (codes "ls -la" ++ [NL]).

(** The statement [return"x"]: a keyword directly followed by a string. *)
Definition sample_return_string : TSLexer :=
  lexer_on (codes "return" ++ [DQUOTE] ++ codes "x" ++ [DQUOTE]).

(** The text [andy], an identifier, where the keyword [and] is valid. *)
Definition sample_andy : TSLexer := lexer_on (codes "andy").

(** A line indented by 32 tabs, that is by 256 columns. *)
Definition sample_wide_line : TSLexer :=
  lexer_on ([NL] ++ repeat TAB 32 ++ codes "x").

(** The rest of a line that ends in the bytes literal of a backslash and an
    [N]: backslash, [N], closing quote, newline. *)
Definition sample_bytes_escape : TSLexer :=
  lexer_at 2 ([BACKSLASH] ++ codes "N" ++ [DQUOTE; NL]).

(** Inside a double-quoted format string. *)
Definition in_format_string : Scanner :=
  {| indents := [0];
     delimiters := [set_end_character (set_format new_delimiter) DQUOTE];
     inside_f_string := true |}.

(** Inside a double-quoted bytes string. *)
Definition in_bytes_string : Scanner :=
  {| indents := [0];
     delimiters := [set_end_character (set_bytes new_delimiter) DQUOTE];
     inside_f_string := false |}.

(** Inside a single-quoted string without prefix. *)
Definition in_plain_string : Scanner :=
  {| indents := [0];
     delimiters := [set_end_character new_delimiter SQUOTE];
     inside_f_string := false |}.

(** One block open, at column 4. *)
Definition one_block_open : Scanner :=
  {| indents := [0; 4]; delimiters := []; inside_f_string := false |}.

(** One block open, at column 256. *)
Definition wide_block_open : Scanner :=
  {| indents := [0; 256]; delimiters := []; inside_f_string := false |}.

(** One block open at column 4, with the flag of a format string left
    over. *)
Definition left_over_block : Scanner :=
  {| indents := [0; 4]; delimiters := []; inside_f_string := true |}.

(** A C library whose [isalnum] answers 0 outside its domain. *)
Definition strict_library : CLibrary := {| isalnum_beyond := fun _ => false |}.

(** A C library whose [isalnum] answers 1 outside its domain. *)
Definition generous_library : CLibrary := {| isalnum_beyond := fun _ => true |}.

(** ** Lexers and flows *)

(** The number of characters left to read. *)
Definition remaining (lexer : TSLexer) : nat := List.length (input lexer).

(** [flow_all PR PA m]: what [m] returns satisfies [PR], what it falls
    through with satisfies [PA]. *)
Definition flow_all {R A : Type} (PR : R -> Prop) (PA : A -> Prop)
  (m : flow R A) : Prop :=
  match m with
  | Exhausted => True
  | Return r => PR r
  | Fall a => PA a
  end.

(** The property that holds of everything. *)
Definition any {A : Type} : A -> Prop := fun _ => True.

(** [same_marks base l]: the token start and the marked end of [l] are those
    of [base]. *)
Definition same_marks (base l : TSLexer) : Prop :=
  token_end l = token_end base /\ token_start l = token_start base.

(** The lexer of a verdict has the marks of [base]. *)
Definition detected_marks (base : TSLexer) (d : Detected) : Prop :=
  same_marks base (after d).

(** The lexer that the opening analysis falls through with has the marks of
    [base]. *)
Definition fall_marks {A B : Type} (base : TSLexer) (st : A * TSLexer * B) : Prop :=
  same_marks base (snd (fst st)).

(** The token start is where the lexer is, unless the lookahead is 0. *)
Definition at_token_start (lexer : TSLexer) : Prop :=
  token_start lexer = position lexer \/ lookahead lexer = 0.

(** The input at the lexer spells [word], and what follows is not an
    identifier character (at the end of input: the 0 lookahead). *)
Definition spells (word : string) (lexer : TSLexer) : bool :=
  codes_eqb (firstn (String.length word) (input lexer)) (codes word)
  && negb (is_identifier_char (nth (String.length word) (input lexer) 0)).

(** ** What a scan call reports *)

(** The part of a scan call that measures the indentation: brace escape,
    string content and the layout loop. *)
Definition measured_layout (scanner : Scanner) (lexer : TSLexer)
  (valid_symbols : ValidSymbols) : flow ScanResult Layout :=
  advanced_once <- scan_escape scanner lexer valid_symbols ;;
  lexer <- scan_content scanner lexer valid_symbols advanced_once ;;
  scan_layout scanner lexer valid_symbols.

(** The indentation width the layout loop arrives at, when the call gets
    that far. *)
Definition measured_width (scanner : Scanner) (lexer : TSLexer)
  (valid_symbols : ValidSymbols) : option Z :=
  match measured_layout scanner lexer valid_symbols with
  | Fall s => Some (indent_length s)
  | _ => None
  end.

(** [indent_length] is within the range of a [uint32_t]. *)
Definition width_in_range (s : Layout) : Prop :=
  0 <= indent_length s < 4294967296.

(** The flags use the seven bits of [enum Flags] only. *)
Definition flags_fit (d : Delimiter) : Prop := 0 <= flags d < 128.

(** The delimiter the detector hands back has fitting flags. *)
Definition delimiter_fits (d : Detected) : Prop :=
  forall sd, string_delimiter d = Some sd -> flags_fit sd.

(** What a finished call did, by the token it reports. *)
Definition scan_outcome (scanner : Scanner) (lexer : TSLexer)
  (valid_symbols : ValidSymbols) (r : ScanResult) : Prop :=
  match emitted r with
  | None => scanner_after r = scanner
  | Some INDENT =>
      valid_symbols INDENT = true
      /\ exists w,
          measured_width scanner lexer valid_symbols = Some w
          /\ 0 <= w < 4294967296
          /\ indents scanner <> []
          /\ array_back (indents scanner) 0 < w
          /\ scanner_after r = push_indent scanner w
  | Some DEDENT =>
      inside_f_string scanner = false
      /\ exists w,
          measured_width scanner lexer valid_symbols = Some w
          /\ 0 <= w < array_back (indents scanner) 0
          /\ indents scanner <> []
          /\ scanner_after r = pop_indent scanner
  | Some NEWLINE =>
      valid_symbols NEWLINE = true
      /\ error_recovery_mode valid_symbols = false
      /\ scanner_after r = scanner
  | Some ESCAPE_INTERPOLATION =>
      valid_symbols ESCAPE_INTERPOLATION = true
      /\ error_recovery_mode valid_symbols = false
      /\ scanner_after r = scanner
  | Some STRING_CONTENT =>
      valid_symbols STRING_CONTENT = true
      /\ error_recovery_mode valid_symbols = false
      /\ scanner_after r = scanner
  | Some STRING_END =>
      valid_symbols STRING_CONTENT = true
      /\ error_recovery_mode valid_symbols = false
      /\ delimiters scanner <> []
      /\ scanner_after r = pop_delimiter scanner
  | Some STRING_START =>
      valid_symbols STRING_START = true
      /\ exists d,
          flags_fit d /\ end_character d <> 0
          /\ scanner_after r = push_delimiter scanner d
  | Some t => valid_symbols t = true /\ scanner_after r = scanner
  end.

(** The call reports something other than SUBPROCESS_START. *)
Definition not_subprocess_start (r : ScanResult) : Prop :=
  emitted r <> Some SUBPROCESS_START.

(** ** Invariants of the scanner state *)

(** Strictly increasing from the bottom (the head) to the top. *)
Fixpoint increasing (l : list Z) : Prop :=
  match l with
  | [] => True
  | x :: rest =>
      match rest with
      | [] => True
      | y :: _ => x < y /\ increasing rest
      end
  end.

(** Non-empty, 0 at the bottom, strictly increasing upwards. *)
Definition indent_stack_ok (scanner : Scanner) : Prop :=
  (exists rest, indents scanner = 0 :: rest) /\ increasing (indents scanner).

(** [inside_f_string] is only set while a format string is on top of the
    delimiter stack. *)
Definition f_string_flag_ok (scanner : Scanner) : Prop :=
  inside_f_string scanner = true ->
  delimiters scanner <> []
  /\ is_format (array_back (delimiters scanner) new_delimiter) = true.

(** The states the host can bring about: the fresh one, those after a scan
    call, and those restored from a saved copy. *)
Inductive reachable : Scanner -> Prop :=
| reachable_create : reachable create
| reachable_scan :
    forall scanner lexer valid_symbols r,
      reachable scanner ->
      scan scanner lexer valid_symbols = Some r ->
      reachable (scanner_after r)
| reachable_restore :
    forall scanner, reachable scanner -> reachable (roundtrip scanner).

(** What holds of every reachable state: 0 at the bottom of the indent
    stack, no negative width, and every delimiter a byte. *)
Definition well_formed (scanner : Scanner) : Prop :=
  (exists rest, indents scanner = 0 :: rest)
  /\ Forall (fun w => 0 <= w) (indents scanner)
  /\ Forall (fun d => 0 <= flags d < 256) (delimiters scanner).

(** ** The serialized form *)

(** The delimiter count that [serialize] writes. *)
Definition written_delimiters (scanner : Scanner) : nat :=
  Nat.min UINT8_MAX (List.length (delimiters scanner)).

(** The number of indent widths that fit behind the delimiters. *)
Definition indent_room (scanner : Scanner) : nat :=
  TREE_SITTER_SERIALIZATION_BUFFER_SIZE - (2 + written_delimiters scanner).


(** ** Buffers *)

(** A value that fits a byte. *)
Definition is_byte (b : Z) : Prop := 0 <= b < 256.

(** A buffer in the layout that [serialize] writes: the flag byte, the
    delimiter count, that many delimiter bytes, then the indent bytes, within
    the buffer size. *)
Definition serialized_form (buffer : list Z) : Prop :=
  exists inside ds ws,
    buffer = [Z.b2z inside; Z.of_nat (List.length ds)] ++ ds ++ ws
    /\ (List.length ds <= UINT8_MAX)%nat
    /\ (List.length buffer <= TREE_SITTER_SERIALIZATION_BUFFER_SIZE)%nat
    /\ Forall is_byte ds /\ Forall is_byte ws.

(** ** Views of a delimiter *)

(** Everything the getters tell about a delimiter. *)
Definition flag_view (d : Delimiter) : bool * bool * bool * bool * Z :=
  (is_format d, is_raw d, is_triple d, is_bytes d, end_character d).

(** ** Known stretches of input *)

(** The lexer after [n] more characters were read with [advance], for an
    [n] that is at most the number of characters left. *)
Definition moved (n : nat) (lexer : TSLexer) : TSLexer :=
  {| input := skipn n (input lexer);
     position := (position lexer + n)%nat;
     token_start := token_start lexer;
     token_end := token_end lexer;
     result_symbol := result_symbol lexer |}.

(** Every character of [w] passes the test [p]. *)
Definition all_pass (p : Z -> bool) (w : list Z) : Prop :=
  Forall (fun c => p c = true) w.

(** The first character of [w], or the 0 that the lexer shows at the end of
    the input. *)
Definition first_of (w : list Z) : Z := hd 0 w.

(** What the detector needs of a keyword of the table. *)
Definition keyword_shape (kw : string) : bool :=
  let w := codes kw in
  is_identifier_start (first_of w)
  && forallb is_identifier_char w
  && Nat.leb (List.length w) 63
  && negb (forallb is_prefix_letter w)
  && negb (is_path_prefix w)
  && is_python_keyword w
  && Bool.eqb (is_with w) (String.eqb kw "with").

(** ** Where a call starts *)

(** The characters that the layout loop acts on; the 0 of the end of input
    is counted with them. *)
Definition starts_layout (c : Z) : bool :=
  (c =? NL) || (c =? chr " ") || (c =? CR) || (c =? FF) || (c =? TAB)
  || (c =? chr "#") || (c =? BACKSLASH) || (c =? 0).

(** The characters at which operator dispatch takes over, for the symbols
    that are valid. *)
Definition starts_operator (valid_symbols : ValidSymbols) (c : Z) : bool :=
  ((valid_symbols LOGICAL_AND || valid_symbols LOGICAL_OR
    || valid_symbols BACKGROUND_AMP)
   && ((c =? chr "&") || ((c =? chr "|") && valid_symbols LOGICAL_OR)))
  || ((valid_symbols KEYWORD_AND || valid_symbols KEYWORD_OR)
      && ((valid_symbols KEYWORD_AND && (c =? chr "a"))
          || (valid_symbols KEYWORD_OR && (c =? chr "o")))).

(** The call is not inside a string: no delimiter is open, or the parser
    asks for neither string content nor a brace escape. *)
Definition outside_string (scanner : Scanner) (valid_symbols : ValidSymbols)
  : Prop :=
  delimiters scanner = []
  \/ (valid_symbols STRING_CONTENT = false
      /\ valid_symbols ESCAPE_INTERPOLATION = false).

(** An identifier as the detector reads it: a start character, identifier
    characters only, and short enough for the 64-byte buffer. *)
Definition is_identifier (w : list Z) : Prop :=
  is_identifier_start (first_of w) = true
  /\ all_pass is_identifier_char w
  /\ (List.length w <= 63)%nat.

(** The comma-only line, the last step of the opening analysis. *)
Definition comma_line (first_ident : list Z) (lexer : TSLexer)
  (sd : option Delimiter) : flow Detected TSLexer :=
  if Nat.eqb (List.length first_ident) 0 && (lookahead lexer =? chr ",")
  then
    let lexer := advance_while (fun c => c =? chr ",") lexer in
    let lexer := advance_while is_whitespace lexer in
    if at_end_of_line lexer
    then Return (detected DETECT_SUBPROCESS lexer sd)
    else Fall lexer
  else Fall lexer.

(** The parser accepts a bare subprocess or one of the two macro forms at
    statement level. *)
Definition subprocess_context (valid_symbols : ValidSymbols) : Prop :=
  (valid_symbols SUBPROCESS_START || valid_symbols SUBPROCESS_MACRO_START
   || valid_symbols BLOCK_MACRO_START) = true
  /\ within_brackets valid_symbols = false
  /\ error_recovery_mode valid_symbols = false.

(** ** String and path prefixes *)

(** One of the two letters [a], [b] occurs in [w]. *)
Definition mentions (a b : Z) (w : list Z) : bool :=
  existsb (fun c => (c =? a) || (c =? b)) w.

(** The opening quote [q] is followed by two more of its kind. *)
Definition opens_triple (q : Z) (rest : list Z) : bool :=
  match rest with
  | a :: b :: _ => (a =? q) && (b =? q)
  | _ => false
  end.

(** The ten spellings that [is_path_prefix] accepts. *)
Definition path_prefixes : list string :=
  [ "p"; "P"; "pf"; "pF"; "pr"; "pR"; "Pf"; "PF"; "Pr"; "PR" ]%string.

(** What the scanner needs of a path prefix. *)
Definition path_prefix_shape (w : list Z) : bool :=
  is_identifier_start (first_of w)
  && forallb is_identifier_char w
  && Nat.leb 1 (List.length w) && Nat.leb (List.length w) 3
  && negb (forallb is_prefix_letter w)
  && ((first_of w =? chr "p") || (first_of w =? chr "P")).

(** ** The first word of a line and what follows it *)

(** The characters that make the opening analysis stop behind the first
    identifier: a quote, a question mark, an exclamation mark. *)
Definition ends_opening (c : Z) : bool :=
  (c =? DQUOTE) || (c =? SQUOTE) || (c =? chr "?") || (c =? chr "!").

(** The three characters that make a Python expression of the identifier
    they follow: call, subscript, attribute. *)
Definition follows_python (c : Z) : bool :=
  (c =? chr "(") || (c =? chr "[") || (c =? chr ".").

(** What the opening analysis hands to the rest-of-line loop as the first
    word: identifier characters only, at most 63 of them. *)
Definition is_word (w : list Z) : Prop :=
  all_pass is_identifier_char w /\ (List.length w <= 63)%nat.

(** The entries of the command table that hold a character which is not an
    identifier character. *)
Definition unreadable_commands : list string :=
  filter (fun w => negb (forallb is_identifier_char (codes w))) shell_commands.

(** ** Kinds of tokens *)

(** The call reports no token, or one of [kinds]. *)
Definition emits (kinds : list TokenType) (r : ScanResult) : Prop :=
  match emitted r with
  | Some t => In t kinds
  | None => True
  end.

(** The tokens of each part of a scan call. *)
Definition front_kinds : list TokenType :=
  [ESCAPE_INTERPOLATION; STRING_CONTENT; STRING_END; INDENT; DEDENT; NEWLINE].

Definition operator_kinds : list TokenType :=
  [LOGICAL_AND; LOGICAL_OR; BACKGROUND_AMP; KEYWORD_AND; KEYWORD_OR].

Definition subprocess_kinds : list TokenType :=
  [SUBPROCESS_START; SUBPROCESS_MACRO_START; BLOCK_MACRO_START].

Definition back_kinds : list TokenType :=
  subprocess_kinds ++ [PATH_PREFIX; STRING_START].

(** The symbols that the scanner never reports: the three closing brackets
    and EXCEPT, which it reads from [valid_symbols], and COMMENT, which it
    does not use. *)
Definition read_only_kinds : list TokenType :=
  [COMMENT; CLOSE_PAREN; CLOSE_BRACKET; CLOSE_BRACE; EXCEPT].

(** The parser asking for nothing. *)
Definition nothing_valid : ValidSymbols := only [].

(** The symbol on whose validity the scanner reports [t]; DEDENT has none. *)
Definition licence (t : TokenType) : option TokenType :=
  match t with
  | DEDENT => None
  | STRING_END => Some STRING_CONTENT
  | _ => Some t
  end.

(** The three layout tokens. *)
Definition layout_kinds : list TokenType := [NEWLINE; INDENT; DEDENT].

(** The call reports no token, or the end that its lexer has marked is
    [mark]. *)
Definition marked_at (mark : nat) (r : ScanResult) : Prop :=
  emitted r = None \/ token_end (lexer_after r) = Some mark.

(** ** Inside strings and quoted stretches *)

(** A character that the string-content loop reads as content in every
    string whose end character is [q]: not the 0 of the end of input, no
    backslash, not [q], no line break and no brace. *)
Definition is_ordinary (q c : Z) : bool :=
  negb (c =? 0) && negb (c =? BACKSLASH) && negb (c =? q) && negb (c =? NL)
  && negb (is_brace c).

(** The quotes that close a string: the end character, three times for a
    triple-quoted string. *)
Definition closing_quotes (d : Delimiter) : list Z :=
  repeat (end_character d) (if is_triple d then 3 else 1).


(** ** Indentation *)

(** The lexer after [n] more characters, at least one and at most the
    number that is left, were read with [skip]: the token starts where the
    lexer stands. *)
Definition skipped (n : nat) (lexer : TSLexer) : TSLexer :=
  {| input := skipn n (input lexer);
     position := (position lexer + n)%nat;
     token_start := (position lexer + n)%nat;
     token_end := token_end lexer;
     result_symbol := result_symbol lexer |}.

(** The width of a run of blanks: 1 for a space, 8 for a tab. *)
Fixpoint indent_width (ws : list Z) : Z :=
  match ws with
  | [] => 0
  | c :: ws' => (if c =? TAB then 8 else 1) + indent_width ws'
  end.

(** ** Ranges of the state *)

(** A delimiter as STRING_START pushes it: flags within the seven bits, and
    one of the three quotes as the end character. *)
Definition delimiter_ok (d : Delimiter) : Prop :=
  flags_fit d /\ end_character d <> 0.

(** The ranges that the arrays of a state keep: 0 at the bottom of the indent
    stack, every width a [uint16_t], every delimiter as pushed. *)
Definition state_in_range (scanner : Scanner) : Prop :=
  (exists rest, indents scanner = 0 :: rest)
  /\ Forall (fun w => 0 <= w < 65536) (indents scanner)
  /\ Forall delimiter_ok (delimiters scanner).

(** ** Runs of calls *)

(** The states that scan calls lead to from [start], as long as none of the
    calls reports the token [t]. *)
Inductive calls_without (t : TokenType) (start : Scanner) : Scanner -> Prop :=
| calls_none : calls_without t start start
| calls_more :
    forall scanner lexer valid_symbols r,
      calls_without t start scanner ->
      scan scanner lexer valid_symbols = Some r ->
      emitted r <> Some t ->
      calls_without t start (scanner_after r).

(** ** The domain of the character tests *)

(** Every character that the lexer has left to show is one on which the
    functions of <ctype.h> are defined. *)
Definition within_ctype (lexer : TSLexer) : Prop :=
  Forall (fun c => ctype_defined c = true) (input lexer).

(** ** Tables of operators and line openings *)



(** The line openings that decide the verdict at once. *)
Definition opening_table : list (string * DetectResult) :=
  [ ("/", DETECT_SUBPROCESS); ("./", DETECT_SUBPROCESS);
    ("~/", DETECT_SUBPROCESS);
    ("$(", DETECT_NONE); ("$[", DETECT_NONE);
    ("!(", DETECT_NONE); ("![", DETECT_NONE);
    ("[", DETECT_NONE) ]%string.

(** ** Plain lines and shell marks *)

(** A character that neither opens a string nor takes part in an
    assignment, a comparison or a macro call: no equals sign, exclamation
    mark or quote. *)
Definition is_plain (c : Z) : bool :=
  negb ((c =? chr "=") || (c =? chr "!") || (c =? DQUOTE) || (c =? SQUOTE)).

(** Every character up to the end of the line (a line break, a 0 or the end
    of the input) is plain. *)
Fixpoint line_is_plain (l : list Z) : bool :=
  match l with
  | [] => true
  | c :: l' =>
      if (c =? 0) || (c =? NL) then true else is_plain c && line_is_plain l'
  end.

(** The loop stands outside a string, behind a shell signal, with no Python
    signal up and a plain rest of the line before it. *)
Definition on_plain_line (s : LineScan) : Prop :=
  seen_shell_signal s = true
  /\ in_string s = false
  /\ python_signal (signals s) = false
  /\ line_is_plain (input (cursor s)) = true.

(** What raises a shell signal on a line that holds no equals sign: a flag
    (one or two dashes and the start of a name), a pipe, a double ampersand,
    a closing angle bracket, and an opening angle bracket that is not
    followed by a second one. *)
Definition shell_mark (l : list Z) : bool :=
  match l with
  | [] => false
  | c :: l' =>
      if c =? chr "-" then
        is_identifier_start
          (first_of (if first_of l' =? chr "-" then tl l' else l'))
      else if c =? chr "|" then true
      else if c =? chr "&" then first_of l' =? chr "&"
      else if c =? chr ">" then true
      else if c =? chr "<" then negb (first_of l' =? chr "<")
      else false
  end.

(** * Properties *)

(** ** Loops and their bounds *)

Section LoopFacts.
Context {R B S : Type}.
Variable body : S -> iteration R B S.

(** A size of the loop state that every further round makes smaller. *)
Variable size : S -> nat.
Hypothesis body_shrinks :
  forall s s', body s = Next s' -> (size s' < size s)%nat.

Lemma loop_enough_fuel :
  forall fuel s, (size s < fuel)%nat -> loop body fuel s <> Exhausted.
Proof.
  induction fuel as [|fuel IH]; intros s Hlt; [lia|].
  simpl. destruct (body s) as [r|b|s'] eqn:E; try discriminate.
  apply IH. apply body_shrinks in E. lia.
Qed.

(** An invariant of the loop state decides what the loop can hand back. *)
Lemma loop_invariant (Inv : S -> Prop) (PR : R -> Prop) (PB : B -> Prop) :
  (forall s s', Inv s -> body s = Next s' -> Inv s') ->
  (forall s r, Inv s -> body s = Ret r -> PR r) ->
  (forall s b, Inv s -> body s = Break b -> PB b) ->
  forall fuel s, Inv s ->
    match loop body fuel s with
    | Exhausted => True
    | Return r => PR r
    | Fall b => PB b
    end.
Proof.
  intros Hnext Hret Hbreak.
  induction fuel as [|fuel IH]; intros s Hs; simpl; [exact I|].
  destruct (body s) as [r|b|s'] eqn:E.
  - eapply Hret; eassumption.
  - eapply Hbreak; eassumption.
  - apply IH. eapply Hnext; eassumption.
Qed.

Lemma loop_from_reached :
  forall s t, reaches body s t ->
  forall fuel, (size s < fuel)%nat ->
    exists fuel', (size t < fuel')%nat /\ loop body fuel s = loop body fuel' t.
Proof.
  induction 1 as [s|s s' t E _ IH]; intros fuel Hlt.
  - exists fuel. split; [exact Hlt | reflexivity].
  - destruct fuel as [|fuel]; [lia|].
    pose proof (body_shrinks _ _ E) as Hs.
    destruct (IH fuel ltac:(lia)) as (fuel' & Hlt' & Heq).
    exists fuel'. split; [exact Hlt'|]. simpl. rewrite E. exact Heq.
Qed.
End LoopFacts.

(** ** The lexer *)

Lemma lookahead_nonzero_input :
  forall lexer, lookahead lexer <> 0 -> input lexer <> [].
Proof.
  intros lexer H E. apply H. unfold lookahead. rewrite E. reflexivity.
Qed.

Lemma remaining_advance_le :
  forall lexer b, (remaining (lexer_advance lexer b) <= remaining lexer)%nat.
Proof.
  intros lexer b. unfold remaining, lexer_advance.
  destruct (input lexer) eqn:E; simpl; rewrite ?E; simpl; lia.
Qed.

Lemma remaining_advance_lt :
  forall lexer b, lookahead lexer <> 0 ->
    (remaining (lexer_advance lexer b) < remaining lexer)%nat.
Proof.
  intros lexer b H. apply lookahead_nonzero_input in H.
  unfold remaining, lexer_advance.
  destruct (input lexer) eqn:E; [contradiction|]. simpl. lia.
Qed.

Lemma remaining_mark_end :
  forall lexer, remaining (mark_end lexer) = remaining lexer.
Proof. reflexivity. Qed.

Lemma lookahead_mark_end :
  forall lexer, lookahead (mark_end lexer) = lookahead lexer.
Proof. reflexivity. Qed.

Lemma remaining_while_le :
  forall b p n lexer, (remaining (lexer_while b p n lexer) <= remaining lexer)%nat.
Proof.
  induction n as [|n IH]; intros lexer; simpl; [lia|].
  destruct (p (lookahead lexer)); [|lia].
  pose proof (IH (lexer_advance lexer b)).
  pose proof (remaining_advance_le lexer b). lia.
Qed.

Lemma remaining_while_lt :
  forall b p lexer, p (lookahead lexer) = true -> lookahead lexer <> 0 ->
    (remaining (lexer_while b p (remaining lexer) lexer) < remaining lexer)%nat.
Proof.
  intros b p lexer Hp Hne.
  pose proof (remaining_advance_lt lexer b Hne) as Hlt.
  destruct (remaining lexer) as [|n] eqn:E; [lia|].
  simpl. rewrite Hp.
  pose proof (remaining_while_le b p n (lexer_advance lexer b)). lia.
Qed.

(** The bounded walk stops only where the C loop stops: on a character that
    fails the test. *)
Lemma lexer_while_stops :
  forall b p, p 0 = false ->
  forall n lexer, (remaining lexer <= n)%nat ->
    p (lookahead (lexer_while b p n lexer)) = false.
Proof.
  intros b p H0. induction n as [|n IH]; intros lexer Hle; simpl.
  - unfold remaining in Hle. unfold lookahead.
    destruct (input lexer); [exact H0 | simpl in Hle; lia].
  - destruct (p (lookahead lexer)) eqn:E; [|exact E].
    apply IH. destruct (Z.eq_dec (lookahead lexer) 0) as [Hz|Hnz].
    + rewrite Hz, H0 in E. discriminate.
    + pose proof (remaining_advance_lt lexer b Hnz). lia.
Qed.

Lemma advance_while_stops :
  forall p lexer, p 0 = false -> p (lookahead (advance_while p lexer)) = false.
Proof.
  intros p lexer H0. apply lexer_while_stops; [exact H0 | unfold remaining; lia].
Qed.

Lemma neqb_nonzero : forall c, negb (c =? 0) = true -> c <> 0.
Proof. intros c H E. subst c. discriminate. Qed.

(** Collects, for the lexers in the goal, how much input each step left. *)
Ltac note_steps :=
  repeat match goal with
    | |- context [lexer_advance ?l ?b] =>
        lazymatch goal with
        | _ : (remaining (lexer_advance l b) <= remaining l)%nat |- _ => fail
        | _ => pose proof (remaining_advance_le l b)
        end
    | |- context [advance ?l] =>
        lazymatch goal with
        | _ : (remaining (advance l) <= remaining l)%nat |- _ => fail
        | _ => pose proof (remaining_advance_le l false : (remaining (advance l) <= remaining l)%nat)
        end
    | |- context [skip ?l] =>
        lazymatch goal with
        | _ : (remaining (skip l) <= remaining l)%nat |- _ => fail
        | _ => pose proof (remaining_advance_le l true : (remaining (skip l) <= remaining l)%nat)
        end
    | |- context [advance_while ?p ?l] =>
        lazymatch goal with
        | _ : (remaining (advance_while p l) <= remaining l)%nat |- _ => fail
        | _ => pose proof (remaining_while_le false p (remaining l) l
                           : (remaining (advance_while p l) <= remaining l)%nat)
        end
    | |- context [skip_while ?p ?l] =>
        lazymatch goal with
        | _ : (remaining (skip_while p l) <= remaining l)%nat |- _ => fail
        | _ => pose proof (remaining_while_le true p (remaining l) l
                           : (remaining (skip_while p l) <= remaining l)%nat)
        end
    | |- context [mark_end ?l] =>
        lazymatch goal with
        | _ : remaining (mark_end l) = remaining l |- _ => fail
        | _ => pose proof (remaining_mark_end l)
        end
    end.

(** ** Every loop of the scanner ends within its bound *)

Ltac cursor_simpl :=
  cbn [cursor set_cursor set_signals set_in_string set_string_char
       set_prev_was_ident_no_space set_prev_was_space set_seen_shell_signal
       set_prev_was_flag set_python_eval_depth signal shell_signal].

Lemma identifier_start_char :
  forall c, is_identifier_start c = true -> is_identifier_char c = true.
Proof. intros c H. unfold is_identifier_char. rewrite H. reflexivity. Qed.

Lemma line_scan_body_shrinks :
  forall s s', line_scan_body s = Next s' ->
    (remaining (cursor s') < remaining (cursor s))%nat.
Proof.
  intros s s'. unfold line_scan_body.
  destruct (negb (lookahead (cursor s) =? 0) && negb (lookahead (cursor s) =? NL))
    eqn:Hc; [|discriminate].
  apply andb_prop in Hc as [Hnz _]. apply neqb_nonzero in Hnz.
  pose proof (remaining_advance_lt (cursor s) false Hnz) as Hfirst.
  fold (advance (cursor s)) in Hfirst.
  intros H. injection H as <-.
  repeat (cursor_simpl;
          lazymatch goal with
          | |- (remaining (cursor (if ?b then _ else _)) < _)%nat =>
              destruct b eqn:?
          end).
  all: cursor_simpl.
  all: repeat match goal with
         | |- context [if ?b then _ else _] => destruct b eqn:?
         end.
  all: cursor_simpl.
  all: try (note_steps; lia).
  apply remaining_while_lt; [|exact Hnz].
  apply identifier_start_char. assumption.
Qed.

Lemma line_scan_body_never_returns :
  forall s r, line_scan_body s <> Ret r.
Proof.
  intros s r. unfold line_scan_body.
  destruct (negb (lookahead (cursor s) =? 0) && negb (lookahead (cursor s) =? NL));
    discriminate.
Qed.

Lemma line_scan_falls :
  forall first_ident lexer, exists s, line_scan first_ident lexer = Fall s.
Proof.
  intros first_ident lexer. unfold line_scan.
  set (start := line_scan_start first_ident lexer).
  set (fuel := S (List.length (input lexer))).
  assert (Hfuel : (remaining (cursor start) < fuel)%nat)
    by (unfold start, fuel, remaining; simpl; lia).
  pose proof (loop_enough_fuel line_scan_body (fun s => remaining (cursor s))
                line_scan_body_shrinks fuel start Hfuel) as Hne.
  pose proof (loop_invariant line_scan_body (fun _ => True) (fun _ => False)
                (fun _ => True)) as Hinv.
  specialize (Hinv (fun _ _ _ _ => I)).
  specialize (Hinv (fun s r _ E => line_scan_body_never_returns s r E)).
  specialize (Hinv (fun _ _ _ _ => I) fuel start I).
  destruct (loop line_scan_body fuel start) as [|r|s]; [congruence|contradiction|].
  exists s. reflexivity.
Qed.

Lemma content_body_shrinks :
  forall scanner delimiter advanced_once st st',
    content_body scanner delimiter advanced_once st = Next st' ->
    (remaining (snd st') < remaining (snd st))%nat.
Proof.
  intros scanner delimiter advanced_once [has_content lexer] st'.
  unfold content_body.
  destruct (lookahead lexer =? 0) eqn:Hz; [discriminate|].
  apply Z.eqb_neq in Hz.
  pose proof (remaining_advance_lt lexer false Hz) as Hfirst.
  fold (advance lexer) in Hfirst.
  pose proof (remaining_advance_lt (mark_end lexer) false Hz) as Hmarked.
  fold (advance (mark_end lexer)) in Hmarked.
  repeat match goal with
    | |- context [if ?b then _ else _] => destruct b eqn:?
    end; try discriminate.
  all: intros H; injection H as <-; cbn [snd].
  all: note_steps; lia.
Qed.

Lemma scan_content_ends :
  forall scanner lexer valid_symbols advanced_once,
    scan_content scanner lexer valid_symbols advanced_once <> Exhausted.
Proof.
  intros scanner lexer valid_symbols advanced_once. unfold scan_content.
  destruct (_ && _); [|discriminate].
  apply (loop_enough_fuel _ (fun st => remaining (snd st))
           (content_body_shrinks scanner _ advanced_once)).
  unfold remaining. simpl. lia.
Qed.

Lemma layout_body_shrinks :
  forall scanner valid_symbols s s',
    layout_body scanner valid_symbols s = Next s' ->
    (remaining (here s') < remaining (here s))%nat.
Proof.
  intros scanner valid_symbols s s'. unfold layout_body.
  assert (Hstep : forall b, lookahead (here s) <> 0 ->
            (remaining (lexer_advance (here s) b) < remaining (here s))%nat)
    by (intros; apply remaining_advance_lt; assumption).
  pose proof (Hstep true) as Hskip. fold (skip (here s)) in Hskip.
  destruct (lookahead (here s) =? NL) eqn:E1.
  { apply Z.eqb_eq in E1. intros H; injection H as <-. cbn [here].
    apply Hskip. rewrite E1. discriminate. }
  destruct (lookahead (here s) =? chr " ") eqn:E2.
  { apply Z.eqb_eq in E2. intros H; injection H as <-. cbn [here].
    apply Hskip. rewrite E2. discriminate. }
  destruct ((lookahead (here s) =? CR) || (lookahead (here s) =? FF)) eqn:E3.
  { intros H; injection H as <-. cbn [here]. apply Hskip.
    apply orb_prop in E3 as [E|E]; apply Z.eqb_eq in E; rewrite E; discriminate. }
  destruct (lookahead (here s) =? TAB) eqn:E4.
  { apply Z.eqb_eq in E4. intros H; injection H as <-. cbn [here].
    apply Hskip. rewrite E4. discriminate. }
  destruct ((lookahead (here s) =? chr "#") && comment_allowed valid_symbols) eqn:E5.
  { apply andb_prop in E5 as [E5 _]. apply Z.eqb_eq in E5.
    destruct (negb (found_end_of_line s)); [discriminate|].
    intros H; injection H as <-. cbn [here].
    assert (Hnz : lookahead (here s) <> 0) by (rewrite E5; discriminate).
    assert (Hin : in_comment (lookahead (here s)) = true) by (rewrite E5; reflexivity).
    assert (Hw : (remaining (skip_while in_comment (here s)) < remaining (here s))%nat)
      by exact (remaining_while_lt true in_comment (here s) Hin Hnz).
    note_steps. lia. }
  destruct (lookahead (here s) =? BACKSLASH) eqn:E6.
  { apply Z.eqb_eq in E6.
    assert (Hnz : lookahead (here s) <> 0) by (rewrite E6; discriminate).
    specialize (Hskip Hnz).
    repeat match goal with
      | |- context [if ?b then _ else _] => destruct b eqn:?
      end; try discriminate.
    all: intros H; injection H as <-; cbn [here]; note_steps; lia. }
  destruct (eof (here s)); discriminate.
Qed.

Lemma scan_layout_ends :
  forall scanner lexer valid_symbols,
    scan_layout scanner lexer valid_symbols <> Exhausted.
Proof.
  intros scanner lexer valid_symbols. unfold scan_layout.
  apply (loop_enough_fuel _ (fun s => remaining (here s))
           (layout_body_shrinks scanner valid_symbols)).
  unfold remaining. simpl. lia.
Qed.

Ltac split_ifs :=
  repeat match goal with
    | |- context [if ?b then _ else _] => destruct b eqn:?
    end.

Lemma bind_ends :
  forall {R A B : Type} (m : flow R A) (k : A -> flow R B),
    m <> Exhausted -> (forall a, m = Fall a -> k a <> Exhausted) ->
    bind m k <> Exhausted.
Proof.
  intros R A B m k Hm Hk. destruct m as [|r|a]; simpl;
    [congruence | discriminate | apply Hk; reflexivity].
Qed.

Lemma probe_ends :
  forall first next hit sd st, probe first next hit sd st <> Exhausted.
Proof.
  intros first next hit sd [lexer pos]. unfold probe. split_ifs; discriminate.
Qed.

Lemma first_identifier_ends :
  forall lexer pos sd, first_identifier lexer pos sd <> Exhausted.
Proof.
  intros lexer pos sd. unfold first_identifier.
  destruct (is_identifier_start (lookahead lexer)); [|discriminate].
  destruct (read_identifier 63 lexer []) as [first_ident lexer'].
  repeat (apply bind_ends; [|intros ? _]).
  - destruct (_ && _); [|discriminate].
    destruct (if forallb is_prefix_letter first_ident then sd else None);
      [discriminate|]. destruct (is_path_prefix first_ident); discriminate.
  - split_ifs; discriminate.
  - split_ifs; discriminate.
  - split_ifs; discriminate.
Qed.

Lemma detect_opening_ends :
  forall lexer sd, detect_opening lexer sd <> Exhausted.
Proof.
  intros lexer sd. unfold detect_opening.
  destruct (_ =? chr "/"); [discriminate|].
  repeat (apply bind_ends; [apply probe_ends|intros [? ?] _; cbn beta iota]).
  destruct (_ =? chr "["); [discriminate|].
  destruct (_ =? chr "@"); [discriminate|].
  destruct (if _ =? chr "$" then _ else _) as [lexer'' pos'].
  apply bind_ends; [apply first_identifier_ends|intros [[first_ident lx] p] _].
  cbn beta iota.
  apply bind_ends; [split_ifs; discriminate|intros ? _]. discriminate.
Qed.

(** The detector always comes back with a verdict. *)
Lemma detect_subprocess_line_returns :
  forall lexer sd, exists d, detect_subprocess_line lexer sd = Return d.
Proof.
  intros lexer sd. unfold detect_subprocess_line.
  pose proof (detect_opening_ends lexer sd) as Hends.
  destruct (detect_opening lexer sd) as [|d|[[first_ident lexer'] pos]];
    [congruence| |].
  - exists d. reflexivity.
  - simpl. destruct (line_scan_falls first_ident lexer') as [s Hs].
    rewrite Hs. simpl. eexists. reflexivity.
Qed.

Lemma scan_escape_ends :
  forall scanner lexer valid_symbols,
    scan_escape scanner lexer valid_symbols <> Exhausted.
Proof. intros. unfold scan_escape, finish, no_token. split_ifs; discriminate. Qed.

Lemma scan_layout_emit_ends :
  forall scanner valid_symbols s,
    scan_layout_emit scanner valid_symbols s <> Exhausted.
Proof.
  intros. unfold scan_layout_emit, finish.
  destruct (found_end_of_line s); [|discriminate].
  apply bind_ends; [|intros ? _]; split_ifs; discriminate.
Qed.

Lemma scan_front_ends :
  forall scanner lexer valid_symbols,
    scan_front scanner lexer valid_symbols <> Exhausted.
Proof.
  intros. unfold scan_front.
  apply bind_ends; [apply scan_escape_ends|intros ? _].
  apply bind_ends; [apply scan_content_ends|intros ? _].
  apply bind_ends; [apply scan_layout_ends|intros ? _].
  apply bind_ends; [apply scan_layout_emit_ends|intros ? _]. discriminate.
Qed.

Lemma scan_operators_ends :
  forall scanner lexer valid_symbols,
    scan_operators scanner lexer valid_symbols <> Exhausted.
Proof.
  intros. unfold scan_operators, scan_logical_operators, scan_keyword_operators,
    finish, no_token.
  apply bind_ends; [|intros ? _]; split_ifs; discriminate.
Qed.

Lemma scan_subprocess_ends :
  forall scanner lexer valid_symbols first_comment,
    scan_subprocess scanner lexer valid_symbols first_comment <> Exhausted.
Proof.
  intros. unfold scan_subprocess, finish.
  destruct (check_subprocess _ _ _); [|discriminate].
  destruct (detect_subprocess_line_returns lexer (Some new_delimiter)) as [d Hd].
  rewrite Hd. simpl.
  destruct (open_quotes _ _) as [string_delim lexer'].
  split_ifs; discriminate.
Qed.

Lemma scan_path_prefix_ends :
  forall scanner lexer valid_symbols first_comment,
    scan_path_prefix scanner lexer valid_symbols first_comment <> Exhausted.
Proof. intros. unfold scan_path_prefix, finish, no_token. split_ifs; discriminate. Qed.

Lemma scan_string_start_ends :
  forall scanner lexer valid_symbols first_comment,
    scan_string_start scanner lexer valid_symbols first_comment <> Exhausted.
Proof.
  intros. unfold scan_string_start, finish, no_token.
  destruct (_ && _); [|discriminate].
  destruct (string_prefix _ _ _ _) as [[delimiter has_flags] lexer'].
  destruct (_ =? BACKTICK); [discriminate|].
  destruct (open_quotes _ _) as [d lexer''].
  split_ifs; discriminate.
Qed.

Lemma scan_back_ends :
  forall scanner lexer valid_symbols first_comment,
    scan_back scanner lexer valid_symbols first_comment <> Exhausted.
Proof.
  intros. unfold scan_back.
  apply bind_ends; [apply scan_subprocess_ends|intros ? _].
  apply bind_ends; [apply scan_path_prefix_ends|intros ? _].
  apply bind_ends; [apply scan_string_start_ends|intros ? _]. discriminate.
Qed.

Lemma run_ends :
  forall {R : Type} (m : flow R R), m <> Exhausted -> exists r, run m = Some r.
Proof.
  intros R m H. destruct m as [|r|r]; [congruence| |]; exists r; reflexivity.
Qed.

(** Every scan call comes back: no loop bound of the model is too small. *)
Theorem scan_total :
  forall scanner lexer valid_symbols,
    exists r, scan scanner lexer valid_symbols = Some r.
Proof.
  intros. unfold scan, scan_with. apply run_ends.
  apply bind_ends; [apply scan_front_ends|intros s _].
  apply bind_ends; [apply scan_operators_ends|intros ? _].
  apply scan_back_ends.
Qed.

(** ** The decision of the subprocess detector *)

Lemma codes_eqb_eq : forall a b, codes_eqb a b = true <-> a = b.
Proof.
  induction a as [|x a IH]; destruct b as [|y b]; simpl; split;
    try discriminate; try reflexivity.
  - intros H. apply andb_prop in H as [Hx Hab].
    apply Z.eqb_eq in Hx. apply IH in Hab. congruence.
  - intros H. injection H as -> ->. rewrite Z.eqb_refl. simpl.
    apply IH. reflexivity.
Qed.

Lemma codes_length : forall w, List.length (codes w) = String.length w.
Proof. induction w as [|a w IH]; simpl; congruence. Qed.

Lemma word_matches_eq :
  forall ident w, word_matches ident w = true <-> ident = codes w.
Proof.
  intros ident w. unfold word_matches. split.
  - intros H. apply andb_prop in H as [Hlen Heq].
    apply Nat.eqb_eq in Hlen. apply codes_eqb_eq in Heq.
    rewrite firstn_all in Heq.
    rewrite <- codes_length in Hlen. rewrite <- Hlen, firstn_all in Heq.
    exact Heq.
  - intros ->. rewrite codes_length, Nat.eqb_refl. simpl.
    apply codes_eqb_eq. reflexivity.
Qed.

(** [is_shell_command] is membership in the allow-list. *)
Lemma is_shell_command_in :
  forall ident,
    is_shell_command ident = true <-> In ident (map codes shell_commands).
Proof.
  intros ident. unfold is_shell_command. rewrite existsb_exists, in_map_iff.
  split; intros (w & H1 & H2).
  - exists w. apply word_matches_eq in H2. subst. auto.
  - exists w. split; [exact H2|]. apply word_matches_eq. congruence.
Qed.

Lemma no_empty_shell_command : is_shell_command [] = false.
Proof. reflexivity. Qed.

(** C1: once the detector reaches its rest-of-line loop, the loop ends and
    the verdict follows from the signals it raised: NONE when any of the six
    Python signals is up; otherwise SUBPROCESS when any of the five shell
    signals is up; otherwise SUBPROCESS exactly when the first identifier is
    in the allow-list of shell commands, and NONE in the remaining cases. *)
Theorem detect_decision_follows_signals :
  forall lexer sd first_ident lexer' pos,
    detect_opening lexer sd = Fall (first_ident, lexer', pos) ->
    exists s d,
      line_scan first_ident lexer' = Fall s /\
      detect_subprocess_line lexer sd = Return d /\
      let python :=
        existsb (signals s)
          [has_assignment; has_comparison; has_call_parens; has_subscript;
           has_attribute; has_macro_call] in
      let shell :=
        existsb (signals s)
          [has_flag; has_pipe; has_redirect; has_env_arg; has_subprocess_macro] in
      (python = true -> verdict d = DETECT_NONE) /\
      (python = false -> shell = true -> verdict d = DETECT_SUBPROCESS) /\
      (python = false -> shell = false ->
       (verdict d = DETECT_SUBPROCESS <-> In first_ident (map codes shell_commands))
       /\ (~ In first_ident (map codes shell_commands) -> verdict d = DETECT_NONE)).
Proof.
  intros lexer sd first_ident lexer' pos Hopen.
  destruct (line_scan_falls first_ident lexer') as [s Hs].
  exists s. eexists. split; [exact Hs|]. split.
  { unfold detect_subprocess_line. rewrite Hopen. simpl. rewrite Hs. reflexivity. }
  cbn [verdict detected existsb]. rewrite !orb_false_r.
  unfold line_decision, python_signal, shell_signalled.
  rewrite <- !orb_assoc.
  set (python := signals s has_assignment || _).
  set (shell := signals s has_flag || _).
  split; [|split].
  - intros ->. reflexivity.
  - intros -> ->. reflexivity.
  - intros -> ->. rewrite <- is_shell_command_in.
    destruct first_ident as [|c rest].
    + rewrite no_empty_shell_command. simpl. split; [split|]; congruence.
    + cbn [List.length Nat.ltb Nat.leb andb].
      destruct (is_shell_command (c :: rest)); split; try split; congruence.
Qed.

(** The theorem at the line [ls -la]: the opening analysis hands the
    identifier [ls] to the loop, which raises [has_flag]. *)
Lemma detect_decision_follows_signals_witness :
  detect_opening sample_ls None
  = Fall (codes "ls", advance (advance (mark_end sample_ls)), 2%nat)
  /\ (exists s d,
        line_scan (codes "ls") (advance (advance (mark_end sample_ls))) = Fall s /\
        detect_subprocess_line sample_ls None = Return d /\
        verdict d = DETECT_SUBPROCESS).
Proof.
  split; [reflexivity|].
  destruct (detect_decision_follows_signals sample_ls None (codes "ls")
              (advance (advance (mark_end sample_ls))) 2%nat
              eq_refl) as (s & d & Hs & Hd & _ & Hshell & _).
  exists s, d. split; [exact Hs|]. split; [exact Hd|].
  vm_compute in Hs. injection Hs as <-.
  apply Hshell; reflexivity.
Defined.

(** ** What the detector leaves behind *)

(** C2, at the statement [return"x"] where a bare subprocess and a string
    start are both acceptable: the detector reads the identifier, answers
    NONE for the keyword and leaves the lexer behind it, at offset 6; the
    scan call then goes on to string-start recognition from there and
    reports STRING_START for the span from 0 to 7, which takes in the six
    letters that only the detector read. *)
Theorem detector_advance_is_committed :
  (exists d,
      detect_subprocess_line sample_return_string (Some new_delimiter) = Return d
      /\ verdict d = DETECT_NONE
      /\ position (after d) = 6%nat)
  /\ (exists r,
        scan create sample_return_string (only [SUBPROCESS_START; STRING_START])
        = Some r
        /\ emitted r = Some STRING_START
        /\ token_start (lexer_after r) = 0%nat
        /\ token_end (lexer_after r) = Some 7%nat).
Proof.
  split; eexists; (split; [vm_compute; reflexivity|]); repeat split.
Qed.

(** ** Brace escapes in format strings *)

Lemma nonempty_length :
  forall {A : Type} (l : list A), l <> [] -> Nat.ltb 0 (List.length l) = true.
Proof. intros A [|x l] H; [contradiction | reflexivity]. Qed.

Lemma advance_cons :
  forall lexer c rest, input lexer = c :: rest ->
    input (advance lexer) = rest /\ position (advance lexer) = S (position lexer)
    /\ token_start (advance lexer) = token_start lexer
    /\ token_end (advance lexer) = token_end lexer.
Proof.
  intros lexer c rest H. unfold advance, lexer_advance. rewrite H. simpl. auto.
Qed.

Lemma lookahead_cons :
  forall lexer c rest, input lexer = c :: rest -> lookahead lexer = c.
Proof. intros lexer c rest H. unfold lookahead. rewrite H. reflexivity. Qed.

(** C6, outside error-recovery mode: with ESCAPE_INTERPOLATION valid, a
    format string on top of the delimiter stack and a brace at the lookahead,
    a second, equal brace makes the call read both, mark the end after them
    and report ESCAPE_INTERPOLATION; any other next character makes it
    report no token.  The scanner state is the same afterwards. *)
Theorem escape_interpolation_outside_recovery :
  forall scanner lexer valid_symbols brace rest,
    valid_symbols ESCAPE_INTERPOLATION = true ->
    error_recovery_mode valid_symbols = false ->
    delimiters scanner <> [] ->
    is_format (array_back (delimiters scanner) new_delimiter) = true ->
    input lexer = brace :: rest ->
    is_brace brace = true ->
    (lookahead (advance lexer) = brace ->
     exists r,
       scan scanner lexer valid_symbols = Some r
       /\ emitted r = Some ESCAPE_INTERPOLATION
       /\ position (lexer_after r) = (position lexer + 2)%nat
       /\ token_end (lexer_after r) = Some (position lexer + 2)%nat
       /\ scanner_after r = scanner)
    /\ (lookahead (advance lexer) <> brace ->
        exists r,
          scan scanner lexer valid_symbols = Some r
          /\ emitted r = None
          /\ scanner_after r = scanner).
Proof.
  intros scanner [inp pos ts te rs] valid_symbols brace rest
    Hvalid Hmode Hne Hfmt Hin Hbrace.
  simpl in Hin. subst inp.
  set (lexer := mkLexer (brace :: rest) pos ts te rs).
  assert (Hesc : scan_escape scanner lexer valid_symbols
                 = if lookahead (advance lexer) =? brace
                   then finish true ESCAPE_INTERPOLATION
                          (mark_end (advance (advance (mark_end lexer)))) scanner
                   else no_token (advance (mark_end lexer)) scanner).
  { unfold scan_escape.
    rewrite Hvalid, (nonempty_length _ Hne), Hmode, Hfmt.
    change (lookahead lexer) with brace.
    change (lookahead (mark_end lexer)) with brace.
    change (lookahead (advance (mark_end lexer))) with (lookahead (advance lexer)).
    rewrite Hbrace. cbn [andb negb].
    unfold is_brace in Hbrace. apply orb_prop in Hbrace as [Hb|Hb];
      apply Z.eqb_eq in Hb; rewrite Hb.
    - rewrite Z.eqb_refl, andb_true_r, andb_false_r, orb_false_r. reflexivity.
    - replace (chr "}" =? chr "{") with false by reflexivity.
      rewrite andb_false_r, andb_true_r. reflexivity. }
  unfold scan, scan_with, scan_front. rewrite Hesc. split; intros Hnext.
  - rewrite Hnext, Z.eqb_refl. eexists. split; [reflexivity|].
    unfold lexer, lookahead in Hnext. simpl in Hnext.
    destruct rest as [|c rest']; simpl in *.
    + exfalso. subst brace. discriminate.
    + repeat split; f_equal; lia.
  - apply Z.eqb_neq in Hnext. rewrite Hnext. eexists.
    split; [reflexivity|]. split; reflexivity.
Qed.

(** The state [in_format_string] is the one after the opening quote of a
    string with the prefix [f]. *)
Lemma in_format_string_reached :
  option_map scanner_after
    (scan create (lexer_on (codes "f" ++ [DQUOTE])) (only [STRING_START]))
  = Some in_format_string.
Proof. vm_compute. reflexivity. Qed.

(** ** String content *)

(** C7, inside a bytes string at a backslash followed by [N] and the closing
    quote: one round of the content loop takes the lexer past three
    characters, the closing quote among them, and the call ends at the
    newline with no token; the state [in_bytes_string] is the one after the
    opening quote of a string with the prefix [b]. *)
Theorem bytes_escape_swallows_next_character :
  option_map scanner_after
    (scan create (lexer_on (codes "b" ++ [DQUOTE])) (only [STRING_START]))
  = Some in_bytes_string
  /\ (exists lexer',
        content_body in_bytes_string
          (array_back (delimiters in_bytes_string) new_delimiter) false
          (false, sample_bytes_escape) = Next (true, lexer')
        /\ position lexer' = (position sample_bytes_escape + 3)%nat
        /\ lookahead lexer' = NL)
  /\ (exists r,
        scan in_bytes_string sample_bytes_escape (only [STRING_CONTENT; STRING_END])
        = Some r
        /\ emitted r = None).
Proof.
  split; [vm_compute; reflexivity|]. split.
  - eexists. split; [vm_compute; reflexivity|]. split; reflexivity.
  - eexists. split; [vm_compute; reflexivity|]. reflexivity.
Qed.



(** ** What a scan call can report, and what it does to the state *)

Lemma flow_all_bind :
  forall {R A B : Type} (PR : R -> Prop) (PA : A -> Prop) (PB : B -> Prop)
         (m : flow R A) (k : A -> flow R B),
    flow_all PR PA m ->
    (forall a, m = Fall a -> PA a -> flow_all PR PB (k a)) ->
    flow_all PR PB (bind m k).
Proof.
  intros R A B PR PA PB m k Hm Hk. destruct m as [|r|a]; simpl in *; auto.
Qed.

Lemma scan_front_measured :
  forall scanner lexer valid_symbols,
    scan_front scanner lexer valid_symbols
    = (s <- measured_layout scanner lexer valid_symbols ;;
       _ <- scan_layout_emit scanner valid_symbols s ;;
       Fall s).
Proof.
  intros. unfold scan_front, measured_layout.
  destruct (scan_escape _ _ _) as [|r|a]; try reflexivity. simpl.
  destruct (scan_content _ _ _ _) as [|r|lx]; reflexivity.
Qed.

Ltac break_bools :=
  repeat match goal with
    | H : _ && _ = true |- _ => apply andb_prop in H as [? ?]
    | H : negb _ = true |- _ => apply negb_true_iff in H
    | H : negb _ = false |- _ => apply negb_false_iff in H
    end.

Lemma ltb_length_nonempty :
  forall {A : Type} (l : list A), Nat.ltb 0 (List.length l) = true -> l <> [].
Proof. intros A [|x l] H; [discriminate | discriminate]. Qed.

(** *** Delimiter flags stay within the seven bits of [enum Flags] *)

Lemma lor_fits :
  forall a b, 0 <= a < 128 -> 0 <= b < 128 -> 0 <= Z.lor a b < 128.
Proof.
  intros a b Ha Hb. split; [apply Z.lor_nonneg; lia|].
  destruct (Z.eq_dec a 0) as [->|Hna]; [rewrite Z.lor_0_l; lia|].
  destruct (Z.eq_dec b 0) as [->|Hnb]; [rewrite Z.lor_0_r; lia|].
  assert (Hl : 0 < Z.lor a b).
  { destruct (Z.eq_dec (Z.lor a b) 0) as [E|E].
    - apply Z.lor_eq_0_iff in E. lia.
    - pose proof (proj2 (Z.lor_nonneg a b) ltac:(lia)). lia. }
  apply (Z.log2_lt_pow2 _ 7 Hl). rewrite Z.log2_lor by lia.
  apply Z.max_lub_lt; apply Z.log2_lt_pow2; lia.
Qed.

Lemma set_bit_fits :
  forall d bit, flags_fit d -> 0 <= bit < 128 -> flags_fit (set_bit d bit).
Proof. intros d bit Hd Hb. unfold flags_fit, set_bit. simpl. apply lor_fits; assumption. Qed.

Lemma new_delimiter_fits : flags_fit new_delimiter.
Proof. unfold flags_fit. simpl. lia. Qed.

Lemma set_end_character_fits :
  forall d c, flags_fit d -> flags_fit (set_end_character d c).
Proof.
  intros d c Hd. unfold set_end_character.
  split_ifs; [apply set_bit_fits; [assumption|vm_compute; split; congruence]..|assumption].
Qed.

Lemma set_triple_fits : forall d, flags_fit d -> flags_fit (set_triple d).
Proof. intros d Hd. apply set_bit_fits; [assumption|vm_compute; split; congruence]. Qed.

Lemma prefix_flag_fits : forall d c, flags_fit d -> flags_fit (prefix_flag d c).
Proof.
  intros d c Hd. unfold prefix_flag, set_format, set_raw, set_bytes.
  split_ifs; [apply set_bit_fits; [assumption|vm_compute; split; congruence]..|assumption].
Qed.

Lemma fold_prefix_flag_fits :
  forall ident d, flags_fit d -> flags_fit (fold_left prefix_flag ident d).
Proof.
  induction ident as [|c ident IH]; intros d Hd; simpl; [assumption|].
  apply IH. apply prefix_flag_fits. assumption.
Qed.

Lemma open_quote_fits :
  forall q d lexer, flags_fit d -> flags_fit (fst (open_quote q d lexer)).
Proof.
  intros q d lexer Hd. unfold open_quote. split_ifs; simpl;
    [apply set_triple_fits|..]; apply set_end_character_fits; assumption.
Qed.

Lemma open_quotes_fits :
  forall d lexer, flags_fit d -> flags_fit (fst (open_quotes d lexer)).
Proof.
  intros d lexer Hd. unfold open_quotes.
  split_ifs; [apply open_quote_fits; assumption..|assumption].
Qed.

Lemma string_prefix_fits :
  forall n d has_flags lexer,
    flags_fit d -> flags_fit (fst (fst (string_prefix n d has_flags lexer))).
Proof.
  induction n as [|n IH]; intros d has_flags lexer Hd; simpl; [assumption|].
  split_ifs; try assumption; apply IH; try assumption;
    apply set_bit_fits; try assumption; vm_compute; split; congruence.
Qed.

Lemma detected_fits :
  forall r lexer, delimiter_fits (detected r lexer (Some new_delimiter)).
Proof.
  intros r lexer sd H. simpl in H. injection H as <-. apply new_delimiter_fits.
Qed.

Lemma probe_fits :
  forall first next hit st,
    flow_all delimiter_fits any (probe first next hit (Some new_delimiter) st).
Proof.
  intros first next hit [lexer pos]. unfold probe.
  split_ifs; simpl; try exact I. apply detected_fits.
Qed.

Lemma probe_at_sign_fits :
  forall lexer, delimiter_fits (probe_at_sign lexer (Some new_delimiter)).
Proof.
  intros lexer. unfold probe_at_sign.
  destruct (is_identifier_start _); [|apply detected_fits].
  destruct (_ || _); [apply detected_fits|].
  destruct (is_whitespace _); [|apply detected_fits].
  destruct (_ || _); [apply detected_fits|].
  destruct (is_identifier_start _); [|apply detected_fits].
  destruct (read_identifier _ _ _) as [cmd lexer'].
  destruct (is_shell_command cmd); apply detected_fits.
Qed.

Lemma first_identifier_fits :
  forall lexer pos,
    flow_all delimiter_fits any (first_identifier lexer pos (Some new_delimiter)).
Proof.
  intros lexer pos. unfold first_identifier.
  destruct (is_identifier_start (lookahead lexer)); [|exact I].
  destruct (read_identifier 63 lexer []) as [first_ident lexer'].
  repeat (eapply (flow_all_bind _ any); [|intros ? _ _; cbn beta iota]).
  - destruct (_ && _); [|exact I].
    destruct (forallb is_prefix_letter first_ident).
    + simpl. intros sd H. simpl in H. injection H as <-.
      apply fold_prefix_flag_fits, new_delimiter_fits.
    + destruct (is_path_prefix first_ident); simpl; [apply detected_fits|exact I].
  - split_ifs; simpl; try exact I; apply detected_fits.
  - split_ifs; simpl; try exact I; apply detected_fits.
  - split_ifs; simpl; try exact I; try apply detected_fits.
    intros sd H. simpl in H. injection H as <-. apply new_delimiter_fits.
Qed.

Lemma detect_opening_fits :
  forall lexer,
    flow_all delimiter_fits any (detect_opening lexer (Some new_delimiter)).
Proof.
  intros lexer. unfold detect_opening.
  destruct (_ =? chr "/"); [apply detected_fits|].
  repeat (eapply (flow_all_bind _ any); [apply probe_fits|intros [? ?] _ _; cbn beta iota]).
  destruct (_ =? chr "["); [apply detected_fits|].
  destruct (_ =? chr "@"); [apply probe_at_sign_fits|].
  destruct (if _ =? chr "$" then _ else _) as [lexer'' pos'].
  eapply (flow_all_bind _ any);
    [apply first_identifier_fits|intros [[first_ident lx] p] _ _; cbn beta iota].
  eapply (flow_all_bind _ any); [|intros ? _ _; exact I].
  split_ifs; simpl; try exact I; apply detected_fits.
Qed.

Lemma detect_subprocess_line_fits :
  forall lexer d,
    detect_subprocess_line lexer (Some new_delimiter) = Return d ->
    delimiter_fits d.
Proof.
  intros lexer d H. unfold detect_subprocess_line in H.
  pose proof (detect_opening_fits lexer) as Hopen.
  destruct (detect_opening lexer (Some new_delimiter))
    as [|d'|[[first_ident lexer'] pos]]; simpl in *; try discriminate.
  - injection H as <-. exact Hopen.
  - destruct (line_scan_falls first_ident lexer') as [s Hs].
    rewrite Hs in H. simpl in H. injection H as <-. apply detected_fits.
Qed.

(** *** The stages, one by one *)

Ltac outer_if H :=
  lazymatch goal with
  | |- flow_all _ _ (if ?b then _ else _) => destruct b eqn:H
  end.

Section Outcome.
Variable scanner : Scanner.
Variable lexer0 : TSLexer.
Variable valid_symbols : ValidSymbols.

Let ok : ScanResult -> Prop := scan_outcome scanner lexer0 valid_symbols.

Lemma no_token_outcome :
  forall lexer, ok {| token_found := false; lexer_after := lexer;
                      scanner_after := scanner |}.
Proof. intros lexer. reflexivity. Qed.

Lemma scan_escape_outcome :
  forall lexer, flow_all ok any (scan_escape scanner lexer valid_symbols).
Proof.
  intros lexer. unfold scan_escape, finish, no_token.
  split_ifs; simpl; try exact I; try apply no_token_outcome.
  break_bools. unfold ok, scan_outcome. simpl. auto.
Qed.

Lemma content_body_outcome :
  forall delimiter advanced_once st r,
    valid_symbols STRING_CONTENT = true ->
    error_recovery_mode valid_symbols = false ->
    delimiters scanner <> [] ->
    content_body scanner delimiter advanced_once st = Ret r -> ok r.
Proof.
  intros delimiter advanced_once [has_content lexer] r Hv Hm Hne.
  unfold content_body.
  destruct has_content;
    split_ifs; intros H; try discriminate; injection H as <-;
    unfold ok, scan_outcome, emitted; simpl; auto.
Qed.

Lemma scan_content_outcome :
  forall lexer advanced_once,
    flow_all ok any (scan_content scanner lexer valid_symbols advanced_once).
Proof.
  intros lexer advanced_once. unfold scan_content.
  destruct (_ && _) eqn:G; [|exact I]. break_bools.
  apply (loop_invariant _ (fun _ => True) ok any); try exact I.
  - intros; exact I.
  - intros st r _ E. eapply content_body_outcome; eauto.
    apply ltb_length_nonempty. assumption.
  - intros; exact I.
Qed.

Lemma to_uint32_range : forall z, 0 <= to_uint32 z < 4294967296.
Proof. intros z. unfold to_uint32. apply Z.mod_pos_bound. lia. Qed.

Lemma layout_body_keeps_range :
  forall s s', width_in_range s ->
    layout_body scanner valid_symbols s = Next s' -> width_in_range s'.
Proof.
  intros s s' Hs. unfold layout_body.
  pose proof (to_uint32_range (indent_length s + 1)) as Hone.
  pose proof (to_uint32_range (indent_length s + 8)) as Htab.
  split_ifs; intros E; try discriminate; injection E as <-;
    unfold width_in_range in *; simpl; lia.
Qed.

Lemma layout_body_outcome :
  forall s r, layout_body scanner valid_symbols s = Ret r -> ok r.
Proof.
  intros s r. unfold layout_body.
  split_ifs; intros H; try discriminate; injection H as <-;
    apply no_token_outcome.
Qed.

Lemma layout_body_break_range :
  forall s b, width_in_range s ->
    layout_body scanner valid_symbols s = Break b -> width_in_range b.
Proof.
  intros s b Hs. unfold layout_body.
  split_ifs; intros H; try discriminate; injection H as <-;
    unfold width_in_range in *; simpl; lia.
Qed.

Lemma scan_layout_outcome :
  forall lexer,
    flow_all ok width_in_range (scan_layout scanner lexer valid_symbols).
Proof.
  intros lexer. unfold scan_layout.
  apply (loop_invariant _ width_in_range ok width_in_range).
  - apply layout_body_keeps_range.
  - intros s r _. apply layout_body_outcome.
  - apply layout_body_break_range.
  - unfold width_in_range. simpl. lia.
Qed.

Lemma measured_layout_outcome :
  flow_all ok width_in_range (measured_layout scanner lexer0 valid_symbols).
Proof.
  unfold measured_layout.
  eapply (flow_all_bind _ any); [apply scan_escape_outcome|intros ? _ _].
  eapply (flow_all_bind _ any); [apply scan_content_outcome|intros ? _ _].
  apply scan_layout_outcome.
Qed.

Lemma scan_layout_emit_outcome :
  forall s,
    measured_layout scanner lexer0 valid_symbols = Fall s ->
    width_in_range s ->
    flow_all ok any (scan_layout_emit scanner valid_symbols s).
Proof.
  intros s Hs Hrange. unfold scan_layout_emit, finish.
  assert (Hw : measured_width scanner lexer0 valid_symbols = Some (indent_length s))
    by (unfold measured_width; rewrite Hs; reflexivity).
  destruct (found_end_of_line s); [|exact I].
  eapply (flow_all_bind _ any); [|intros ? _ _].
  - outer_if Hne; [|exact I].
    apply ltb_length_nonempty in Hne.
    outer_if Hin.
    + break_bools. unfold ok, scan_outcome. simpl. split; [assumption|].
      exists (indent_length s). repeat split; try assumption;
        try apply Hrange. apply Z.ltb_lt. assumption.
    + outer_if Hde; [|exact I].
      break_bools. unfold ok, scan_outcome. simpl. split; [assumption|].
      exists (indent_length s). repeat split; try assumption;
        try apply Hrange.
      match goal with H : (indent_length s <? _) = true |- _ =>
        apply Z.ltb_lt in H; exact H end.
  - outer_if Hnl; [|exact I].
    break_bools. unfold ok, scan_outcome. simpl. auto.
Qed.

Lemma scan_front_outcome :
  flow_all ok any (scan_front scanner lexer0 valid_symbols).
Proof.
  rewrite scan_front_measured.
  pose proof measured_layout_outcome as Hm.
  destruct (measured_layout scanner lexer0 valid_symbols) as [|r|s] eqn:E;
    simpl in *; try assumption.
  eapply (flow_all_bind _ any);
    [apply scan_layout_emit_outcome; assumption|intros ? _ _; exact I].
Qed.

Lemma scan_operators_outcome :
  forall lexer, flow_all ok any (scan_operators scanner lexer valid_symbols).
Proof.
  intros lexer.
  unfold scan_operators, scan_logical_operators, scan_keyword_operators,
    finish, no_token.
  eapply (flow_all_bind _ any); [|intros ? _ _];
    split_ifs; simpl; try exact I; try apply no_token_outcome;
    break_bools; unfold ok, scan_outcome; simpl; auto.
Qed.

Lemma scan_subprocess_outcome :
  forall lexer first_comment,
    flow_all ok any (scan_subprocess scanner lexer valid_symbols first_comment).
Proof.
  intros lexer first_comment. unfold scan_subprocess, finish.
  destruct (check_subprocess _ _ _); [|exact I].
  destruct (detect_subprocess_line_returns lexer (Some new_delimiter)) as [d Hd].
  rewrite Hd. simpl.
  pose proof (detect_subprocess_line_fits lexer d Hd) as Hfit.
  set (sd0 := match string_delimiter d with
              | Some sd => sd
              | None => new_delimiter
              end).
  assert (Hsd0 : flags_fit sd0).
  { unfold sd0. destruct (string_delimiter d) as [sd|] eqn:E;
      [apply Hfit; exact E|apply new_delimiter_fits]. }
  pose proof (open_quotes_fits sd0 (after d) Hsd0) as Hq.
  clearbody sd0.
  destruct (open_quotes _ _) as [string_delim lexer'].
  split_ifs; simpl; try exact I; break_bools;
    unfold ok, scan_outcome; simpl; auto.
  split; [assumption|]. exists string_delim. repeat split; try apply Hq.
  apply Z.eqb_neq. assumption.
Qed.

Lemma scan_path_prefix_outcome :
  forall lexer first_comment,
    flow_all ok any (scan_path_prefix scanner lexer valid_symbols first_comment).
Proof.
  intros lexer first_comment. unfold scan_path_prefix, finish, no_token.
  split_ifs; simpl; try exact I; try apply no_token_outcome;
    break_bools; unfold ok, scan_outcome; simpl; auto.
Qed.

Lemma scan_string_start_outcome :
  forall lexer first_comment,
    flow_all ok any (scan_string_start scanner lexer valid_symbols first_comment).
Proof.
  intros lexer first_comment. unfold scan_string_start, finish, no_token.
  destruct (_ && _) eqn:G; [|exact I]. break_bools.
  pose proof (string_prefix_fits (List.length (input lexer)) new_delimiter
                false lexer new_delimiter_fits) as Hp.
  destruct (string_prefix _ _ _ _) as [[delimiter has_flags] lexer'].
  simpl in Hp.
  destruct (_ =? BACKTICK); [apply no_token_outcome|].
  pose proof (open_quotes_fits delimiter lexer' Hp) as Hq.
  destruct (open_quotes _ _) as [d lexer''].
  split_ifs; simpl; try exact I; try apply no_token_outcome.
  break_bools. unfold ok, scan_outcome. simpl. split; [assumption|].
  exists d. repeat split; try apply Hq. apply Z.eqb_neq. assumption.
Qed.

Lemma scan_back_outcome :
  forall lexer first_comment,
    flow_all ok (fun _ => False)
      (scan_back scanner lexer valid_symbols first_comment).
Proof.
  intros lexer first_comment. unfold scan_back.
  eapply (flow_all_bind _ any); [apply scan_subprocess_outcome|intros ? _ _].
  eapply (flow_all_bind _ any); [apply scan_path_prefix_outcome|intros ? _ _].
  eapply (flow_all_bind _ any); [apply scan_string_start_outcome|intros ? _ _].
  apply no_token_outcome.
Qed.

(** Whatever a scan call reports, it did what [scan_outcome] says. *)
Lemma scan_outcome_holds :
  forall r, scan scanner lexer0 valid_symbols = Some r -> ok r.
Proof.
  intros r. unfold scan, scan_with.
  pose proof scan_front_outcome as Hf.
  destruct (scan_front scanner lexer0 valid_symbols) as [|r'|s]; simpl in *;
    try discriminate.
  { intros H. injection H as <-. exact Hf. }
  pose proof (scan_operators_outcome (here s)) as Ho.
  destruct (scan_operators scanner (here s) valid_symbols) as [|r'|lexer];
    simpl in *; try discriminate.
  { intros H. injection H as <-. exact Ho. }
  pose proof (scan_back_outcome lexer (first_comment_indent_length s)) as Hb.
  destruct (scan_back _ _ _ _) as [|r'|r']; simpl in *; try discriminate.
  - intros H. injection H as <-. exact Hb.
  - contradiction.
Qed.
End Outcome.

(** ** Error-recovery mode *)

Lemma error_recovery_mode_iff :
  forall valid_symbols,
    error_recovery_mode valid_symbols = true
    <-> valid_symbols STRING_CONTENT = true /\ valid_symbols INDENT = true.
Proof. intros v. unfold error_recovery_mode. apply andb_true_iff. Qed.

(** C5, as far as it holds: when STRING_CONTENT and INDENT are both valid,
    which is what the scanner takes for error-recovery mode, a scan call
    reports neither NEWLINE nor ESCAPE_INTERPOLATION. *)
Theorem error_recovery_suppresses_newline_and_escape :
  forall scanner lexer valid_symbols,
    valid_symbols STRING_CONTENT = true ->
    valid_symbols INDENT = true ->
    error_recovery_mode valid_symbols = true
    /\ (exists r,
          scan scanner lexer valid_symbols = Some r
          /\ emitted r <> Some NEWLINE
          /\ emitted r <> Some ESCAPE_INTERPOLATION).
Proof.
  intros scanner lexer valid_symbols Hcontent Hindent.
  assert (Hmode : error_recovery_mode valid_symbols = true)
    by (apply error_recovery_mode_iff; split; assumption).
  split; [exact Hmode|].
  destruct (scan_total scanner lexer valid_symbols) as [r Hr].
  exists r. split; [exact Hr|].
  pose proof (scan_outcome_holds scanner lexer valid_symbols r Hr) as Hout.
  unfold scan_outcome in Hout.
  split; intros E; rewrite E in Hout; destruct Hout as (_ & Hoff & _); congruence.
Qed.

(** ** The indent stack *)

Lemma increasing_push :
  forall l w, increasing l -> l <> [] -> last l 0 < w -> increasing (l ++ [w]).
Proof.
  induction l as [|x l IH]; intros w Hinc Hne Hlast; [contradiction|].
  destruct l as [|y l'].
  - simpl in *. lia.
  - change ((x :: y :: l') ++ [w]) with (x :: (y :: l') ++ [w]).
    change (increasing (x :: (y :: l') ++ [w]))
      with (x < y /\ increasing ((y :: l') ++ [w])).
    destruct Hinc as [Hxy Hrest]. split; [exact Hxy|].
    apply IH; [exact Hrest|discriminate|exact Hlast].
Qed.

Lemma increasing_pop :
  forall l, increasing l -> increasing (removelast l).
Proof.
  induction l as [|x l IH]; intros Hinc; [exact I|].
  destruct l as [|y l']; [exact I|].
  destruct Hinc as [Hxy Hrest].
  change (removelast (x :: y :: l')) with (x :: removelast (y :: l')).
  specialize (IH Hrest).
  destruct l' as [|z l'']; [exact I|].
  change (removelast (y :: z :: l'')) with (y :: removelast (z :: l'')) in *.
  split; assumption.
Qed.

Lemma rooted_pop :
  forall rest w, 0 <= w < last (0 :: rest) 0 ->
    exists rest', removelast (0 :: rest) = 0 :: rest'.
Proof.
  intros [|y rest] w H; [simpl in H; lia|].
  exists (removelast (y :: rest)). reflexivity.
Qed.

Lemma to_uint16_small : forall w, 0 <= w < 65536 -> to_uint16 w = w.
Proof. intros w H. unfold to_uint16. apply Z.mod_small. exact H. Qed.

Ltac open_outcome :=
  repeat match goal with
    | H : _ /\ _ |- _ => destruct H
    | H : exists _, _ |- _ => destruct H
    end.

(** Only INDENT and DEDENT touch the indent stack. *)
Lemma other_tokens_keep_indents :
  forall scanner lexer valid_symbols r,
    scan_outcome scanner lexer valid_symbols r ->
    emitted r <> Some INDENT -> emitted r <> Some DEDENT ->
    indents (scanner_after r) = indents scanner.
Proof.
  intros scanner lexer valid_symbols r Hout Hni Hnd. unfold scan_outcome in Hout.
  destruct (emitted r) as [[]|]; try congruence; open_outcome;
    match goal with H : scanner_after r = _ |- _ => rewrite H end; reflexivity.
Qed.

(** C4, for widths that fit a stack entry: on a state whose indent stack is
    non-empty, has 0 at the bottom and increases strictly, a scan call that
    measures an indentation below 65536 leaves a stack with the same three
    properties; INDENT pushes a width above the old top, DEDENT pops one
    entry, and every other outcome leaves the stack as it was. *)
Theorem indent_stack_invariant :
  forall scanner lexer valid_symbols,
    indent_stack_ok scanner ->
    (forall w, measured_width scanner lexer valid_symbols = Some w -> w < 65536) ->
    exists r,
      scan scanner lexer valid_symbols = Some r
      /\ indent_stack_ok (scanner_after r)
      /\ (emitted r = Some INDENT ->
          exists w, array_back (indents scanner) 0 < w
                    /\ indents (scanner_after r) = indents scanner ++ [w])
      /\ (emitted r = Some DEDENT ->
          indents (scanner_after r) = removelast (indents scanner))
      /\ (emitted r <> Some INDENT -> emitted r <> Some DEDENT ->
          indents (scanner_after r) = indents scanner).
Proof.
  intros scanner lexer valid_symbols [[rest Hroot] Hinc] Hfits.
  destruct (scan_total scanner lexer valid_symbols) as [r Hr].
  exists r. split; [exact Hr|].
  pose proof (scan_outcome_holds scanner lexer valid_symbols r Hr) as Hout.
  pose proof (other_tokens_keep_indents _ _ _ _ Hout) as Hkeep.
  unfold scan_outcome in Hout.
  destruct (emitted r) as [t|] eqn:Et.
  2:{ unfold indent_stack_ok. rewrite Hkeep by discriminate.
      repeat split; try discriminate; eauto. }
  destruct t.
  all: try (unfold indent_stack_ok; rewrite Hkeep by discriminate;
            repeat split; try discriminate; eauto; fail).
  - (* INDENT *)
    destruct Hout as (_ & w & Hw & Hrange & Hne & Htop & Hafter).
    specialize (Hfits w Hw).
    assert (Hsame : to_uint16 w = w) by (apply to_uint16_small; lia).
    assert (Hpushed : indents (scanner_after r) = indents scanner ++ [w])
      by (rewrite Hafter; unfold push_indent, array_push; simpl; congruence).
    unfold indent_stack_ok. rewrite Hpushed.
    repeat split; try congruence.
    + exists (rest ++ [w]). rewrite Hroot. reflexivity.
    + apply increasing_push; assumption.
    + intros _. exists w. split; [assumption|reflexivity].
  - (* DEDENT *)
    destruct Hout as (_ & w & Hw & Hrange & Hne & Hafter).
    assert (Hpopped : indents (scanner_after r) = removelast (indents scanner))
      by (rewrite Hafter; reflexivity).
    unfold indent_stack_ok. rewrite Hpopped.
    repeat split; try congruence.
    + unfold array_back in Hrange. rewrite Hroot in *.
      apply (rooted_pop rest w). exact Hrange.
    + apply increasing_pop. assumption.
Qed.

Lemma create_indent_stack_ok : indent_stack_ok create.
Proof. split; [exists []; reflexivity|exact I]. Qed.

(** ** Serialization *)

Lemma serialize_indents_spec :
  forall rest buffer,
    serialize_indents rest buffer
    = buffer ++ firstn (TREE_SITTER_SERIALIZATION_BUFFER_SIZE - List.length buffer)
                  (map to_uint8 rest).
Proof.
  assert (Hgen : forall limit rest buffer,
             (fix go (rest : list Z) (buffer : list Z) : list Z :=
                match rest with
                | [] => buffer
                | width :: rest' =>
                    if Nat.ltb (List.length buffer) limit
                    then go rest' (buffer ++ [to_uint8 width])
                    else buffer
                end) rest buffer
             = buffer ++ firstn (limit - List.length buffer) (map to_uint8 rest)).
  { intros limit. induction rest as [|w rest IH]; intros buffer.
    - cbn [map]. rewrite firstn_nil, app_nil_r. reflexivity.
    - destruct (Nat.ltb (List.length buffer) limit) eqn:E.
      + apply Nat.ltb_lt in E. rewrite IH, length_app. cbn [List.length map].
        replace (limit - List.length buffer)%nat
          with (S (limit - (List.length buffer + 1))) by lia.
        cbn [firstn]. rewrite <- app_assoc. reflexivity.
      + apply Nat.ltb_ge in E.
        replace (limit - List.length buffer)%nat with O by lia.
        cbn [firstn]. rewrite app_nil_r. reflexivity. }
  intros rest buffer. exact (Hgen TREE_SITTER_SERIALIZATION_BUFFER_SIZE rest buffer).
Qed.

Lemma clamped_count :
  forall n : nat,
    (if Nat.ltb UINT8_MAX n then UINT8_MAX else n) = Nat.min UINT8_MAX n.
Proof.
  intros n. destruct (Nat.ltb UINT8_MAX n) eqn:E.
  - apply Nat.ltb_lt in E. lia.
  - apply Nat.ltb_ge in E. lia.
Qed.

(** The bytes that [serialize] writes. *)
Lemma serialize_spec :
  forall scanner,
    serialize scanner
    = [Z.b2z (inside_f_string scanner); Z.of_nat (written_delimiters scanner)]
      ++ map (fun d => to_uint8 (flags d))
           (firstn (written_delimiters scanner) (delimiters scanner))
      ++ firstn (indent_room scanner) (map to_uint8 (skipn 1 (indents scanner))).
Proof.
  intros scanner. unfold serialize. rewrite clamped_count.
  fold (written_delimiters scanner). rewrite serialize_indents_spec.
  set (n := written_delimiters scanner).
  set (ds := map (fun d => to_uint8 (flags d)) (firstn n (delimiters scanner))).
  assert (Hn : List.length ds = n).
  { unfold ds, n, written_delimiters. rewrite length_map, length_firstn. lia. }
  assert (Hlen : List.length (([Z.b2z (inside_f_string scanner)] ++ [Z.of_nat n]) ++ ds)
                 = (2 + n)%nat)
    by (rewrite !length_app, Hn; reflexivity).
  rewrite Hlen. unfold indent_room. fold n.
  rewrite <- !app_assoc. reflexivity.
Qed.

Lemma deserialize_indents_spec :
  forall n buffer size acc,
    (size + n <= List.length buffer)%nat ->
    deserialize_indents n buffer size acc
    = acc ++ map to_uint8 (firstn n (skipn size buffer)).
Proof.
  induction n as [|n IH]; intros buffer size acc Hlen; simpl.
  - rewrite app_nil_r. reflexivity.
  - rewrite IH by lia. unfold array_push. rewrite <- app_assoc. f_equal.
    assert (Hsplit : skipn size buffer
                     = nth size buffer 0 :: skipn (S size) buffer).
    { clear IH. revert size Hlen.
      induction buffer as [|b buffer IHb]; intros size Hlen; simpl in Hlen; [lia|].
      destruct size as [|size]; [reflexivity|].
      simpl. apply IHb. lia. }
    rewrite Hsplit. reflexivity.
Qed.

Lemma read_delimiters :
  forall (ds : list Z) (before after : list Z),
    map (fun i => mkDelimiter (nth (List.length before + i) (before ++ ds ++ after) 0))
      (seq 0 (List.length ds))
    = map mkDelimiter ds.
Proof.
  induction ds as [|d ds IH]; intros before after; [reflexivity|].
  simpl. f_equal.
  - rewrite Nat.add_0_r, app_nth2, Nat.sub_diag by lia. reflexivity.
  - rewrite <- seq_shift, map_map.
    specialize (IH (before ++ [d]) after).
    rewrite <- app_assoc in IH. simpl in IH. rewrite <- IH.
    apply map_ext. intros i. rewrite length_app. simpl.
    do 2 f_equal. lia.
Qed.

Lemma to_uint8_idem : forall z, to_uint8 (to_uint8 z) = to_uint8 z.
Proof. intros z. unfold to_uint8. apply Z.mod_mod. lia. Qed.

Lemma written_delimiters_le :
  forall scanner, (written_delimiters scanner <= 255)%nat.
Proof. intros scanner. unfold written_delimiters, UINT8_MAX. lia. Qed.

(** What comes back when the state is saved and restored. *)
Lemma roundtrip_spec :
  forall scanner,
    roundtrip scanner
    = {| indents :=
           0 :: firstn (indent_room scanner)
                  (map to_uint8 (skipn 1 (indents scanner)));
         delimiters :=
           map (fun d => mkDelimiter (to_uint8 (flags d)))
             (firstn (written_delimiters scanner) (delimiters scanner));
         inside_f_string := inside_f_string scanner |}.
Proof.
  intros scanner. unfold roundtrip. rewrite serialize_spec.
  set (n := written_delimiters scanner).
  set (ds := map (fun d => to_uint8 (flags d)) (firstn n (delimiters scanner))).
  set (ws := firstn (indent_room scanner) (map to_uint8 (skipn 1 (indents scanner)))).
  assert (Hn : List.length ds = n).
  { unfold ds, n, written_delimiters. rewrite length_map, length_firstn. lia. }
  pose proof (written_delimiters_le scanner) as Hle. fold n in Hle.
  unfold deserialize.
  replace (Nat.ltb 0 (List.length ([Z.b2z (inside_f_string scanner); Z.of_nat n] ++ ds ++ ws)))
    with true by reflexivity.
  cbn [nth app].
  assert (Hcount : Z.to_nat (to_uint8 (Z.of_nat n)) = n).
  { unfold to_uint8. rewrite Z.mod_small by lia. apply Nat2Z.id. }
  rewrite Hcount. f_equal.
  - cbn [List.length]. rewrite length_app, Hn.
    replace (S (S (n + List.length ws)) - (2 + n))%nat with (List.length ws) by lia.
    rewrite deserialize_indents_spec by (cbn [List.length]; rewrite length_app; lia).
    unfold array_push. cbn [app]. f_equal.
    change (Z.b2z (inside_f_string scanner) :: Z.of_nat n :: ds ++ ws)
      with ([Z.b2z (inside_f_string scanner); Z.of_nat n] ++ ds ++ ws).
    rewrite app_assoc.
    rewrite skipn_app.
    replace (2 + n - List.length ([Z.b2z (inside_f_string scanner); Z.of_nat n] ++ ds))%nat
      with O by (rewrite length_app; simpl; lia).
    rewrite skipn_all2 by (rewrite length_app; simpl; lia).
    cbn [app skipn]. rewrite firstn_all.
    unfold ws. rewrite <- firstn_map, map_map.
    f_equal. apply map_ext. intros w. apply to_uint8_idem.
  - replace (seq 0 n) with (seq 0 (List.length ds)) by (rewrite Hn; reflexivity).
    pose proof (read_delimiters ds [] ws) as Hread.
    cbn [List.length app Nat.add] in Hread. cbn [Nat.add].
    rewrite Hread. unfold ds. rewrite map_map. reflexivity.
  - destruct (inside_f_string scanner); reflexivity.
Qed.



(** ** Saving and restoring reachable states *)

Lemma reachable_after :
  forall scanner lexer valid_symbols scanner',
    reachable scanner ->
    option_map scanner_after (scan scanner lexer valid_symbols) = Some scanner' ->
    reachable scanner'.
Proof.
  intros scanner lexer valid_symbols scanner' Hreach Hscan.
  destruct (scan scanner lexer valid_symbols) as [r|] eqn:E; [|discriminate].
  simpl in Hscan. injection Hscan as <-. eapply reachable_scan; eassumption.
Qed.

Lemma Forall_removelast :
  forall {A : Type} (P : A -> Prop) (l : list A),
    Forall P l -> Forall P (removelast l).
Proof.
  intros A P l H. induction H as [|x l Hx Hl IH]; [constructor|].
  destruct l as [|y l']; [constructor|].
  change (removelast (x :: y :: l')) with (x :: removelast (y :: l')).
  constructor; assumption.
Qed.

Lemma Forall_firstn_keeps :
  forall {A : Type} (P : A -> Prop) (n : nat) (l : list A),
    Forall P l -> Forall P (firstn n l).
Proof.
  intros A P n l H. revert n.
  induction H as [|x l Hx Hl IH]; intros [|n]; simpl; constructor; auto.
Qed.

Lemma to_uint8_range : forall z, 0 <= to_uint8 z < 256.
Proof. intros z. unfold to_uint8. apply Z.mod_pos_bound. lia. Qed.

Lemma to_uint16_range : forall z, 0 <= to_uint16 z < 65536.
Proof. intros z. unfold to_uint16. apply Z.mod_pos_bound. lia. Qed.

Lemma scan_keeps_well_formed :
  forall scanner lexer valid_symbols r,
    well_formed scanner ->
    scan scanner lexer valid_symbols = Some r ->
    well_formed (scanner_after r).
Proof.
  intros scanner lexer valid_symbols r ([rest Hroot] & Hw & Hd) Hr.
  pose proof (scan_outcome_holds scanner lexer valid_symbols r Hr) as Hout.
  assert (Hsame : scanner_after r = scanner -> well_formed (scanner_after r)).
  { intros ->. repeat split; eauto. }
  unfold scan_outcome in Hout.
  destruct (emitted r) as [[]|]; open_outcome; auto.
  - (* INDENT *)
    match goal with H : scanner_after r = _ |- _ => rewrite H end.
    unfold well_formed, push_indent, array_push. cbn [indents delimiters].
    rewrite Hroot. repeat split.
    + eexists. reflexivity.
    + rewrite <- Hroot. apply Forall_app. split; [assumption|].
      constructor; [apply to_uint16_range|constructor].
    + assumption.
  - (* DEDENT *)
    match goal with H : scanner_after r = _ |- _ => rewrite H end.
    unfold well_formed, pop_indent, array_pop. cbn [indents delimiters].
    repeat split.
    + unfold array_back in *. rewrite Hroot in *.
      match goal with H : ?w < last (0 :: rest) 0 |- _ =>
        apply (rooted_pop rest w); lia end.
    + apply Forall_removelast. assumption.
    + assumption.
  - (* STRING_START *)
    match goal with H : scanner_after r = _ |- _ => rewrite H end.
    unfold well_formed, push_delimiter, array_push. cbn [indents delimiters].
    repeat split; eauto.
    apply Forall_app. split; [assumption|].
    constructor; [|constructor].
    match goal with H : flags_fit _ |- _ => unfold flags_fit in H; lia end.
  - (* STRING_END *)
    match goal with H : scanner_after r = _ |- _ => rewrite H end.
    unfold well_formed, pop_delimiter, array_pop. cbn [indents delimiters].
    repeat split; eauto. apply Forall_removelast. assumption.
Qed.

Lemma roundtrip_well_formed :
  forall scanner, well_formed (roundtrip scanner).
Proof.
  intros scanner. rewrite roundtrip_spec.
  unfold well_formed. cbn [indents delimiters]. repeat split.
  - eexists. reflexivity.
  - constructor; [lia|].
    apply Forall_firstn_keeps. apply Forall_forall. intros w Hin.
    apply in_map_iff in Hin as (w' & <- & _). apply to_uint8_range.
  - apply Forall_forall. intros d Hin.
    apply in_map_iff in Hin as (d' & <- & _). apply to_uint8_range.
Qed.

Lemma reachable_well_formed :
  forall scanner, reachable scanner -> well_formed scanner.
Proof.
  induction 1 as [|scanner lexer valid_symbols r _ IH Hr|scanner _ _].
  - repeat split; [exists []; reflexivity|repeat constructor; lia|constructor].
  - eapply scan_keeps_well_formed; eassumption.
  - apply roundtrip_well_formed.
Qed.

Lemma map_small_widths :
  forall ws, Forall (fun w => 0 <= w) ws -> Forall (fun w => w <= 255) ws ->
    map to_uint8 ws = ws.
Proof.
  induction ws as [|w ws IH]; intros Hlo Hhi; [reflexivity|].
  inversion Hlo; inversion Hhi; subst. simpl. f_equal.
  - unfold to_uint8. apply Z.mod_small. lia.
  - apply IH; assumption.
Qed.

Lemma map_small_flags :
  forall ds, Forall (fun d => 0 <= flags d < 256) ds ->
    map (fun d => mkDelimiter (to_uint8 (flags d))) ds = ds.
Proof.
  induction ds as [|[f] ds IH]; intros H; [reflexivity|].
  inversion H; subst. simpl in *. f_equal.
  - unfold to_uint8. rewrite Z.mod_small by lia. reflexivity.
  - apply IH; assumption.
Qed.

(** What is restored from the bytes of a state does not depend on the state
    that the scanner restored into was in: the bytes of a state are never
    empty, and [deserialize] overwrites every field when it is given a
    byte. *)
Lemma restore_any_target :
  forall target scanner, restore target scanner = roundtrip scanner.
Proof.
  intros target scanner. unfold restore, roundtrip. rewrite serialize_spec.
  reflexivity.
Qed.

(** C3, within the range of the byte format: a reachable state with at most
    255 open delimiters, no indent width above 255, and a serialized form
    that fits the buffer is rebuilt exactly from its bytes, whatever state
    the scanner that the bytes are restored into was in, so that every
    later scan call gives the same result on the restored state as on the
    original. *)
Theorem roundtrip_within_format :
  forall target scanner,
    reachable scanner ->
    (List.length (delimiters scanner) <= 255)%nat ->
    Forall (fun w => w <= 255) (indents scanner) ->
    (2 + List.length (delimiters scanner) + (List.length (indents scanner) - 1)
     <= TREE_SITTER_SERIALIZATION_BUFFER_SIZE)%nat ->
    restore target scanner = scanner
    /\ (forall lexer valid_symbols,
          scan (restore target scanner) lexer valid_symbols
          = scan scanner lexer valid_symbols).
Proof.
  intros target scanner Hreach Hcount Hwidths Hroom.
  assert (Hsame : restore target scanner = scanner).
  { rewrite restore_any_target.
    destruct (reachable_well_formed scanner Hreach) as ([rest Hroot] & Hlo & Hflags).
    rewrite roundtrip_spec.
    assert (Hn : written_delimiters scanner = List.length (delimiters scanner))
      by (unfold written_delimiters, UINT8_MAX; lia).
    unfold indent_room. rewrite Hn, firstn_all.
    destruct scanner as [ind dels inside]. cbn [indents delimiters inside_f_string] in *.
    subst ind. cbn [skipn List.length] in *.
    inversion Hlo; inversion Hwidths; subst.
    rewrite map_small_widths by assumption.
    rewrite firstn_all2 by lia.
    rewrite map_small_flags by assumption. reflexivity. }
  split; [exact Hsame|]. intros lexer valid_symbols. rewrite Hsame. reflexivity.
Qed.

(** ** Operator dispatch *)

Lemma identifier_char_defined :
  forall c, is_identifier_char c = true -> ctype_defined c = true.
Proof.
  intros c H. unfold ctype_defined, EOF.
  unfold is_identifier_char, is_identifier_start, in_range in *.
  change (chr "a") with 97 in H. change (chr "z") with 122 in H.
  change (chr "A") with 65 in H. change (chr "Z") with 90 in H.
  change (chr "0") with 48 in H. change (chr "9") with 57 in H.
  change (chr "_") with 95 in H. lia.
Qed.

(** Where [isalnum] is defined, the test of the source is the test for a
    word character. *)
Lemma word_boundary :
  forall c, ctype_defined c = true ->
    negb (isalnum c) && negb (c =? chr "_") = negb (is_identifier_char c).
Proof.
  intros c Hc. unfold isalnum. rewrite Hc.
  unfold isalnum_c_locale, is_identifier_char, is_identifier_start.
  destruct (in_range (chr "a") (chr "z") c), (in_range (chr "A") (chr "Z") c),
    (in_range (chr "0") (chr "9") c), (c =? chr "_"); reflexivity.
Qed.

(** A word character is never a word boundary, whatever the library. *)
Lemma word_character_no_boundary :
  forall c, is_identifier_char c = true ->
    negb (isalnum c) && negb (c =? chr "_") = false.
Proof.
  intros c H. rewrite word_boundary by (apply identifier_char_defined; exact H).
  rewrite H. reflexivity.
Qed.

Lemma logical_operators_fall :
  forall scanner lexer valid_symbols,
    lookahead lexer <> chr "&" -> lookahead lexer <> chr "|" ->
    scan_logical_operators scanner lexer valid_symbols = Fall lexer.
Proof.
  intros scanner lexer valid_symbols Hamp Hbar. unfold scan_logical_operators.
  apply Z.eqb_neq in Hamp, Hbar. rewrite Hamp, Hbar.
  destruct (_ || _); reflexivity.
Qed.

Lemma lone_ampersand_fails :
  forall scanner lexer valid_symbols,
    valid_symbols LOGICAL_AND || valid_symbols LOGICAL_OR = true ->
    valid_symbols BACKGROUND_AMP = false ->
    lookahead lexer = chr "&" ->
    lookahead (advance lexer) <> chr "&" ->
    scan_logical_operators scanner lexer valid_symbols
    = no_token (advance lexer) scanner.
Proof.
  intros scanner lexer valid_symbols Hvalid Hbg Hla Hnext.
  unfold scan_logical_operators. apply Z.eqb_neq in Hnext.
  rewrite Hvalid, Hbg, Hla, Hnext. reflexivity.
Qed.

Lemma keyword_and_fails :
  forall scanner lexer valid_symbols,
    valid_symbols KEYWORD_AND = true ->
    lookahead lexer = chr "a" ->
    spells "and" lexer = false ->
    exists lexer',
      scan_keyword_operators scanner lexer valid_symbols = no_token lexer' scanner.
Proof.
  intros scanner [inp pos ts te rs] valid_symbols Hvalid Hla Hspell.
  unfold scan_keyword_operators, spells in *. rewrite Hvalid.
  unfold lookahead in Hla. cbn [input] in *.
  destruct inp as [|c1 inp]; [discriminate|]. subst c1.
  replace (lookahead (mkLexer (chr "a" :: inp) pos ts te rs) =? chr "a")
    with true by reflexivity.
  cbn [orb andb]. unfold advance, lexer_advance, lookahead. cbn [input].
  destruct inp as [|c2 inp]; [eexists; reflexivity|].
  destruct (c2 =? chr "n") eqn:E2; [|eexists; reflexivity].
  cbn [input].
  destruct inp as [|c3 inp]; [eexists; reflexivity|].
  destruct (c3 =? chr "d") eqn:E3; [|eexists; reflexivity].
  cbn [input]. apply Z.eqb_eq in E2, E3. subst c2 c3.
  cbn [String.length firstn nth codes codes_eqb] in Hspell.
  rewrite !Z.eqb_refl in Hspell. cbn [andb] in Hspell.
  destruct inp as [|c4 inp]; cbn [nth] in Hspell; [discriminate Hspell|].
  apply negb_false_iff in Hspell.
  rewrite (word_character_no_boundary c4 Hspell). eexists. reflexivity.
Qed.

Lemma keyword_or_fails :
  forall scanner lexer valid_symbols,
    valid_symbols KEYWORD_OR = true ->
    lookahead lexer = chr "o" ->
    spells "or" lexer = false ->
    exists lexer',
      scan_keyword_operators scanner lexer valid_symbols = no_token lexer' scanner.
Proof.
  intros scanner [inp pos ts te rs] valid_symbols Hvalid Hla Hspell.
  unfold scan_keyword_operators, spells in *. rewrite Hvalid.
  unfold lookahead in Hla. cbn [input] in *.
  destruct inp as [|c1 inp]; [discriminate|]. subst c1.
  replace (lookahead (mkLexer (chr "o" :: inp) pos ts te rs) =? chr "a")
    with false by reflexivity.
  replace (lookahead (mkLexer (chr "o" :: inp) pos ts te rs) =? chr "o")
    with true by reflexivity.
  rewrite orb_true_r, andb_false_r. cbn [andb].
  unfold advance, lexer_advance, lookahead. cbn [input].
  destruct inp as [|c2 inp]; [eexists; reflexivity|].
  destruct (c2 =? chr "r") eqn:E2; [|eexists; reflexivity].
  cbn [input]. apply Z.eqb_eq in E2. subst c2.
  cbn [String.length firstn nth codes codes_eqb] in Hspell.
  rewrite !Z.eqb_refl in Hspell. cbn [andb] in Hspell.
  destruct inp as [|c3 inp]; cbn [nth] in Hspell; [discriminate Hspell|].
  apply negb_false_iff in Hspell.
  rewrite (word_character_no_boundary c3 Hspell). eexists. reflexivity.
Qed.

(** C10, with the guard of the operator block spelled out: when the stages
    up to layout emission have reported nothing and operator dispatch finds
    (a) KEYWORD_AND valid and an [a] that does not start the word [and],
    (b) KEYWORD_OR valid and an [o] that does not start the word [or], or
    (c) LOGICAL_AND or LOGICAL_OR valid, BACKGROUND_AMP not valid, and an
    [&] with no second [&] behind it, then the call reports no token and
    leaves the state alone, whatever the stages after operator dispatch
    (subprocess detection, path prefix, string start) would do: they are not
    run. *)
Theorem operator_failure_short_circuits :
  forall back scanner lexer valid_symbols s,
    scan_front scanner lexer valid_symbols = Fall s ->
    (valid_symbols KEYWORD_AND = true
     /\ lookahead (here s) = chr "a"
     /\ spells "and" (here s) = false)
    \/ (valid_symbols KEYWORD_OR = true
        /\ lookahead (here s) = chr "o"
        /\ spells "or" (here s) = false)
    \/ (valid_symbols LOGICAL_AND || valid_symbols LOGICAL_OR = true
        /\ valid_symbols BACKGROUND_AMP = false
        /\ lookahead (here s) = chr "&"
        /\ lookahead (advance (here s)) <> chr "&") ->
    exists r,
      scan_with back scanner lexer valid_symbols = Some r
      /\ token_found r = false
      /\ scanner_after r = scanner.
Proof.
  intros back scanner lexer valid_symbols s Hfront Hcase.
  unfold scan_with. rewrite Hfront. cbn [bind]. unfold scan_operators.
  destruct Hcase as [(Hv & Hla & Hsp)|[(Hv & Hla & Hsp)|(Hv & Hbg & Hla & Hnext)]].
  - rewrite logical_operators_fall by (rewrite Hla; discriminate).
    cbn [bind].
    destruct (keyword_and_fails scanner (here s) valid_symbols Hv Hla Hsp)
      as [lexer' ->].
    eexists. split; [reflexivity|]. split; reflexivity.
  - rewrite logical_operators_fall by (rewrite Hla; discriminate).
    cbn [bind].
    destruct (keyword_or_fails scanner (here s) valid_symbols Hv Hla Hsp)
      as [lexer' ->].
    eexists. split; [reflexivity|]. split; reflexivity.
  - rewrite (lone_ampersand_fails scanner (here s) valid_symbols Hv Hbg Hla Hnext).
    eexists. split; [reflexivity|]. split; reflexivity.
Qed.

(** ** State changes come with tokens *)

(** A scan call that reports no token leaves the scanner state as it was. *)
Theorem no_token_keeps_state :
  forall scanner lexer valid_symbols,
    exists r,
      scan scanner lexer valid_symbols = Some r
      /\ (token_found r = false -> scanner_after r = scanner).
Proof.
  intros scanner lexer valid_symbols.
  destruct (scan_total scanner lexer valid_symbols) as [r Hr].
  exists r. split; [exact Hr|]. intros Hnone.
  pose proof (scan_outcome_holds scanner lexer valid_symbols r Hr) as Hout.
  unfold scan_outcome, emitted in Hout. rewrite Hnone in Hout. exact Hout.
Qed.

(** Scan calls keep [inside_f_string] tied to a format string on top of the
    delimiter stack. *)
Theorem scan_keeps_f_string_flag :
  forall scanner lexer valid_symbols,
    f_string_flag_ok scanner ->
    exists r,
      scan scanner lexer valid_symbols = Some r
      /\ f_string_flag_ok (scanner_after r).
Proof.
  intros scanner lexer valid_symbols Hok.
  destruct (scan_total scanner lexer valid_symbols) as [r Hr].
  exists r. split; [exact Hr|].
  pose proof (scan_outcome_holds scanner lexer valid_symbols r Hr) as Hout.
  unfold scan_outcome in Hout.
  destruct (emitted r) as [[]|]; open_outcome;
    match goal with H : scanner_after r = _ |- _ => rewrite H end;
    try exact Hok.
  - (* STRING_START *)
    unfold f_string_flag_ok, push_delimiter, array_push, array_back.
    cbn [inside_f_string delimiters]. intros Hfmt. rewrite last_last.
    split; [|exact Hfmt]. intros E. apply app_eq_nil in E as [_ E]. discriminate.
  - (* STRING_END *)
    unfold f_string_flag_ok, pop_delimiter. cbn [inside_f_string]. discriminate.
Qed.

(** ** The detector only peeks: it moves the lexer but not the token marks *)

Lemma same_marks_refl : forall l, same_marks l l.
Proof. intros l. split; reflexivity. Qed.

Lemma same_marks_advance :
  forall base l, same_marks base l -> same_marks base (advance l).
Proof.
  intros base l [He Hs]. unfold same_marks, advance, lexer_advance.
  destruct (input l); simpl; auto.
Qed.

Lemma same_marks_while :
  forall p n base l, same_marks base l -> same_marks base (lexer_while false p n l).
Proof.
  intros p. induction n as [|n IH]; intros base l H; simpl; [exact H|].
  destruct (p (lookahead l)); [|exact H].
  apply IH. apply same_marks_advance. exact H.
Qed.

Lemma same_marks_advance_while :
  forall p base l, same_marks base l -> same_marks base (advance_while p l).
Proof. intros p base l H. apply same_marks_while. exact H. Qed.

Lemma same_marks_read_identifier :
  forall n base l buf,
    same_marks base l -> same_marks base (snd (read_identifier n l buf)).
Proof.
  induction n as [|n IH]; intros base l buf H; simpl; [exact H|].
  destruct (is_identifier_char (lookahead l)); [|exact H].
  apply IH. apply same_marks_advance. exact H.
Qed.

(** Solves [same_marks base e] for a lexer [e] that advances from one whose
    marks are known. *)
Ltac marks :=
  repeat first
    [ assumption
    | apply same_marks_advance
    | apply same_marks_advance_while
    | apply same_marks_refl ].

Lemma probe_marks :
  forall base first next hit sd lexer pos,
    same_marks base lexer ->
    flow_all (detected_marks base) (fun st => same_marks base (fst st))
      (probe first next hit sd (lexer, pos)).
Proof.
  intros base first next hit sd lexer pos H. unfold probe.
  split_ifs; simpl; unfold detected_marks; simpl; marks.
Qed.

Lemma probe_at_sign_marks :
  forall base lexer sd,
    same_marks base lexer -> detected_marks base (probe_at_sign lexer sd).
Proof.
  intros base lexer sd H. unfold probe_at_sign, detected_marks.
  destruct (is_identifier_start _); [|simpl; marks].
  destruct (_ || _); [simpl; marks|].
  destruct (is_whitespace _); [|simpl; marks].
  destruct (_ || _); [simpl; marks|].
  destruct (is_identifier_start _); [|simpl; marks].
  pose proof (same_marks_read_identifier 63 base
                (advance_while is_whitespace
                   (advance_while is_identifier_char (advance lexer))) []) as Hr.
  destruct (read_identifier _ _ _) as [cmd lexer']. simpl in Hr.
  destruct (is_shell_command cmd); simpl; apply Hr; marks.
Qed.

Lemma first_identifier_marks :
  forall base lexer pos sd,
    same_marks base lexer ->
    flow_all (detected_marks base) (fall_marks base)
      (first_identifier lexer pos sd).
Proof.
  intros base lexer pos sd H. unfold first_identifier.
  destruct (is_identifier_start (lookahead lexer)); [|exact H].
  pose proof (same_marks_read_identifier 63 base lexer [] H) as Hr.
  destruct (read_identifier 63 lexer []) as [first_ident lexer']. simpl in Hr.
  eapply (flow_all_bind _ any).
  { destruct (_ && _); [|exact I].
    destruct (if forallb is_prefix_letter first_ident then sd else None);
      [exact Hr|].
    destruct (is_path_prefix first_ident); [exact Hr|exact I]. }
  intros ? _ _. cbn beta iota.
  eapply (flow_all_bind _ (same_marks base)).
  { split_ifs; simpl; unfold detected_marks; simpl; marks. }
  intros lexer'' _ H''. cbn beta iota.
  eapply (flow_all_bind _ any).
  { split_ifs; simpl; unfold detected_marks; simpl; try exact I; marks. }
  intros ? _ _. cbn beta iota.
  split_ifs; simpl; unfold detected_marks, fall_marks; simpl; marks.
Qed.

Lemma detect_opening_marks :
  forall lexer sd,
    flow_all (detected_marks (mark_end lexer)) (fall_marks (mark_end lexer))
      (detect_opening lexer sd).
Proof.
  intros lexer sd. unfold detect_opening.
  set (base := mark_end lexer).
  assert (H0 : same_marks base (advance_while is_whitespace base)) by marks.
  destruct (_ =? chr "/"); [exact H0|].
  eapply flow_all_bind; [apply probe_marks; exact H0|intros [lx1 p1] _ H1].
  eapply flow_all_bind; [apply probe_marks; exact H1|intros [lx2 p2] _ H2].
  eapply flow_all_bind; [apply probe_marks; exact H2|intros [lx3 p3] _ H3].
  eapply flow_all_bind; [apply probe_marks; exact H3|intros [lx4 p4] _ H4].
  cbn beta iota. cbn [fst] in H4.
  destruct (_ =? chr "["); [exact H4|].
  destruct (_ =? chr "@"); [apply probe_at_sign_marks; exact H4|].
  assert (H5 : same_marks base
                 (fst (if lookahead lx4 =? chr "$"
                       then (advance lx4, S p4) else (lx4, p4))))
    by (destruct (_ =? chr "$"); simpl; marks).
  destruct (if _ =? chr "$" then _ else _) as [lx5 p5]. cbn [fst] in H5.
  eapply flow_all_bind;
    [apply first_identifier_marks; exact H5
    |intros [[first_ident lx6] p6] _ H6; cbn beta iota].
  unfold fall_marks in H6. cbn [fst snd] in H6.
  eapply (flow_all_bind _ (same_marks base)); [|intros lx7 _ H7; exact H7].
  split_ifs; simpl; unfold detected_marks; simpl; marks.
Qed.

Lemma line_scan_body_marks :
  forall base s s',
    same_marks base (cursor s) ->
    line_scan_body s = Next s' -> same_marks base (cursor s').
Proof.
  intros base s s' H. unfold line_scan_body.
  destruct (_ && _); [|discriminate].
  intros E. injection E as <-.
  repeat (cursor_simpl;
          lazymatch goal with
          | |- same_marks _ (cursor (if ?b then _ else _)) => destruct b eqn:?
          end).
  all: cursor_simpl.
  all: repeat match goal with
         | |- context [if ?b then _ else _] => destruct b eqn:?
         end.
  all: cursor_simpl; marks.
Qed.

Lemma line_scan_body_break :
  forall s b, line_scan_body s = Break b -> b = s.
Proof.
  intros s b. unfold line_scan_body.
  destruct (_ && _); [discriminate|]. intros E. injection E as <-. reflexivity.
Qed.

Lemma line_scan_marks :
  forall base first_ident lexer s,
    same_marks base lexer ->
    line_scan first_ident lexer = Fall s -> same_marks base (cursor s).
Proof.
  intros base first_ident lexer s H Hs. unfold line_scan in Hs.
  pose proof (loop_invariant line_scan_body
                (fun s => same_marks base (cursor s)) any
                (fun s => same_marks base (cursor s))) as Hinv.
  specialize (Hinv (line_scan_body_marks base)).
  specialize (Hinv (fun _ _ _ _ => I)).
  specialize (Hinv (fun s b Hm E =>
                      eq_ind_r (fun b => same_marks base (cursor b)) Hm
                        (line_scan_body_break s b E))).
  specialize (Hinv (S (List.length (input lexer)))
                (line_scan_start first_ident lexer) H).
  rewrite Hs in Hinv. exact Hinv.
Qed.

(** The detector marks the end where it is entered and leaves both marks
    alone from then on. *)
Lemma detect_subprocess_line_marks :
  forall lexer sd d,
    detect_subprocess_line lexer sd = Return d ->
    token_end (after d) = Some (position lexer)
    /\ token_start (after d) = token_start lexer.
Proof.
  intros lexer sd d Hd.
  assert (H : detected_marks (mark_end lexer) d).
  { unfold detect_subprocess_line in Hd.
    pose proof (detect_opening_marks lexer sd) as Hopen.
    destruct (detect_opening lexer sd) as [|d'|[[first_ident lexer'] pos]];
      simpl in *; try discriminate.
    - injection Hd as <-. exact Hopen.
    - destruct (line_scan first_ident lexer') as [|r|s] eqn:Hs;
        simpl in Hd; try discriminate.
      + destruct (line_scan_falls first_ident lexer') as [s' Hs']. congruence.
      + injection Hd as <-. unfold detected_marks. simpl.
        eapply line_scan_marks; [exact Hopen|exact Hs]. }
  exact H.
Qed.

(** ** SUBPROCESS_START is a zero-width token *)

Ltac not_subprocess :=
  unfold not_subprocess_start, emitted; simpl; try exact I; try discriminate.

Lemma scan_escape_not_subprocess :
  forall scanner lexer valid_symbols,
    flow_all not_subprocess_start any (scan_escape scanner lexer valid_symbols).
Proof.
  intros. unfold scan_escape, finish, no_token. split_ifs; simpl; not_subprocess.
Qed.

Lemma content_body_not_subprocess :
  forall scanner delimiter advanced_once st r,
    content_body scanner delimiter advanced_once st = Ret r ->
    not_subprocess_start r.
Proof.
  intros scanner delimiter advanced_once [has_content lexer] r.
  unfold content_body.
  destruct has_content; split_ifs; intros E; try discriminate;
    injection E as <-; not_subprocess.
Qed.

Lemma content_body_break :
  forall scanner delimiter advanced_once st b,
    content_body scanner delimiter advanced_once st = Break b ->
    lookahead b = 0.
Proof.
  intros scanner delimiter advanced_once [has_content lexer] b.
  unfold content_body.
  destruct (lookahead lexer =? 0) eqn:Hz.
  - intros E. injection E as <-. apply Z.eqb_eq. exact Hz.
  - split_ifs; discriminate.
Qed.

(** String content falls through with the lexer untouched, or at a 0
    lookahead. *)
Lemma scan_content_falls :
  forall scanner lexer valid_symbols advanced_once,
    flow_all not_subprocess_start (fun l => l = lexer \/ lookahead l = 0)
      (scan_content scanner lexer valid_symbols advanced_once).
Proof.
  intros. unfold scan_content.
  destruct (_ && _); [|left; reflexivity].
  apply (loop_invariant _ (fun _ => True) not_subprocess_start
           (fun l => l = lexer \/ lookahead l = 0)); try exact I.
  - intros; exact I.
  - intros st r _ E. eapply content_body_not_subprocess. exact E.
  - intros st b _ E. right. eapply content_body_break. exact E.
Qed.

Lemma skip_keeps_start :
  forall lexer, token_start lexer = position lexer ->
    token_start (skip lexer) = position (skip lexer).
Proof.
  intros lexer H. unfold skip, lexer_advance.
  destruct (input lexer); simpl; auto.
Qed.

Lemma skip_while_keeps_start :
  forall p n lexer, token_start lexer = position lexer ->
    token_start (lexer_while true p n lexer)
    = position (lexer_while true p n lexer).
Proof.
  intros p. induction n as [|n IH]; intros lexer H; simpl; [exact H|].
  destruct (p (lookahead lexer)); [|exact H].
  apply IH. apply (skip_keeps_start lexer H).
Qed.

Lemma layout_body_keeps_start :
  forall scanner valid_symbols s s',
    at_token_start (here s) ->
    layout_body scanner valid_symbols s = Next s' -> at_token_start (here s').
Proof.
  intros scanner valid_symbols s s' [H|H]; unfold layout_body.
  - pose proof (skip_keeps_start (here s) H) as Hskip.
    pose proof (skip_keeps_start (skip (here s)) Hskip) as Hskip2.
    pose proof (skip_keeps_start (skip (skip (here s))) Hskip2) as Hskip3.
    pose proof (skip_keeps_start
                  (skip_while in_comment (here s))
                  (skip_while_keeps_start in_comment _ (here s) H)) as Hcomment.
    split_ifs; intros E; try discriminate; injection E as <-;
      left; cbn [here]; assumption.
  - rewrite H. cbn. destruct (eof (here s)); discriminate.
Qed.

Lemma layout_body_break_start :
  forall scanner valid_symbols s b,
    at_token_start (here s) ->
    layout_body scanner valid_symbols s = Break b -> at_token_start (here b).
Proof.
  intros scanner valid_symbols s b H. unfold layout_body.
  split_ifs; intros E; try discriminate; injection E as <-; exact H.
Qed.

Lemma layout_body_not_subprocess :
  forall scanner valid_symbols s r,
    layout_body scanner valid_symbols s = Ret r -> not_subprocess_start r.
Proof.
  intros scanner valid_symbols s r. unfold layout_body.
  split_ifs; intros E; try discriminate; injection E as <-; not_subprocess.
Qed.

Lemma scan_layout_start :
  forall scanner lexer valid_symbols,
    at_token_start lexer ->
    flow_all not_subprocess_start (fun s => at_token_start (here s))
      (scan_layout scanner lexer valid_symbols).
Proof.
  intros scanner lexer valid_symbols H. unfold scan_layout.
  apply (loop_invariant _ (fun s => at_token_start (here s))
           not_subprocess_start (fun s => at_token_start (here s))).
  - apply layout_body_keeps_start.
  - intros s r _. apply layout_body_not_subprocess.
  - apply layout_body_break_start.
  - exact H.
Qed.

Lemma scan_layout_emit_not_subprocess :
  forall scanner valid_symbols s,
    flow_all not_subprocess_start any (scan_layout_emit scanner valid_symbols s).
Proof.
  intros. unfold scan_layout_emit, finish.
  destruct (found_end_of_line s); [|exact I].
  eapply (flow_all_bind _ any); [|intros ? _ _];
    split_ifs; simpl; not_subprocess.
Qed.

Lemma scan_front_start :
  forall scanner lexer valid_symbols,
    token_start lexer = position lexer ->
    flow_all not_subprocess_start (fun s => at_token_start (here s))
      (scan_front scanner lexer valid_symbols).
Proof.
  intros scanner lexer valid_symbols H. unfold scan_front.
  eapply (flow_all_bind _ any); [apply scan_escape_not_subprocess|intros ? _ _].
  eapply flow_all_bind; [apply scan_content_falls|intros lexer' _ Hl].
  eapply flow_all_bind;
    [apply (scan_layout_start scanner lexer' valid_symbols)|intros s _ Hs].
  { destruct Hl as [->|Hz]; [left; exact H|right; exact Hz]. }
  eapply (flow_all_bind _ any);
    [apply scan_layout_emit_not_subprocess|intros ? _ _; exact Hs].
Qed.

Lemma scan_operators_same_lexer :
  forall scanner lexer valid_symbols,
    flow_all not_subprocess_start (fun l => l = lexer)
      (scan_operators scanner lexer valid_symbols).
Proof.
  intros. unfold scan_operators.
  eapply (flow_all_bind _ (fun l => l = lexer)); [|intros l _ ->];
    unfold scan_logical_operators, scan_keyword_operators, finish, no_token;
    split_ifs; simpl; not_subprocess; reflexivity.
Qed.

Lemma scan_path_prefix_not_subprocess :
  forall scanner lexer valid_symbols first_comment,
    flow_all not_subprocess_start any
      (scan_path_prefix scanner lexer valid_symbols first_comment).
Proof.
  intros. unfold scan_path_prefix, finish, no_token.
  split_ifs; simpl; not_subprocess.
Qed.

Lemma scan_string_start_not_subprocess :
  forall scanner lexer valid_symbols first_comment,
    flow_all not_subprocess_start any
      (scan_string_start scanner lexer valid_symbols first_comment).
Proof.
  intros. unfold scan_string_start, finish, no_token.
  destruct (_ && _); [|exact I].
  destruct (string_prefix _ _ _ _) as [[delimiter has_flags] lexer'].
  destruct (_ =? BACKTICK); [not_subprocess|].
  destruct (open_quotes _ _) as [d lexer''].
  split_ifs; simpl; not_subprocess.
Qed.

(** At a 0 lookahead the detector has nothing to go by. *)
Lemma detect_at_nul :
  forall lexer sd d,
    lookahead lexer = 0 ->
    detect_subprocess_line lexer sd = Return d -> verdict d = DETECT_NONE.
Proof.
  intros [[|c rest] pos ts te rs] sd d Hz Hd.
  - vm_compute in Hd. injection Hd as <-. reflexivity.
  - unfold lookahead in Hz. cbn [input] in Hz. subst c.
    vm_compute in Hd. injection Hd as <-. reflexivity.
Qed.

(** When a scan call reports SUBPROCESS_START, the token starts and ends
    where the subprocess detector was entered (the position after the layout
    stage), and the scanner state is unchanged. *)
Theorem subprocess_start_is_zero_width :
  forall scanner lexer valid_symbols,
    token_start lexer = position lexer ->
    exists r,
      scan scanner lexer valid_symbols = Some r
      /\ (emitted r = Some SUBPROCESS_START ->
          exists s,
            scan_front scanner lexer valid_symbols = Fall s
            /\ token_start (lexer_after r) = position (here s)
            /\ token_end (lexer_after r) = Some (position (here s))
            /\ scanner_after r = scanner).
Proof.
  intros scanner lexer valid_symbols Hstart.
  destruct (scan_total scanner lexer valid_symbols) as [r Hr].
  exists r. split; [exact Hr|]. intros Hemit.
  unfold scan, scan_with in Hr.
  pose proof (scan_front_start scanner lexer valid_symbols Hstart) as Hfront.
  destruct (scan_front scanner lexer valid_symbols) as [|r'|s];
    simpl in Hr, Hfront; try discriminate.
  { injection Hr as <-. contradiction. }
  exists s. split; [reflexivity|].
  pose proof (scan_operators_same_lexer scanner (here s) valid_symbols) as Hops.
  destruct (scan_operators scanner (here s) valid_symbols) as [|r'|l];
    simpl in Hr, Hops; try discriminate.
  { injection Hr as <-. contradiction. }
  subst l. unfold scan_back in Hr.
  unfold scan_subprocess in Hr.
  destruct (check_subprocess _ _ _).
  2:{ exfalso. cbn [bind] in Hr.
      pose proof (scan_path_prefix_not_subprocess scanner (here s) valid_symbols
                    (first_comment_indent_length s)) as Hp.
      destruct (scan_path_prefix _ _ _ _) as [|r'|l]; simpl in Hr, Hp;
        try discriminate.
      { injection Hr as <-. contradiction. }
      pose proof (scan_string_start_not_subprocess scanner l valid_symbols
                    (first_comment_indent_length s)) as Hs.
      destruct (scan_string_start _ _ _ _) as [|r'|l']; simpl in Hr, Hs;
        try discriminate; injection Hr as <-; [contradiction|].
      unfold emitted in Hemit. simpl in Hemit. discriminate. }
  destruct (detect_subprocess_line_returns (here s) (Some new_delimiter)) as [d Hd].
  rewrite Hd in Hr. cbn [call bind] in Hr.
  destruct (detect_subprocess_line_marks _ _ _ Hd) as [Hend Hts].
  destruct (DetectResult_eqb (verdict d) DETECT_BLOCK_MACRO
            && valid_symbols BLOCK_MACRO_START).
  { simpl in Hr. injection Hr as <-. discriminate. }
  destruct (DetectResult_eqb (verdict d) DETECT_SUBPROCESS_MACRO
            && valid_symbols SUBPROCESS_MACRO_START).
  { simpl in Hr. injection Hr as <-. discriminate. }
  destruct (DetectResult_eqb (verdict d) DETECT_SUBPROCESS
            && valid_symbols SUBPROCESS_START) eqn:Hsub.
  { simpl in Hr. injection Hr as <-. cbn [lexer_after scanner_after].
    unfold set_result. cbn [token_start token_end].
    rewrite Hend, Hts. split; [|split; reflexivity].
    destruct Hfront as [Hsync|Hnul]; [exact Hsync|].
    exfalso. apply andb_prop in Hsub as [Hv _].
    rewrite (detect_at_nul _ _ _ Hnul Hd) in Hv. discriminate. }
  exfalso.
  assert (Hrest :
            forall m : flow ScanResult TSLexer,
              flow_all not_subprocess_start any m ->
              run (lexer <- m ;;
                   lexer <- scan_path_prefix scanner lexer valid_symbols
                              (first_comment_indent_length s) ;;
                   lexer <- scan_string_start scanner lexer valid_symbols
                              (first_comment_indent_length s) ;;
                   no_token lexer scanner) = Some r -> False).
  { intros m Hm Hrun. destruct m as [|r'|l]; simpl in Hrun, Hm; try discriminate.
    { injection Hrun as <-. contradiction. }
    pose proof (scan_path_prefix_not_subprocess scanner l valid_symbols
                  (first_comment_indent_length s)) as Hp.
    destruct (scan_path_prefix _ _ _ _) as [|r'|l']; simpl in Hrun, Hp;
      try discriminate.
    { injection Hrun as <-. contradiction. }
    pose proof (scan_string_start_not_subprocess scanner l' valid_symbols
                  (first_comment_indent_length s)) as Hs.
    destruct (scan_string_start _ _ _ _) as [|r'|l'']; simpl in Hrun, Hs;
      try discriminate; injection Hrun as <-; [contradiction|].
    unfold emitted in Hemit. simpl in Hemit. discriminate. }
  eapply Hrest; [|exact Hr].
  destruct (open_quotes _ _) as [string_delim lexer'].
  unfold finish. split_ifs; simpl; not_subprocess.
Qed.

(** ** The serialized form and the buffer *)

Lemma Forall_firstn_bytes :
  forall n (l : list Z), Forall is_byte l -> Forall is_byte (firstn n l).
Proof.
  induction n as [|n IH]; intros [|x l] H; simpl; auto.
  inversion H; subst. constructor; auto.
Qed.

Lemma Forall_map_to_uint8 :
  forall {A : Type} (f : A -> Z) (l : list A),
    Forall is_byte (map (fun x => to_uint8 (f x)) l).
Proof.
  intros A f l. induction l as [|x l IH]; simpl; constructor; auto.
  unfold is_byte, to_uint8. apply Z.mod_pos_bound. lia.
Qed.

Lemma map_to_uint8_bytes :
  forall l, Forall is_byte l -> map to_uint8 l = l.
Proof.
  induction 1 as [|x l Hx _ IH]; simpl; [reflexivity|].
  rewrite IH. unfold to_uint8. rewrite Z.mod_small by exact Hx. reflexivity.
Qed.

Lemma serialize_in_form : forall scanner, serialized_form (serialize scanner).
Proof.
  intros scanner. rewrite serialize_spec.
  set (n := written_delimiters scanner).
  set (ds := map (fun d => to_uint8 (flags d)) (firstn n (delimiters scanner))).
  set (ws := firstn (indent_room scanner) (map to_uint8 (skipn 1 (indents scanner)))).
  assert (Hn : List.length ds = n).
  { unfold ds, n, written_delimiters. rewrite length_map, length_firstn. lia. }
  pose proof (written_delimiters_le scanner) as Hle. fold n in Hle.
  exists (inside_f_string scanner), ds, ws. rewrite Hn.
  split; [reflexivity|]. split; [unfold UINT8_MAX; exact Hle|]. split.
  - cbn [List.length app]. rewrite length_app, Hn.
    unfold ws. rewrite length_firstn. unfold indent_room. fold n.
    unfold TREE_SITTER_SERIALIZATION_BUFFER_SIZE. lia.
  - split.
    + unfold ds. apply Forall_map_to_uint8.
    + unfold ws. apply Forall_firstn_bytes.
      apply (Forall_map_to_uint8 (fun w => w)).
Qed.

(** The bytes that [serialize] writes stay within the buffer that the host
    provides, and each of them is a byte: the flag, the clamped delimiter
    count, the delimiters and the indent widths together never exceed
    [TREE_SITTER_SERIALIZATION_BUFFER_SIZE]. *)
Theorem serialize_fits_buffer :
  forall scanner,
    (2 <= List.length (serialize scanner)
     <= TREE_SITTER_SERIALIZATION_BUFFER_SIZE)%nat
    /\ Forall (fun b => 0 <= b < 256) (serialize scanner)
    /\ nth 1 (serialize scanner) 0
       = Z.of_nat (Nat.min UINT8_MAX (List.length (delimiters scanner))).
Proof.
  intros scanner.
  destruct (serialize_in_form scanner) as (inside & ds & ws & E & Hn & Hlen & Hds & Hws).
  split; [|split].
  - split; [|exact Hlen]. rewrite E. cbn [List.length app]. lia.
  - rewrite E. cbn [app]. constructor; [destruct inside; simpl; lia|].
    constructor; [unfold UINT8_MAX in Hn; lia|].
    apply Forall_app. split; assumption.
  - rewrite serialize_spec. reflexivity.
Qed.

Lemma serialize_fits_buffer_length :
  forall scanner, exists n, List.length (serialize scanner) = S n.
Proof.
  intros scanner. rewrite serialize_spec. cbn [List.length app]. eexists.
  reflexivity.
Qed.

(** Restoring from a buffer in the serialized layout and saving again gives
    the same bytes back. Hence saving and restoring a second time changes
    nothing: what one round trip through the buffer loses (wide widths, deep
    delimiters, what did not fit) it loses once. *)
Theorem deserialize_then_serialize :
  forall scanner,
    (forall buffer,
        serialized_form buffer ->
        serialize (deserialize scanner buffer (List.length buffer)) = buffer)
    /\ roundtrip (roundtrip scanner) = roundtrip scanner.
Proof.
  assert (Hform : forall scanner buffer,
             serialized_form buffer ->
             serialize (deserialize scanner buffer (List.length buffer)) = buffer).
  {
    intros scanner buffer (inside & ds & ws & E & Hn & Hlen & Hds & Hws).
    set (n := List.length ds) in *.
    assert (Hcount : Z.to_nat (to_uint8 (Z.of_nat n)) = n).
    { unfold to_uint8, UINT8_MAX in *. rewrite Z.mod_small by lia. apply Nat2Z.id. }
    assert (Hblen : List.length buffer = (2 + n + List.length ws)%nat).
    { rewrite E. cbn [List.length app]. rewrite length_app. fold n. lia. }
    assert (Hstate :
              deserialize scanner buffer (List.length buffer)
              = {| indents := 0 :: ws;
                   delimiters := map mkDelimiter ds;
                   inside_f_string := inside |}).
    { unfold deserialize. rewrite Hblen. cbn [Nat.ltb Nat.leb Nat.add].
      assert (H1 : nth 1 buffer 0 = Z.of_nat n) by (rewrite E; reflexivity).
      assert (H0 : nth 0 buffer 0 = Z.b2z inside) by (rewrite E; reflexivity).
      rewrite H1, H0, Hcount. f_equal.
      - replace (S (S (n + List.length ws)) - S (S n))%nat with (List.length ws) by lia.
        rewrite deserialize_indents_spec by (rewrite Hblen; lia).
        unfold array_push. cbn [app]. f_equal.
        rewrite E, app_assoc, skipn_app.
        replace (S (S n) - List.length ([Z.b2z inside; Z.of_nat n] ++ ds))%nat
          with O by (rewrite length_app; simpl; fold n; lia).
        rewrite skipn_all2 by (rewrite length_app; simpl; fold n; lia).
        cbn [app skipn]. rewrite firstn_all. apply map_to_uint8_bytes. exact Hws.
      - pose proof (read_delimiters ds [] ws) as Hread.
        cbn [List.length app Nat.add] in Hread. fold n in Hread.
        rewrite E. cbn [Nat.add app]. exact Hread.
      - destruct inside; reflexivity. }
    rewrite Hstate, serialize_spec.
    unfold written_delimiters, indent_room, written_delimiters.
    cbn [inside_f_string delimiters indents skipn]. rewrite length_map. fold n.
    replace (Nat.min UINT8_MAX n) with n by (unfold UINT8_MAX in *; lia).
    rewrite firstn_all2 by (rewrite length_map; fold n; lia).
    rewrite map_map. cbn [flags].
    change (map (fun x : Z => to_uint8 x) ds) with (map to_uint8 ds).
    rewrite (map_to_uint8_bytes ds Hds), (map_to_uint8_bytes ws Hws).
    rewrite firstn_all2; [symmetry; exact E|].
    unfold TREE_SITTER_SERIALIZATION_BUFFER_SIZE in *. lia.
  }
  intros scanner. split; [apply Hform|].
  unfold roundtrip at 1.
  assert (H : serialize (roundtrip scanner) = serialize scanner).
  { unfold roundtrip. apply Hform. apply serialize_in_form. }
  rewrite H. unfold roundtrip.
  destruct (serialize_fits_buffer_length scanner) as [n Hn]. rewrite Hn.
  reflexivity.
Qed.

Lemma deserialize_then_serialize_witness :
  serialized_form [1; 1; 18; 4; 8]
  /\ serialize (deserialize create [1; 1; 18; 4; 8] 5) = [1; 1; 18; 4; 8]
  /\ roundtrip (roundtrip create) = roundtrip create.
Proof.
  assert (H : serialized_form [1; 1; 18; 4; 8]).
  { exists true, [18], [4; 8]. unfold is_byte. repeat split; simpl; try lia;
      repeat constructor; lia. }
  split; [exact H|]. split.
  - exact (proj1 (deserialize_then_serialize create) [1; 1; 18; 4; 8] H).
  - exact (proj2 (deserialize_then_serialize create)).
Defined.

(** ** Delimiter flags: every setter sets its own bit and no other *)

Lemma has_bit_set_same :
  forall d bit, bit <> 0 -> has_bit (set_bit d bit) bit = true.
Proof.
  intros d bit Hbit. unfold has_bit, set_bit. cbn [flags].
  rewrite Z.land_lor_distr_l, Z.land_diag.
  apply negb_true_iff, Z.eqb_neq. intros H.
  apply Z.lor_eq_0_iff in H as [_ H]. contradiction.
Qed.

Lemma has_bit_set_other :
  forall d bit other, Z.land bit other = 0 ->
    has_bit (set_bit d bit) other = has_bit d other.
Proof.
  intros d bit other H. unfold has_bit, set_bit. cbn [flags].
  rewrite Z.land_lor_distr_l, H, Z.lor_0_r. reflexivity.
Qed.

Ltac flag_bits :=
  unfold flag_view, is_format, is_raw, is_triple, is_bytes, end_character,
    set_format, set_raw, set_triple, set_bytes;
  repeat first
    [ rewrite has_bit_set_same by discriminate
    | rewrite has_bit_set_other by reflexivity ].

Lemma flag_view_set_format :
  forall d, flag_view (set_format d)
            = (true, is_raw d, is_triple d, is_bytes d, end_character d).
Proof. intros d. flag_bits. reflexivity. Qed.

Lemma flag_view_set_raw :
  forall d, flag_view (set_raw d)
            = (is_format d, true, is_triple d, is_bytes d, end_character d).
Proof. intros d. flag_bits. reflexivity. Qed.

Lemma flag_view_set_triple :
  forall d, flag_view (set_triple d)
            = (is_format d, is_raw d, true, is_bytes d, end_character d).
Proof. intros d. flag_bits. reflexivity. Qed.

Lemma flag_view_set_bytes :
  forall d, flag_view (set_bytes d)
            = (is_format d, is_raw d, is_triple d, true, end_character d).
Proof. intros d. flag_bits. reflexivity. Qed.

Lemma no_end_character :
  forall d, end_character d = 0 ->
    has_bit d SingleQuote = false /\ has_bit d DoubleQuote = false
    /\ has_bit d BackQuote = false.
Proof.
  intros d. unfold end_character.
  destruct (has_bit d SingleQuote); [discriminate|].
  destruct (has_bit d DoubleQuote); [discriminate|].
  destruct (has_bit d BackQuote); [discriminate|]. auto.
Qed.

Lemma flag_view_set_end_character :
  forall d q,
    end_character d = 0 ->
    In q [SQUOTE; DQUOTE; BACKTICK] ->
    flag_view (set_end_character d q)
    = (is_format d, is_raw d, is_triple d, is_bytes d, q).
Proof.
  intros d q Hnone Hq.
  destruct (no_end_character d Hnone) as (Hs & Hd & Hb).
  simpl in Hq. destruct Hq as [<-|[<-|[<-|[]]]];
    unfold set_end_character; cbn [Z.eqb SQUOTE DQUOTE BACKTICK Pos.eqb];
    flag_bits; rewrite ?Hs, ?Hd, ?Hb; reflexivity.
Qed.

(** The flag setters and getters fit together: each of the four flag
    setters raises its own flag and leaves the three other flags and the end
    character as they were, whatever the flags held before; and on a
    delimiter that has no end character yet, [set_end_character] with one of
    the three quotes makes that quote the end character and leaves the four
    flags alone. *)
Theorem delimiter_flags_are_independent :
  forall d,
    flag_view (set_format d)
    = (true, is_raw d, is_triple d, is_bytes d, end_character d)
    /\ flag_view (set_raw d)
       = (is_format d, true, is_triple d, is_bytes d, end_character d)
    /\ flag_view (set_triple d)
       = (is_format d, is_raw d, true, is_bytes d, end_character d)
    /\ flag_view (set_bytes d)
       = (is_format d, is_raw d, is_triple d, true, end_character d)
    /\ (forall q,
          end_character d = 0 ->
          In q [SQUOTE; DQUOTE; BACKTICK] ->
          flag_view (set_end_character d q)
          = (is_format d, is_raw d, is_triple d, is_bytes d, q)).
Proof.
  intros d. repeat split.
  - apply flag_view_set_format.
  - apply flag_view_set_raw.
  - apply flag_view_set_triple.
  - apply flag_view_set_bytes.
  - apply flag_view_set_end_character.
Qed.

(** ** Reading a known stretch of input *)

Lemma moved_0 : forall lexer, moved 0 lexer = lexer.
Proof.
  intros [inp pos ts te rs]. unfold moved. simpl. rewrite Nat.add_0_r.
  reflexivity.
Qed.

Lemma advance_moved :
  forall lexer c rest, input lexer = c :: rest -> advance lexer = moved 1 lexer.
Proof.
  intros [inp pos ts te rs] c rest H. simpl in H. subst inp.
  unfold advance, lexer_advance, moved. simpl. rewrite Nat.add_1_r. reflexivity.
Qed.

Lemma moved_moved :
  forall n m lexer, moved m (moved n lexer) = moved (n + m) lexer.
Proof.
  intros n m [inp pos ts te rs]. unfold moved. simpl.
  rewrite skipn_skipn, Nat.add_assoc, (Nat.add_comm m n). reflexivity.
Qed.

Lemma input_moved :
  forall lexer w rest, input lexer = w ++ rest ->
    input (moved (List.length w) lexer) = rest.
Proof.
  intros lexer w rest H. unfold moved. simpl. rewrite H, skipn_app, Nat.sub_diag.
  rewrite skipn_all2 by lia. reflexivity.
Qed.

Lemma lookahead_moved :
  forall lexer w rest, input lexer = w ++ rest ->
    lookahead (moved (List.length w) lexer) = first_of rest.
Proof.
  intros lexer w rest H. unfold lookahead. rewrite (input_moved lexer w rest H).
  destruct rest; reflexivity.
Qed.

Lemma lookahead_first :
  forall lexer, lookahead lexer = first_of (input lexer).
Proof. intros lexer. unfold lookahead. destruct (input lexer); reflexivity. Qed.

Lemma lexer_while_stays :
  forall p n lexer b, p (lookahead lexer) = false -> lexer_while b p n lexer = lexer.
Proof. intros p [|n] lexer b H; simpl; [reflexivity|]. rewrite H. reflexivity. Qed.

Lemma lexer_while_moved :
  forall p w rest, all_pass p w -> p (first_of rest) = false ->
  forall n lexer, input lexer = w ++ rest -> (List.length w <= n)%nat ->
    lexer_while false p n lexer = moved (List.length w) lexer.
Proof.
  intros p w rest Hw Hrest. induction Hw as [|c w Hc Hw IH]; intros n lexer Hin Hn.
  - rewrite moved_0. apply lexer_while_stays.
    rewrite lookahead_first, Hin. exact Hrest.
  - destruct n as [|n]; [simpl in Hn; lia|]. simpl in Hn.
    cbn [lexer_while]. rewrite lookahead_first, Hin. cbn [app first_of hd].
    rewrite Hc.
    change (lexer_advance lexer false) with (advance lexer).
    rewrite (advance_moved lexer c (w ++ rest) Hin).
    rewrite IH; [|apply (input_moved lexer [c]); exact Hin|lia].
    rewrite moved_moved. reflexivity.
Qed.

Lemma advance_while_moved :
  forall p w rest lexer, all_pass p w -> p (first_of rest) = false ->
    input lexer = w ++ rest ->
    advance_while p lexer = moved (List.length w) lexer.
Proof.
  intros p w rest lexer Hw Hrest Hin. unfold advance_while.
  apply (lexer_while_moved p w rest Hw Hrest); [exact Hin|].
  rewrite Hin, length_app. lia.
Qed.

Lemma read_identifier_moved :
  forall w rest, all_pass is_identifier_char w ->
    is_identifier_char (first_of rest) = false ->
  forall room lexer buf, input lexer = w ++ rest -> (List.length w <= room)%nat ->
    read_identifier room lexer buf = (buf ++ w, moved (List.length w) lexer).
Proof.
  intros w rest Hw Hrest. induction Hw as [|c w Hc Hw IH]; intros room lexer buf Hin Hn.
  - rewrite moved_0, app_nil_r. destruct room as [|room]; [reflexivity|].
    cbn [read_identifier]. rewrite lookahead_first, Hin. cbn [app].
    rewrite Hrest. reflexivity.
  - destruct room as [|room]; [simpl in Hn; lia|]. simpl in Hn.
    cbn [read_identifier]. rewrite lookahead_first, Hin. cbn [app first_of hd].
    rewrite Hc. rewrite (advance_moved lexer c (w ++ rest) Hin).
    rewrite IH; [|apply (input_moved lexer [c]); exact Hin|lia].
    rewrite moved_moved, <- app_assoc. reflexivity.
Qed.

Lemma moved_explicit :
  forall w rest pos ts te rs,
    moved (List.length w) (mkLexer (w ++ rest) pos ts te rs)
    = mkLexer rest (pos + List.length w) ts te rs.
Proof.
  intros. unfold moved. cbn [input position token_start token_end result_symbol].
  rewrite skipn_app, Nat.sub_diag, skipn_all2 by lia. reflexivity.
Qed.

(** ** Lines that open with a Python keyword *)

Lemma keyword_shapes :
  forall kw, In kw python_keywords -> keyword_shape kw = true.
Proof.
  assert (H : forallb keyword_shape python_keywords = true)
    by (vm_compute; reflexivity).
  intros kw Hin. rewrite forallb_forall in H. apply H. exact Hin.
Qed.

Lemma all_pass_forallb :
  forall p w, forallb p w = true -> all_pass p w.
Proof.
  intros p w H. unfold all_pass. apply Forall_forall. intros c Hc.
  rewrite forallb_forall in H. apply H. exact Hc.
Qed.

(** Decides a test of the lookahead against a fixed character from what is
    known about the lookahead. *)
Ltac decide_char c H :=
  repeat match goal with
    | |- context [c =? ?k] =>
        let E := fresh "E" in
        destruct (c =? k) eqn:E;
        [ apply Z.eqb_eq in E; exfalso; rewrite E in H; discriminate H
        | clear E ]
    end.

(** A line whose first word is a Python keyword is never a subprocess,
    whatever the rest of the line holds; the one exception is [with] before
    an exclamation mark, the block macro. *)
Theorem keyword_line_is_not_subprocess :
  forall lexer sd kw rest,
    In kw python_keywords ->
    input lexer = codes kw ++ rest ->
    is_identifier_char (first_of rest) = false ->
    (kw = "with"%string ->
     first_of rest <> chr "!" /\ first_of rest <> chr "?") ->
    exists d,
      detect_subprocess_line lexer sd = Return d /\ verdict d = DETECT_NONE.
Proof.
  intros [inp pos ts te rs] sd kw rest Hkw Hin Hrest Hwith.
  cbn [input] in Hin. subst inp.
  pose proof (keyword_shapes kw Hkw) as Hshape. unfold keyword_shape in Hshape.
  cbv zeta in Hshape.
  repeat match type of Hshape with
         | _ && _ = true => apply andb_prop in Hshape as [Hshape ?]
         end.
  rename Hshape into Hstart.
  match goal with H : forallb is_identifier_char _ = true |- _ =>
    apply all_pass_forallb in H; rename H into Hchars end.
  match goal with H : Nat.leb _ 63 = true |- _ =>
    apply Nat.leb_le in H; rename H into Hlen end.
  match goal with H : negb (forallb _ _) = true |- _ =>
    apply negb_true_iff in H; rename H into Hprefix end.
  match goal with H : negb (is_path_prefix _) = true |- _ =>
    apply negb_true_iff in H; rename H into Hpath end.
  match goal with H : is_python_keyword _ = true |- _ => rename H into Hkey end.
  match goal with H : Bool.eqb _ _ = true |- _ =>
    apply Bool.eqb_prop in H; rename H into Hw end.
  unfold detect_subprocess_line, detect_opening.
  set (l0 := mark_end _).
  assert (Hl0 : input l0 = codes kw ++ rest) by reflexivity.
  assert (Hla : lookahead l0 = first_of (codes kw)).
  { rewrite lookahead_first, Hl0. destruct (codes kw); [discriminate|reflexivity]. }
  set (c0 := first_of (codes kw)) in *.
  assert (Hnb : is_whitespace c0 = false).
  { destruct (is_whitespace c0) eqn:E; [|reflexivity].
    unfold is_whitespace in E. apply orb_prop in E as [E|E];
      apply Z.eqb_eq in E; rewrite E in Hstart; discriminate. }
  assert (Hstay : advance_while is_whitespace l0 = l0)
    by (apply lexer_while_stays; rewrite Hla; exact Hnb).
  rewrite Hstay.
  unfold probe. rewrite ?Hla.
  decide_char c0 Hstart.
  repeat (progress (cbn [bind]; rewrite ?Hla); decide_char c0 Hstart).
  unfold first_identifier. rewrite ?Hla, Hstart.
  rewrite (read_identifier_moved (codes kw) rest Hchars Hrest 63 l0 [] Hl0 Hlen).
  cbn [app]. set (l1 := moved _ l0).
  assert (Hl1 : lookahead l1 = first_of rest)
    by (apply lookahead_moved; exact Hl0).
  rewrite Hprefix, Hpath.
  assert (Hfirst :
            forall b : bool,
              (if b then @Fall Detected unit tt else Fall tt) = Fall tt)
    by (intros []; reflexivity).
  cbn [bind]. rewrite Hfirst. cbn [bind]. rewrite Hkey.
  destruct (lookahead l1 =? chr "?") eqn:Eq.
  - destruct (at_end_of_line _); [eexists; split; reflexivity|].
    cbn [bind]. destruct (is_with (codes kw)) eqn:Ew.
    + rewrite ?Ew in Hw. symmetry in Hw. apply String.eqb_eq in Hw.
      destruct (Hwith Hw) as [_ Hq]. apply Z.eqb_eq in Eq.
      rewrite Hl1 in Eq. contradiction.
    + cbn [andb negb bind]. eexists. split; reflexivity.
  - cbn [bind]. destruct (is_with (codes kw)) eqn:Ew.
    + rewrite ?Ew in Hw. symmetry in Hw. apply String.eqb_eq in Hw.
      destruct (Hwith Hw) as [Hb _].
      rewrite Hl1. apply Z.eqb_neq in Hb. rewrite Hb.
      cbn [andb negb bind]. eexists. split; reflexivity.
    + cbn [andb negb bind]. eexists. split; reflexivity.
Qed.

Lemma keyword_line_is_not_subprocess_witness :
  exists d,
    detect_subprocess_line (lexer_on (codes "import os | grep x")) None = Return d
    /\ verdict d = DETECT_NONE.
Proof.
  apply (keyword_line_is_not_subprocess (lexer_on (codes "import os | grep x"))
           None "import" (codes " os | grep x")).
  - unfold python_keywords. simpl. tauto.
  - reflexivity.
  - reflexivity.
  - intros H. discriminate H.
Defined.

(** ** A call that starts at a word *)

Lemma starts_layout_false :
  forall c, starts_layout c = false ->
    (c =? NL) = false /\ (c =? chr " ") = false /\ (c =? CR) = false
    /\ (c =? FF) = false /\ (c =? TAB) = false /\ (c =? chr "#") = false
    /\ (c =? BACKSLASH) = false /\ (c =? 0) = false.
Proof.
  intros c H. unfold starts_layout in H.
  repeat match type of H with
         | _ || _ = false => apply orb_false_elim in H as [H ?]
         end.
  repeat split; assumption.
Qed.

Lemma scan_escape_outside :
  forall scanner lexer valid_symbols,
    outside_string scanner valid_symbols ->
    scan_escape scanner lexer valid_symbols = Fall false.
Proof.
  intros scanner lexer valid_symbols Hout.
  unfold scan_escape. destruct Hout as [Hd|[_ He]].
  - rewrite Hd. cbn [List.length Nat.ltb Nat.leb].
    rewrite andb_false_r. reflexivity.
  - rewrite He. reflexivity.
Qed.

Lemma scan_content_outside :
  forall scanner lexer valid_symbols,
    outside_string scanner valid_symbols ->
    scan_content scanner lexer valid_symbols false = Fall lexer.
Proof.
  intros scanner lexer valid_symbols Hout.
  unfold scan_content. destruct Hout as [Hd|[Hs _]].
  - rewrite Hd. cbn [List.length Nat.ltb Nat.leb].
    rewrite andb_false_r. reflexivity.
  - rewrite Hs. reflexivity.
Qed.

(** Outside a string and away from layout characters, the stages up to
    layout emission only mark the end. *)
Lemma scan_front_at_word :
  forall scanner lexer valid_symbols,
    outside_string scanner valid_symbols ->
    starts_layout (lookahead lexer) = false ->
    scan_front scanner lexer valid_symbols
    = Fall (mkLayout false 0 (-1) (mark_end lexer)).
Proof.
  intros scanner lexer valid_symbols Hout Hc.
  destruct (starts_layout_false _ Hc) as (H1 & H2 & H3 & H4 & H5 & H6 & H7 & H8).
  pose proof (scan_escape_outside scanner lexer valid_symbols Hout) as Hescape.
  pose proof (scan_content_outside scanner lexer valid_symbols Hout) as Hcontent.
  unfold scan_front. rewrite Hescape. cbn [bind]. rewrite Hcontent. cbn [bind].
  assert (Hin : input lexer <> []).
  { apply lookahead_nonzero_input. apply Z.eqb_neq. exact H8. }
  assert (Hlayout : scan_layout scanner lexer valid_symbols
                    = Fall (mkLayout false 0 (-1) (mark_end lexer))).
  { unfold scan_layout. cbn [loop]. unfold layout_body. cbn [here].
    rewrite lookahead_mark_end, H1, H2, H3, H4, H5, H6, H7.
    cbn [orb andb]. unfold eof. cbn [mark_end input].
    destruct (input lexer); [contradiction|reflexivity]. }
  rewrite Hlayout. cbn [bind]. unfold scan_layout_emit. cbn [found_end_of_line bind].
  reflexivity.
Qed.

Lemma scan_operators_at_word :
  forall scanner lexer valid_symbols,
    starts_operator valid_symbols (lookahead lexer) = false ->
    scan_operators scanner lexer valid_symbols = Fall lexer.
Proof.
  intros scanner lexer valid_symbols H. unfold starts_operator in H.
  apply orb_false_elim in H as [Hl Hk].
  unfold scan_operators.
  assert (H1 : scan_logical_operators scanner lexer valid_symbols = Fall lexer).
  { unfold scan_logical_operators.
    destruct (valid_symbols LOGICAL_AND || valid_symbols LOGICAL_OR
              || valid_symbols BACKGROUND_AMP); [|reflexivity].
    cbn [andb] in Hl. apply orb_false_elim in Hl as [Ha Ho].
    rewrite Ha, Ho. reflexivity. }
  rewrite H1. cbn [bind]. unfold scan_keyword_operators.
  destruct (valid_symbols KEYWORD_AND || valid_symbols KEYWORD_OR); [|reflexivity].
  cbn [andb] in Hk. apply orb_false_elim in Hk as [Ha Ho].
  rewrite Ha, Ho. reflexivity.
Qed.

(** Such a call is decided by the stages after operator dispatch. *)
Lemma scan_at_word :
  forall scanner lexer valid_symbols,
    outside_string scanner valid_symbols ->
    starts_layout (lookahead lexer) = false ->
    starts_operator valid_symbols (lookahead lexer) = false ->
    scan scanner lexer valid_symbols
    = run (scan_back scanner (mark_end lexer) valid_symbols (-1)).
Proof.
  intros scanner lexer valid_symbols Hout Hl Ho.
  unfold scan, scan_with. rewrite (scan_front_at_word _ _ _ Hout Hl).
  cbn [bind here first_comment_indent_length].
  rewrite scan_operators_at_word by (rewrite lookahead_mark_end; exact Ho).
  reflexivity.
Qed.

(** ** The detector at an identifier *)

Lemma identifier_start_no_layout :
  forall c, is_identifier_start c = true -> starts_layout c = false.
Proof.
  intros c H. unfold starts_layout.
  repeat match goal with
         | |- context [c =? ?k] =>
             let E := fresh "E" in
             destruct (c =? k) eqn:E;
             [apply Z.eqb_eq in E; rewrite E in H; discriminate H|clear E]
         end.
  reflexivity.
Qed.

Lemma detect_opening_at_identifier :
  forall lexer sd,
    is_identifier_start (lookahead lexer) = true ->
    detect_opening lexer sd
    = ('(first_ident, lexer, pos) <- first_identifier (mark_end lexer) 0 sd ;;
       lexer <- comma_line first_ident lexer sd ;;
       Fall (first_ident, lexer, pos)).
Proof.
  intros lexer sd Hstart. unfold detect_opening, comma_line.
  set (l0 := mark_end lexer).
  assert (Hla : lookahead l0 = lookahead lexer) by reflexivity.
  set (c0 := lookahead lexer) in *.
  assert (Hnb : is_whitespace c0 = false).
  { destruct (is_whitespace c0) eqn:E; [|reflexivity].
    unfold is_whitespace in E. apply orb_prop in E as [E|E];
      apply Z.eqb_eq in E; rewrite E in Hstart; discriminate. }
  assert (Hstay : advance_while is_whitespace l0 = l0)
    by (apply lexer_while_stays; rewrite Hla; exact Hnb).
  rewrite Hstay. unfold probe. rewrite ?Hla.
  decide_char c0 Hstart.
  repeat (progress (cbn [bind]; rewrite ?Hla); decide_char c0 Hstart).
  reflexivity.
Qed.

(** ** Macro lines *)

Lemma is_with_keyword :
  forall w, is_with w = true -> is_python_keyword w = true.
Proof.
  intros w H. unfold is_with in H. apply andb_prop in H as [Hlen Heq].
  apply Nat.eqb_eq in Hlen. apply codes_eqb_eq in Heq.
  rewrite <- Hlen, firstn_all in Heq. subst w. reflexivity.
Qed.

Lemma position_moved :
  forall n lexer, position (moved n lexer) = (position lexer + n)%nat.
Proof. reflexivity. Qed.

Lemma first_of_app :
  forall w rest, w <> [] -> first_of (w ++ rest) = first_of w.
Proof. intros [|c w] rest H; [contradiction|reflexivity]. Qed.

Lemma all_pass_first :
  forall p w, all_pass p w -> w <> [] -> p (first_of w) = true.
Proof. intros p w H Hne. destruct H; [contradiction|assumption]. Qed.

(** The detector on [name! args]: the verdict is the subprocess macro, and
    the lexer is left behind the blanks that follow the exclamation mark. *)
Lemma detect_subprocess_macro :
  forall lexer sd ident ws rest,
    input lexer = ident ++ chr "!" :: ws ++ rest ->
    is_identifier ident ->
    is_python_keyword ident = false ->
    ws <> [] -> all_pass is_whitespace ws ->
    is_whitespace (first_of rest) = false ->
    detect_subprocess_line lexer sd
    = Return {| verdict := DETECT_SUBPROCESS_MACRO;
                after := moved (List.length ident + 1 + List.length ws)
                           (mark_end lexer);
                subprocess_macro_end :=
                  (List.length ident + 1 + List.length ws)%nat;
                string_delimiter := sd |}.
Proof.
  intros lexer sd ident ws rest Hin (Hstart & Hchars & Hlen) Hkey Hne Hws Hrest.
  assert (Hident : ident <> []).
  { intros ->. discriminate Hstart. }
  assert (Hla : lookahead lexer = first_of ident).
  { rewrite lookahead_first, Hin. apply first_of_app. exact Hident. }
  unfold detect_subprocess_line.
  rewrite detect_opening_at_identifier by (rewrite Hla; exact Hstart).
  set (l0 := mark_end lexer).
  assert (Hl0 : input l0 = ident ++ chr "!" :: ws ++ rest) by exact Hin.
  unfold first_identifier.
  replace (lookahead l0) with (first_of ident) by (symmetry; exact Hla).
  rewrite Hstart.
  rewrite (read_identifier_moved ident (chr "!" :: ws ++ rest) Hchars
             eq_refl 63 l0 [] Hl0 Hlen).
  cbn [app]. set (l1 := moved _ l0).
  assert (Hl1 : lookahead l1 = chr "!")
    by (exact (lookahead_moved l0 ident _ Hl0)).
  assert (Hin1 : input l1 = chr "!" :: ws ++ rest)
    by (exact (input_moved l0 ident _ Hl0)).
  rewrite Hl1.
  replace ((chr "!" =? DQUOTE) || (chr "!" =? SQUOTE)) with false by reflexivity.
  rewrite andb_false_r. cbn [bind]. rewrite ?Hl1.
  replace (chr "!" =? chr "?") with false by reflexivity.
  cbn [bind]. rewrite Hkey. cbn [andb bind]. rewrite ?Hl1.
  replace (chr "!" =? chr "!") with true by reflexivity.
  rewrite (advance_moved l1 _ _ Hin1).
  set (l2 := moved 1 l1).
  assert (Hin2 : input l2 = ws ++ rest)
    by (exact (input_moved l1 [chr "!"] _ Hin1)).
  assert (Hl2 : lookahead l2 = first_of ws).
  { rewrite lookahead_first, Hin2. apply first_of_app. exact Hne. }
  rewrite Hl2, (all_pass_first _ _ Hws Hne).
  destruct (is_with ident) eqn:Ew.
  { apply is_with_keyword in Ew. congruence. }
  rewrite (advance_while_moved is_whitespace ws rest l2 Hws Hrest Hin2).
  unfold l2, l1. rewrite !moved_moved, !position_moved. cbn [bind].
  do 2 f_equal; [f_equal|]; lia.
Qed.

(** The detector on [with! ...]: the verdict is the block macro, and the
    lexer is left behind the exclamation mark. *)
Lemma detect_block_macro :
  forall lexer sd w rest,
    input lexer = codes "with!" ++ w :: rest ->
    is_whitespace w = true ->
    detect_subprocess_line lexer sd
    = Return (detected DETECT_BLOCK_MACRO (moved 5 (mark_end lexer)) sd).
Proof.
  intros lexer sd w rest Hin Hw.
  assert (Hla : lookahead lexer = chr "w") by (rewrite lookahead_first, Hin; reflexivity).
  unfold detect_subprocess_line.
  rewrite detect_opening_at_identifier by (rewrite Hla; reflexivity).
  set (l0 := mark_end lexer).
  assert (Hl0 : input l0 = codes "with" ++ chr "!" :: w :: rest) by exact Hin.
  unfold first_identifier.
  replace (lookahead l0) with (chr "w") by (symmetry; exact Hla).
  replace (is_identifier_start (chr "w")) with true by reflexivity.
  rewrite (read_identifier_moved (codes "with") (chr "!" :: w :: rest)
             ltac:(repeat constructor) eq_refl 63 l0 [] Hl0 ltac:(simpl; lia)).
  cbn [app]. set (l1 := moved _ l0).
  assert (Hl1 : lookahead l1 = chr "!")
    by (exact (lookahead_moved l0 (codes "with") _ Hl0)).
  assert (Hin1 : input l1 = chr "!" :: w :: rest)
    by (exact (input_moved l0 (codes "with") _ Hl0)).
  rewrite Hl1.
  replace ((chr "!" =? DQUOTE) || (chr "!" =? SQUOTE)) with false by reflexivity.
  rewrite andb_false_r. cbn [bind]. rewrite ?Hl1.
  replace (chr "!" =? chr "?") with false by reflexivity.
  cbn [bind]. rewrite ?Hl1.
  replace (chr "!" =? chr "!") with true by reflexivity.
  replace (is_with (codes "with")) with true by reflexivity.
  cbn [andb negb bind].
  rewrite (advance_moved l1 _ _ Hin1).
  set (l2 := moved 1 l1).
  assert (Hl2 : lookahead l2 = w)
    by (exact (lookahead_moved l1 [chr "!"] _ Hin1)).
  rewrite Hl2, Hw. cbn [bind].
  unfold l2, l1. rewrite moved_moved. reflexivity.
Qed.

Lemma check_subprocess_at_identifier :
  forall lexer valid_symbols,
    subprocess_context valid_symbols ->
    is_identifier_start (lookahead lexer) = true ->
    check_subprocess lexer valid_symbols (-1) = true.
Proof.
  intros lexer valid_symbols (Hv & Hb & He) Hstart. unfold check_subprocess.
  rewrite Hv, Hb, He. set (c := lookahead lexer) in *.
  decide_char c Hstart. reflexivity.
Qed.

(** The call on [name! args], for a name that is no keyword: the token is
    SUBPROCESS_MACRO_START, it takes in the name, the exclamation mark and
    the blanks after it, and the scanner state stays as it was. *)
Theorem subprocess_macro_token :
  forall scanner lexer valid_symbols ident ws rest,
    outside_string scanner valid_symbols ->
    subprocess_context valid_symbols ->
    valid_symbols SUBPROCESS_MACRO_START = true ->
    starts_operator valid_symbols (first_of ident) = false ->
    input lexer = ident ++ chr "!" :: ws ++ rest ->
    is_identifier ident ->
    is_python_keyword ident = false ->
    ws <> [] -> all_pass is_whitespace ws ->
    is_whitespace (first_of rest) = false ->
    exists r,
      scan scanner lexer valid_symbols = Some r
      /\ emitted r = Some SUBPROCESS_MACRO_START
      /\ scanner_after r = scanner
      /\ token_start (lexer_after r) = token_start lexer
      /\ token_end (lexer_after r)
         = Some (position lexer + List.length ident + 1 + List.length ws)%nat
      /\ input (lexer_after r) = rest.
Proof.
  intros scanner lexer valid_symbols ident ws rest Hout Hctx Hv Hop Hin
    Hident Hkey Hne Hws Hrest.
  assert (Hnonempty : ident <> []).
  { intros ->. destruct Hident as [H _]. discriminate H. }
  assert (Hla : lookahead lexer = first_of ident).
  { rewrite lookahead_first, Hin. apply first_of_app. exact Hnonempty. }
  assert (Hstart : is_identifier_start (lookahead lexer) = true)
    by (rewrite Hla; apply Hident).
  rewrite scan_at_word;
    [|exact Hout|apply identifier_start_no_layout; exact Hstart
     |rewrite Hla; exact Hop].
  unfold scan_back, scan_subprocess.
  rewrite check_subprocess_at_identifier by assumption.
  rewrite (detect_subprocess_macro (mark_end lexer) (Some new_delimiter)
             ident ws rest Hin Hident Hkey Hne Hws Hrest).
  cbn [call bind verdict after DetectResult_eqb andb]. rewrite Hv.
  cbn [bind run finish]. eexists. split; [reflexivity|].
  cbn [emitted token_found lexer_after scanner_after set_result mark_end moved
       result_symbol token_start token_end position input].
  repeat split.
  - f_equal. lia.
  - replace (List.length ident + 1 + List.length ws)%nat
      with (List.length (ident ++ chr "!" :: ws))
      by (rewrite length_app; simpl; lia).
    replace (ident ++ chr "!" :: ws ++ rest)
      with ((ident ++ chr "!" :: ws) ++ rest) in Hin
      by (rewrite <- app_assoc; reflexivity).
    rewrite Hin, skipn_app, Nat.sub_diag, skipn_all2 by lia. reflexivity.
Qed.

(** The call on [with!] before a blank: the token is BLOCK_MACRO_START, it
    ends behind the exclamation mark, and the scanner state stays as it
    was. *)
Theorem block_macro_token :
  forall scanner lexer valid_symbols w rest,
    outside_string scanner valid_symbols ->
    subprocess_context valid_symbols ->
    valid_symbols BLOCK_MACRO_START = true ->
    input lexer = codes "with!" ++ w :: rest ->
    is_whitespace w = true ->
    exists r,
      scan scanner lexer valid_symbols = Some r
      /\ emitted r = Some BLOCK_MACRO_START
      /\ scanner_after r = scanner
      /\ token_start (lexer_after r) = token_start lexer
      /\ token_end (lexer_after r) = Some (position lexer + 5)%nat
      /\ input (lexer_after r) = w :: rest.
Proof.
  intros scanner lexer valid_symbols w rest Hout Hctx Hv Hin Hw.
  assert (Hla : lookahead lexer = chr "w")
    by (rewrite lookahead_first, Hin; reflexivity).
  rewrite scan_at_word;
    [|exact Hout|rewrite Hla; reflexivity
     |rewrite Hla; unfold starts_operator; cbn;
      rewrite !andb_false_r; reflexivity].
  unfold scan_back, scan_subprocess.
  rewrite check_subprocess_at_identifier;
    [|exact Hctx|rewrite lookahead_mark_end, Hla; reflexivity].
  rewrite (detect_block_macro (mark_end lexer) (Some new_delimiter) w rest Hin Hw).
  cbn [call bind verdict after detected DetectResult_eqb andb]. rewrite Hv.
  cbn [bind run finish]. eexists. split; [reflexivity|].
  cbn [emitted token_found lexer_after scanner_after set_result mark_end moved
       result_symbol token_start token_end position input].
  repeat split. rewrite Hin. reflexivity.
Qed.

(** ** String starts *)

Lemma prefix_letter_cases :
  forall c, is_prefix_letter c = true ->
    c = chr "f" \/ c = chr "F" \/ c = chr "r" \/ c = chr "R"
    \/ c = chr "b" \/ c = chr "B" \/ c = chr "u" \/ c = chr "U".
Proof.
  intros c H. unfold is_prefix_letter in H.
  repeat match type of H with
         | _ || _ = true => apply orb_prop in H as [H|H]
         end;
    apply Z.eqb_eq in H; tauto.
Qed.

(** Evaluates the tests between fixed characters. *)
Ltac eval_tests :=
  repeat match goal with
    | |- context [?a =? ?b] =>
        let v := eval vm_compute in (a =? b) in
        lazymatch v with
        | true => change (a =? b) with true
        | false => change (a =? b) with false
        end
    end;
  cbn [orb andb negb].

Ltac prefix_letter c H :=
  apply prefix_letter_cases in H;
  destruct H as [H|[H|[H|[H|[H|[H|[H|H]]]]]]]; subst c.

Lemma prefix_letter_identifier :
  forall c, is_prefix_letter c = true ->
    is_identifier_start c = true /\ is_identifier_char c = true.
Proof. intros c H. prefix_letter c H; split; reflexivity. Qed.

Lemma prefix_flag_view :
  forall d c, is_prefix_letter c = true ->
    flag_view (prefix_flag d c)
    = (is_format d || mentions (chr "f") (chr "F") [c],
       is_raw d || mentions (chr "r") (chr "R") [c],
       is_triple d,
       is_bytes d || mentions (chr "b") (chr "B") [c],
       end_character d).
Proof.
  intros d c H.
  pose proof (flag_view_set_format d) as Hf.
  pose proof (flag_view_set_raw d) as Hr.
  pose proof (flag_view_set_bytes d) as Hb.
  prefix_letter c H; unfold prefix_flag, mentions; cbn [existsb]; eval_tests;
    rewrite ?Hf, ?Hr, ?Hb, ?orb_true_r, ?orb_false_r; reflexivity.
Qed.
Lemma flag_view_parts :
  forall d f r t b e,
    flag_view d = (f, r, t, b, e) ->
    is_format d = f /\ is_raw d = r /\ is_triple d = t /\ is_bytes d = b
    /\ end_character d = e.
Proof. intros d f r t b e H. injection H as <- <- <- <- <-. auto. Qed.

Lemma fold_prefix_view :
  forall prefix d, all_pass is_prefix_letter prefix ->
    flag_view (fold_left prefix_flag prefix d)
    = (is_format d || mentions (chr "f") (chr "F") prefix,
       is_raw d || mentions (chr "r") (chr "R") prefix,
       is_triple d,
       is_bytes d || mentions (chr "b") (chr "B") prefix,
       end_character d).
Proof.
  intros prefix d H. revert d.
  induction H as [|c w Hc Hw IH]; intros d.
  - cbn [fold_left mentions existsb]. rewrite !orb_false_r. reflexivity.
  - cbn [fold_left]. rewrite IH.
    destruct (flag_view_parts _ _ _ _ _ _ (prefix_flag_view d c Hc))
      as (-> & -> & -> & -> & ->).
    unfold mentions. cbn [existsb]. rewrite !orb_false_r, !orb_assoc.
    reflexivity.
Qed.

Lemma plain_quote_cases :
  forall q, is_plain_quote q = true -> q = SQUOTE \/ q = DQUOTE.
Proof.
  intros q H. unfold is_plain_quote in H.
  apply orb_prop in H as [H|H]; apply Z.eqb_eq in H; auto.
Qed.

(** The prefix loop of the string-start stage reads the prefix letters and
    stops at the quote. *)
Lemma string_prefix_reads :
  forall prefix q rest, all_pass is_prefix_letter prefix ->
    is_plain_quote q = true ->
  forall n d has_flags lexer,
    input lexer = prefix ++ q :: rest -> (List.length prefix <= n)%nat ->
    string_prefix n d has_flags lexer
    = (fold_left prefix_flag prefix d,
       has_flags || negb (Nat.eqb (List.length prefix) 0),
       moved (List.length prefix) lexer).
Proof.
  intros prefix q rest Hp Hq.
  induction Hp as [|c w Hc Hw IH]; intros n d has_flags lexer Hin Hn.
  - cbn [fold_left List.length Nat.eqb negb]. rewrite orb_false_r, moved_0.
    destruct n as [|n]; [reflexivity|].
    cbn [string_prefix]. rewrite lookahead_first, Hin. cbn [app first_of hd].
    apply plain_quote_cases in Hq as [->| ->]; eval_tests; reflexivity.
  - destruct n as [|n]; [simpl in Hn; lia|]. simpl in Hn.
    cbn [string_prefix]. rewrite lookahead_first, Hin. cbn [app first_of hd].
    rewrite (advance_moved lexer c (w ++ q :: rest) Hin).
    assert (Hnext : input (moved 1 lexer) = w ++ q :: rest)
      by (exact (input_moved lexer [c] _ Hin)).
    cbn [fold_left List.length Nat.eqb negb]. rewrite orb_true_r.
    prefix_letter c Hc; eval_tests;
      rewrite (IH n _ true (moved 1 lexer) Hnext ltac:(lia));
      rewrite moved_moved; reflexivity.
Qed.

(** The detector on prefix letters before a quote: the verdict is the
    string, with the flags of the letters, and the lexer left at the quote. *)
Lemma detect_string_prefix :
  forall lexer sd prefix q rest,
    input lexer = prefix ++ q :: rest ->
    prefix <> [] -> all_pass is_prefix_letter prefix ->
    (List.length prefix <= 3)%nat ->
    is_plain_quote q = true ->
    detect_subprocess_line lexer (Some sd)
    = Return {| verdict := DETECT_STRING;
                after := moved (List.length prefix) (mark_end lexer);
                subprocess_macro_end := 0;
                string_delimiter :=
                  Some (fold_left prefix_flag prefix new_delimiter) |}.
Proof.
  intros lexer sd prefix q rest Hin Hne Hp Hlen Hq.
  assert (Hla : lookahead lexer = first_of prefix).
  { rewrite lookahead_first, Hin. apply first_of_app. exact Hne. }
  assert (Hstart : is_identifier_start (first_of prefix) = true).
  { destruct Hp as [|c w Hc _]; [contradiction|].
    apply prefix_letter_identifier. exact Hc. }
  assert (Hchars : all_pass is_identifier_char prefix).
  { unfold all_pass in *. eapply Forall_impl; [|exact Hp].
    intros c Hc. apply prefix_letter_identifier. exact Hc. }
  assert (Hquote : is_identifier_char (first_of (q :: rest)) = false).
  { apply plain_quote_cases in Hq as [->| ->]; reflexivity. }
  unfold detect_subprocess_line.
  rewrite detect_opening_at_identifier by (rewrite Hla; exact Hstart).
  set (l0 := mark_end lexer).
  assert (Hl0 : input l0 = prefix ++ q :: rest) by exact Hin.
  unfold first_identifier.
  replace (lookahead l0) with (first_of prefix) by (symmetry; exact Hla).
  rewrite Hstart.
  rewrite (read_identifier_moved prefix (q :: rest) Hchars Hquote 63 l0 []
             Hl0 ltac:(lia)).
  cbn [app]. set (l1 := moved _ l0).
  assert (Hl1 : lookahead l1 = q) by (exact (lookahead_moved l0 prefix _ Hl0)).
  rewrite Hl1.
  assert (H1 : Nat.leb 1 (List.length prefix) = true).
  { destruct prefix; [contradiction|reflexivity]. }
  assert (H3 : Nat.leb (List.length prefix) 3 = true)
    by (apply Nat.leb_le; exact Hlen).
  assert (Hall : forallb is_prefix_letter prefix = true).
  { apply forallb_forall. intros c Hc. unfold all_pass in Hp.
    rewrite Forall_forall in Hp. apply Hp. exact Hc. }
  assert (Hqq : (q =? DQUOTE) || (q =? SQUOTE) = true).
  { apply plain_quote_cases in Hq as [->| ->]; reflexivity. }
  rewrite H1, H3, Hqq, Hall. reflexivity.
Qed.

(** The opening quote, once or three times: the delimiter gets the quote as
    its end character, and the triple flag when two more quotes follow; the
    end of the token is marked behind the one quote or the three. *)
Lemma open_quotes_at_quote :
  forall d lexer q rest,
    input lexer = q :: rest ->
    is_plain_quote q = true ->
    open_quotes d lexer
    = ((if opens_triple q rest
        then set_triple (set_end_character d q)
        else set_end_character d q),
       snd (open_quotes d lexer))
    /\ token_start (snd (open_quotes d lexer)) = token_start lexer
    /\ token_end (snd (open_quotes d lexer))
       = Some (position lexer + (if opens_triple q rest then 3 else 1))%nat.
Proof.
  intros d [inp pos ts te rs] q rest Hin Hq. cbn [input] in Hin. subst inp.
  unfold open_quotes, open_quote, lookahead, advance, lexer_advance, mark_end,
    opens_triple.
  cbn [input position token_start token_end result_symbol].
  apply plain_quote_cases in Hq as [->| ->]; eval_tests;
    destruct rest as [|a [|b rest]];
    cbn [input position token_start token_end result_symbol snd fst];
    eval_tests;
    repeat match goal with
      | |- context [?x =? ?k] => destruct (x =? k) eqn:?
      end;
    cbn [input position token_start token_end result_symbol snd fst andb];
    repeat split; try reflexivity; f_equal; lia.
Qed.

Lemma first_of_prefixed :
  forall prefix q rest,
    all_pass is_prefix_letter prefix -> is_plain_quote q = true ->
    is_prefix_letter (first_of (prefix ++ q :: rest)) = true
    \/ is_plain_quote (first_of (prefix ++ q :: rest)) = true.
Proof.
  intros prefix q rest Hp Hq. destruct Hp as [|c w Hc _]; [right|left]; assumption.
Qed.

Lemma prefixed_no_layout :
  forall c, is_prefix_letter c = true \/ is_plain_quote c = true ->
    starts_layout c = false.
Proof.
  intros c [H|H].
  - prefix_letter c H; reflexivity.
  - apply plain_quote_cases in H as [->| ->]; reflexivity.
Qed.

Lemma prefixed_no_operator :
  forall valid_symbols c,
    is_prefix_letter c = true \/ is_plain_quote c = true ->
    starts_operator valid_symbols c = false.
Proof.
  intros valid_symbols c [H|H].
  - prefix_letter c H; unfold starts_operator; eval_tests;
      rewrite ?andb_false_r; reflexivity.
  - apply plain_quote_cases in H as [->| ->]; unfold starts_operator;
      eval_tests; rewrite ?andb_false_r; reflexivity.
Qed.

Lemma prefixed_no_path_prefix :
  forall scanner lexer valid_symbols first_comment,
    is_prefix_letter (lookahead lexer) = true
    \/ is_plain_quote (lookahead lexer) = true ->
    scan_path_prefix scanner lexer valid_symbols first_comment = Fall lexer.
Proof.
  intros scanner lexer valid_symbols first_comment H. unfold scan_path_prefix.
  destruct (_ && _); [|reflexivity].
  remember (lookahead lexer) as c eqn:Ec. clear Ec. destruct H as [H|H].
  - prefix_letter c H; reflexivity.
  - apply plain_quote_cases in H as [->| ->]; reflexivity.
Qed.

(** The delimiter that the opening quotes complete. *)
Lemma opened_delimiter_view :
  forall prefix lexer q rest,
    all_pass is_prefix_letter prefix ->
    input lexer = q :: rest ->
    is_plain_quote q = true ->
    flag_view (fst (open_quotes (fold_left prefix_flag prefix new_delimiter) lexer))
    = (mentions (chr "f") (chr "F") prefix,
       mentions (chr "r") (chr "R") prefix,
       opens_triple q rest,
       mentions (chr "b") (chr "B") prefix,
       q).
Proof.
  intros prefix lexer q rest Hp Hin Hq.
  set (d0 := fold_left prefix_flag prefix new_delimiter).
  destruct (open_quotes_at_quote d0 lexer q rest Hin Hq) as (-> & _).
  cbn [fst].
  destruct (flag_view_parts _ _ _ _ _ _ (fold_prefix_view prefix new_delimiter Hp))
    as (Hf & Hr & Ht & Hb & He).
  fold d0 in Hf, Hr, Ht, Hb, He. cbn [orb] in Hf, Hr, Hb.
  assert (Hview : flag_view (set_end_character d0 q)
                  = (is_format d0, is_raw d0, is_triple d0, is_bytes d0, q)).
  { apply flag_view_set_end_character; [exact He|].
    apply plain_quote_cases in Hq as [->| ->]; simpl; auto. }
  destruct (flag_view_parts _ _ _ _ _ _ Hview) as (Hf' & Hr' & Ht' & Hb' & He').
  destruct (opens_triple q rest).
  - rewrite flag_view_set_triple, Hf', Hr', Hb', He', Hf, Hr, Hb. reflexivity.
  - rewrite Hview, Hf, Hr, Hb, Ht. reflexivity.
Qed.

(** Both ways to a prefixed string, through the subprocess detector and
    through the string-start stage, open the same string. *)
Lemma scan_back_prefixed_string :
  forall scanner lexer valid_symbols prefix q rest,
    valid_symbols STRING_START = true ->
    input lexer = prefix ++ q :: rest ->
    all_pass is_prefix_letter prefix ->
    (List.length prefix <= 3)%nat ->
    is_plain_quote q = true ->
    scan_back scanner (mark_end lexer) valid_symbols (-1)
    = finish true STRING_START
        (snd (open_quotes (fold_left prefix_flag prefix new_delimiter)
                (moved (List.length prefix) (mark_end lexer))))
        (push_delimiter scanner
           (fst (open_quotes (fold_left prefix_flag prefix new_delimiter)
                   (moved (List.length prefix) (mark_end lexer))))).
Proof.
  intros scanner lexer valid_symbols prefix q rest Hv Hin Hp Hlen Hq.
  set (l0 := mark_end lexer).
  assert (Hl0 : input l0 = prefix ++ q :: rest) by exact Hin.
  set (d0 := fold_left prefix_flag prefix new_delimiter).
  set (l1 := moved (List.length prefix) l0).
  assert (Hl1 : input l1 = q :: rest) by (exact (input_moved l0 prefix _ Hl0)).
  assert (Hend : negb (end_character (fst (open_quotes d0 l1)) =? 0) = true).
  { destruct (flag_view_parts _ _ _ _ _ _
                (opened_delimiter_view prefix l1 q rest Hp Hl1 Hq))
      as (_ & _ & _ & _ & He).
    fold d0 in He. rewrite He.
    apply plain_quote_cases in Hq as [->| ->]; reflexivity. }
  assert (Hfirst : is_prefix_letter (lookahead l0) = true
                   \/ is_plain_quote (lookahead l0) = true).
  { rewrite lookahead_first, Hl0. apply first_of_prefixed; assumption. }
  unfold scan_back, scan_subprocess.
  destruct (check_subprocess l0 valid_symbols (-1)) eqn:Hcheck.
  - assert (Hne : prefix <> []).
    { intros ->. unfold check_subprocess in Hcheck.
      rewrite lookahead_first, Hl0 in Hcheck. cbn [app first_of hd] in Hcheck.
      apply plain_quote_cases in Hq as [Hq|Hq]; rewrite Hq in Hcheck;
        revert Hcheck; eval_tests; rewrite !andb_false_r; discriminate. }
    rewrite (detect_string_prefix l0 new_delimiter prefix q rest Hl0 Hne Hp Hlen Hq).
    cbn [call bind verdict after string_delimiter DetectResult_eqb andb].
    rewrite Hv. change (mark_end l0) with l0. fold d0 l1.
    destruct (open_quotes d0 l1) as [d l'] eqn:Eo. cbn [fst snd] in *.
    rewrite Hend. reflexivity.
  - cbn [bind].
    rewrite (prefixed_no_path_prefix scanner l0 valid_symbols (-1) Hfirst).
    cbn [bind]. unfold scan_string_start. rewrite Hv. cbn [Z.eqb andb].
    rewrite (string_prefix_reads prefix q rest Hp Hq _ new_delimiter false l0 Hl0)
      by (rewrite Hl0, length_app; lia).
    fold d0 l1.
    assert (Hla1 : lookahead l1 = q) by (rewrite lookahead_first, Hl1; reflexivity).
    rewrite Hla1.
    replace (q =? BACKTICK) with false
      by (apply plain_quote_cases in Hq as [->| ->]; reflexivity).
    destruct (open_quotes d0 l1) as [d l'] eqn:Eo. cbn [fst snd] in *.
    rewrite Hend. reflexivity.
Qed.

(** A string literal with up to three prefix letters: the call reports
    STRING_START and pushes a delimiter that has the quote as its end
    character, the format, raw and bytes flags as the letters say, and the
    triple flag when the quote comes three times; [inside_f_string] follows
    the format flag, and the token ends behind the opening quote or
    quotes.  This holds whether or not the subprocess detector looks at the
    line first. *)
Theorem string_start_token :
  forall scanner lexer valid_symbols prefix q rest,
    outside_string scanner valid_symbols ->
    valid_symbols STRING_START = true ->
    input lexer = prefix ++ q :: rest ->
    all_pass is_prefix_letter prefix ->
    (List.length prefix <= 3)%nat ->
    is_plain_quote q = true ->
    exists r d,
      scan scanner lexer valid_symbols = Some r
      /\ emitted r = Some STRING_START
      /\ scanner_after r
         = {| indents := indents scanner;
              delimiters := delimiters scanner ++ [d];
              inside_f_string := mentions (chr "f") (chr "F") prefix |}
      /\ flag_view d
         = (mentions (chr "f") (chr "F") prefix,
            mentions (chr "r") (chr "R") prefix,
            opens_triple q rest,
            mentions (chr "b") (chr "B") prefix,
            q)
      /\ token_start (lexer_after r) = token_start lexer
      /\ token_end (lexer_after r)
         = Some (position lexer + List.length prefix
                 + (if opens_triple q rest then 3 else 1))%nat.
Proof.
  intros scanner lexer valid_symbols prefix q rest Hout Hv Hin Hp Hlen Hq.
  assert (Hfirst : is_prefix_letter (lookahead lexer) = true
                   \/ is_plain_quote (lookahead lexer) = true).
  { rewrite lookahead_first, Hin. apply first_of_prefixed; assumption. }
  rewrite scan_at_word;
    [|exact Hout|apply prefixed_no_layout; exact Hfirst
     |apply prefixed_no_operator; exact Hfirst].
  rewrite (scan_back_prefixed_string scanner lexer valid_symbols prefix q rest)
    by assumption.
  set (l1 := moved (List.length prefix) (mark_end lexer)).
  assert (Hl1 : input l1 = q :: rest)
    by (exact (input_moved (mark_end lexer) prefix _ Hin)).
  pose proof (opened_delimiter_view prefix l1 q rest Hp Hl1 Hq) as Hview.
  destruct (open_quotes_at_quote (fold_left prefix_flag prefix new_delimiter)
              l1 q rest Hl1 Hq) as (_ & Hts & Hte).
  eexists. eexists. split; [reflexivity|].
  cbn [emitted token_found lexer_after scanner_after set_result
       result_symbol token_start token_end].
  split; [reflexivity|]. split.
  { unfold push_delimiter, array_push. f_equal.
    destruct (flag_view_parts _ _ _ _ _ _ Hview) as (-> & _). reflexivity. }
  split; [exact Hview|]. split; [exact Hts|].
  rewrite Hte. reflexivity.
Qed.

(** ** Path prefixes *)

Lemma path_prefix_cases :
  forall w, is_path_prefix w = true -> In w (map codes path_prefixes).
Proof.
  intros [|a [|b [|c w]]] H; try discriminate; unfold is_path_prefix in H.
  - apply orb_prop in H as [H|H]; apply Z.eqb_eq in H; subst a;
      simpl; tauto.
  - apply andb_prop in H as [Ha Hb].
    apply orb_prop in Ha as [Ha|Ha]; apply Z.eqb_eq in Ha; subst a;
      repeat match type of Hb with
             | _ || _ = true => apply orb_prop in Hb as [Hb|Hb]
             end;
      apply Z.eqb_eq in Hb; subst b; simpl; tauto.
Qed.

Lemma path_prefix_shapes :
  forall w, is_path_prefix w = true -> path_prefix_shape w = true.
Proof.
  assert (H : forallb path_prefix_shape (map codes path_prefixes) = true)
    by (vm_compute; reflexivity).
  intros w Hw. rewrite forallb_forall in H. apply H.
  apply path_prefix_cases. exact Hw.
Qed.

Lemma path_prefix_facts :
  forall w, is_path_prefix w = true ->
    w <> []
    /\ is_identifier_start (first_of w) = true
    /\ all_pass is_identifier_char w
    /\ Nat.leb 1 (List.length w) = true /\ Nat.leb (List.length w) 3 = true
    /\ forallb is_prefix_letter w = false
    /\ (first_of w = chr "p" \/ first_of w = chr "P").
Proof.
  intros w Hw. pose proof (path_prefix_shapes w Hw) as H.
  unfold path_prefix_shape in H.
  repeat match type of H with
         | _ && _ = true => apply andb_prop in H as [H ?]
         end.
  split; [intros ->; discriminate Hw|].
  split; [assumption|]. split; [apply all_pass_forallb; assumption|].
  split; [assumption|]. split; [assumption|].
  split; [apply negb_true_iff; assumption|].
  match goal with H : _ || _ = true |- _ =>
    apply orb_prop in H as [H|H]; apply Z.eqb_eq in H; auto end.
Qed.

(** The detector on a path prefix before a quote: the verdict is the path
    prefix, and the lexer is left at the quote. *)
Lemma detect_path_prefix :
  forall lexer sd w q rest,
    input lexer = w ++ q :: rest ->
    is_path_prefix w = true ->
    is_plain_quote q = true ->
    detect_subprocess_line lexer sd
    = Return (detected DETECT_PATH_PREFIX
                (moved (List.length w) (mark_end lexer)) sd).
Proof.
  intros lexer sd w q rest Hin Hw Hq.
  destruct (path_prefix_facts w Hw) as (Hne & Hstart & Hchars & H1 & H3 & Hall & _).
  assert (Hla : lookahead lexer = first_of w).
  { rewrite lookahead_first, Hin. apply first_of_app. exact Hne. }
  assert (Hquote : is_identifier_char (first_of (q :: rest)) = false).
  { apply plain_quote_cases in Hq as [->| ->]; reflexivity. }
  unfold detect_subprocess_line.
  rewrite detect_opening_at_identifier by (rewrite Hla; exact Hstart).
  set (l0 := mark_end lexer).
  assert (Hl0 : input l0 = w ++ q :: rest) by exact Hin.
  unfold first_identifier.
  replace (lookahead l0) with (first_of w) by (symmetry; exact Hla).
  rewrite Hstart.
  rewrite (read_identifier_moved w (q :: rest) Hchars Hquote 63 l0 []
             Hl0 ltac:(apply Nat.leb_le in H3; lia)).
  cbn [app]. set (l1 := moved _ l0).
  assert (Hl1 : lookahead l1 = q) by (exact (lookahead_moved l0 w _ Hl0)).
  rewrite Hl1.
  assert (Hqq : (q =? DQUOTE) || (q =? SQUOTE) = true).
  { apply plain_quote_cases in Hq as [->| ->]; reflexivity. }
  rewrite H1, H3, Hqq, Hall, Hw. reflexivity.
Qed.

(** The path-prefix stage on a path prefix before a quote. *)
Lemma scan_path_prefix_reads :
  forall scanner lexer valid_symbols w q rest,
    valid_symbols PATH_PREFIX = true ->
    input lexer = w ++ q :: rest ->
    is_path_prefix w = true ->
    is_plain_quote q = true ->
    scan_path_prefix scanner lexer valid_symbols (-1)
    = finish true PATH_PREFIX (mark_end (moved (List.length w) lexer)) scanner.
Proof.
  intros scanner [inp pos ts te rs] valid_symbols w q rest Hv Hin Hw Hq.
  cbn [input] in Hin. subst inp.
  unfold scan_path_prefix. rewrite Hv.
  apply path_prefix_cases in Hw. simpl in Hw.
  apply plain_quote_cases in Hq.
  repeat match type of Hw with
         | _ \/ _ => destruct Hw as [Hw|Hw]
         | False => contradiction
         end;
    subst w; destruct Hq as [->| ->];
    unfold moved, lookahead, advance, lexer_advance, mark_end, finish;
    cbn [app codes input position token_start token_end result_symbol skipn
         List.length];
    eval_tests; unfold is_plain_quote; eval_tests;
    rewrite ?Nat.add_1_r; try reflexivity;
    replace (pos + 2)%nat with (S (S pos)) by lia; reflexivity.
Qed.

(** A path prefix directly before a quote: the call reports PATH_PREFIX for
    the letters alone, so that the string behind them is opened by the next
    call; the scanner state stays as it was.  This holds whether or not the
    subprocess detector looks at the line first. *)
Theorem path_prefix_token :
  forall scanner lexer valid_symbols w q rest,
    outside_string scanner valid_symbols ->
    valid_symbols PATH_PREFIX = true ->
    input lexer = w ++ q :: rest ->
    is_path_prefix w = true ->
    is_plain_quote q = true ->
    exists r,
      scan scanner lexer valid_symbols = Some r
      /\ emitted r = Some PATH_PREFIX
      /\ scanner_after r = scanner
      /\ token_start (lexer_after r) = token_start lexer
      /\ token_end (lexer_after r) = Some (position lexer + List.length w)%nat
      /\ input (lexer_after r) = q :: rest.
Proof.
  intros scanner lexer valid_symbols w q rest Hout Hv Hin Hw Hq.
  destruct (path_prefix_facts w Hw) as (Hne & Hstart & _ & _ & _ & _ & Hp).
  assert (Hla : lookahead lexer = first_of w).
  { rewrite lookahead_first, Hin. apply first_of_app. exact Hne. }
  rewrite scan_at_word;
    [|exact Hout|apply identifier_start_no_layout; rewrite Hla; exact Hstart|].
  2:{ rewrite Hla. destruct Hp as [-> | ->]; unfold starts_operator;
        eval_tests; rewrite ?andb_false_r; reflexivity. }
  assert (Hresult :
            scan_back scanner (mark_end lexer) valid_symbols (-1)
            = finish true PATH_PREFIX
                (mark_end (moved (List.length w) (mark_end lexer))) scanner).
  { unfold scan_back, scan_subprocess.
    destruct (check_subprocess _ _ _).
    - rewrite (detect_path_prefix (mark_end lexer) (Some new_delimiter)
                 w q rest Hin Hw Hq).
      cbn [call bind verdict after detected DetectResult_eqb andb].
      rewrite Hv. reflexivity.
    - cbn [bind].
      rewrite (scan_path_prefix_reads scanner (mark_end lexer) valid_symbols
                 w q rest Hv Hin Hw Hq).
      reflexivity. }
  rewrite Hresult. eexists. split; [reflexivity|].
  cbn [emitted token_found lexer_after scanner_after set_result mark_end moved
       result_symbol token_start token_end position input].
  repeat split. rewrite Hin, skipn_app, Nat.sub_diag, skipn_all2 by lia.
  reflexivity.
Qed.

(** ** The rest-of-line loop only ever raises signals *)

Ltac signals_simpl :=
  cbn [signals cursor in_string prev_was_flag python_eval_depth
       prev_was_ident_no_space prev_was_space seen_shell_signal
       set_cursor set_signals set_in_string set_string_char
       set_prev_was_ident_no_space set_prev_was_space set_seen_shell_signal
       set_prev_was_flag set_python_eval_depth signal shell_signal].

Lemma raise_keeps :
  forall sig x (s : Signals), s x = true -> raise sig s x = true.
Proof. intros sig x s H. unfold raise. destruct (Signal_beq x sig); auto. Qed.

Lemma line_scan_body_keeps_signal :
  forall x s s',
    line_scan_body s = Next s' -> signals s x = true -> signals s' x = true.
Proof.
  intros x s s' E H. unfold line_scan_body in E.
  destruct (_ && _); [|discriminate]. injection E as <-.
  repeat (signals_simpl;
          lazymatch goal with
          | |- signals (if ?b then _ else _) _ = true => destruct b eqn:?
          end).
  all: signals_simpl.
  all: repeat match goal with
         | |- context [if ?b then _ else _] => destruct b eqn:?
         end.
  all: signals_simpl; repeat apply raise_keeps; exact H.
Qed.

Lemma python_signal_kept :
  forall s s',
    (forall x, signals s x = true -> signals s' x = true) ->
    python_signal (signals s) = true -> python_signal (signals s') = true.
Proof.
  intros s s' Hk H. unfold python_signal in *.
  repeat match type of H with
         | _ || _ = true => apply orb_prop in H as [H|H]
         end;
    apply Hk in H; rewrite H, ?orb_true_r; reflexivity.
Qed.

Lemma reaches_trans :
  forall {R B S : Type} (body : S -> iteration R B S) s t u,
    reaches body s t -> reaches body t u -> reaches body s u.
Proof.
  intros R B S body s t u H. induction H as [s|s s' t E _ IH]; intros Hu.
  - exact Hu.
  - eapply reaches_next; [exact E|]. apply IH. exact Hu.
Qed.

(** A Python signal that is up at some point of the loop decides the line:
    nothing that the loop reads later takes it back. *)
Lemma python_signal_decides :
  forall first_ident lexer s,
    reaches line_scan_body (line_scan_start first_ident lexer) s ->
    python_signal (signals s) = true ->
    exists t,
      line_scan first_ident lexer = Fall t
      /\ line_decision (signals t) first_ident = DETECT_NONE.
Proof.
  intros first_ident lexer s Hreach Hsig.
  destruct (line_scan_falls first_ident lexer) as [t Ht].
  exists t. split; [exact Ht|].
  unfold line_scan in Ht.
  destruct (loop_from_reached line_scan_body (fun s => remaining (cursor s))
              line_scan_body_shrinks _ _ Hreach
              (S (List.length (input lexer))))
    as (fuel' & _ & Heq).
  { unfold remaining. simpl. lia. }
  rewrite Heq in Ht.
  pose proof (loop_invariant line_scan_body
                (fun u => python_signal (signals u) = true) any
                (fun u => python_signal (signals u) = true)) as Hinv.
  specialize (Hinv (fun u u' Hu E =>
                      python_signal_kept u u'
                        (fun x => line_scan_body_keeps_signal x u u' E) Hu)).
  specialize (Hinv (fun _ _ _ _ => I)).
  specialize (Hinv (fun u b Hu E =>
                      eq_ind_r (fun b => python_signal (signals b) = true) Hu
                        (line_scan_body_break u b E))).
  specialize (Hinv fuel' s Hsig). rewrite Ht in Hinv.
  unfold line_decision. rewrite Hinv. reflexivity.
Qed.

(** ** Lines that open with a word *)

(** The opening analysis on a word that is no keyword and is followed by
    nothing that it acts on: it hands the word to the rest-of-line loop. *)
Lemma detect_opening_word :
  forall lexer sd ident rest,
    input lexer = ident ++ rest ->
    is_identifier ident ->
    is_python_keyword ident = false ->
    is_identifier_char (first_of rest) = false ->
    ends_opening (first_of rest) = false ->
    detect_opening lexer sd
    = Fall (ident, moved (List.length ident) (mark_end lexer), List.length ident).
Proof.
  intros lexer sd ident rest Hin (Hstart & Hchars & Hlen) Hkey Hrest Hends.
  assert (Hne : ident <> []) by (intros ->; discriminate Hstart).
  assert (Hla : lookahead lexer = first_of ident).
  { rewrite lookahead_first, Hin. apply first_of_app. exact Hne. }
  unfold ends_opening in Hends.
  repeat match type of Hends with
         | _ || _ = false => apply orb_false_elim in Hends as [Hends ?]
         end.
  rewrite detect_opening_at_identifier by (rewrite Hla; exact Hstart).
  set (l0 := mark_end lexer).
  assert (Hl0 : input l0 = ident ++ rest) by exact Hin.
  unfold first_identifier.
  replace (lookahead l0) with (first_of ident) by (symmetry; exact Hla).
  rewrite Hstart.
  rewrite (read_identifier_moved ident rest Hchars Hrest 63 l0 [] Hl0 Hlen).
  cbn [app]. set (l1 := moved _ l0).
  assert (Hl1 : lookahead l1 = first_of rest)
    by (exact (lookahead_moved l0 ident _ Hl0)).
  set (c := first_of rest) in *.
  repeat (rewrite ?Hl1;
          repeat match goal with
            | H : (c =? ?k) = false |- _ => rewrite H
            end;
          rewrite ?Hkey; cbn [orb andb negb bind]; rewrite ?andb_false_r).
  unfold comma_line.
  replace (Nat.eqb (List.length ident) 0) with false
    by (destruct ident; [contradiction|reflexivity]).
  reflexivity.
Qed.

(** A line that is one word: the loop has nothing to read, and the word is
    a subprocess exactly when it is in the table of shell commands. *)
Theorem single_word_line :
  forall lexer sd ident rest,
    input lexer = ident ++ rest ->
    is_identifier ident ->
    is_python_keyword ident = false ->
    first_of rest = NL \/ first_of rest = 0 ->
    exists d,
      detect_subprocess_line lexer sd = Return d
      /\ verdict d
         = (if is_shell_command ident then DETECT_SUBPROCESS else DETECT_NONE)
      /\ after d = moved (List.length ident) (mark_end lexer).
Proof.
  intros lexer sd ident rest Hin Hident Hkey Hend.
  assert (Hne : ident <> []).
  { intros ->. destruct Hident as [H _]. discriminate H. }
  unfold detect_subprocess_line.
  rewrite (detect_opening_word lexer sd ident rest Hin Hident Hkey);
    [|destruct Hend as [-> | ->]; reflexivity
     |destruct Hend as [-> | ->]; reflexivity].
  cbn [bind]. unfold line_scan.
  set (l1 := moved _ _).
  assert (Hl1 : lookahead l1 = first_of rest)
    by (exact (lookahead_moved (mark_end lexer) ident _ Hin)).
  cbn [loop]. unfold line_scan_body at 1.
  cbn [cursor line_scan_start]. rewrite Hl1.
  replace (negb (first_of rest =? 0) && negb (first_of rest =? NL)) with false
    by (destruct Hend as [-> | ->]; reflexivity).
  cbn [bind]. eexists. split; [reflexivity|].
  cbn [verdict after detected cursor signals line_scan_start]. split; [|reflexivity].
  unfold line_decision. cbn [python_signal shell_signalled no_signal orb].
  replace (Nat.ltb 0 (List.length ident)) with true
    by (destruct ident; [contradiction|reflexivity]).
  reflexivity.
Qed.

Lemma single_word_line_witness :
  exists d,
    detect_subprocess_line (lexer_on (codes "make" ++ [NL] ++ codes "x = 1")) None
    = Return d
    /\ verdict d = DETECT_SUBPROCESS
    /\ after d
       = moved 4 (mark_end (lexer_on (codes "make" ++ [NL] ++ codes "x = 1"))).
Proof.
  apply (single_word_line (lexer_on (codes "make" ++ [NL] ++ codes "x = 1")) None
           (codes "make") ([NL] ++ codes "x = 1")).
  - reflexivity.
  - repeat split; [repeat constructor | simpl; lia].
  - reflexivity.
  - left. reflexivity.
Defined.

(** A word directly followed by an opening parenthesis, an opening bracket
    or a dot is a Python expression, unless the word is a known shell
    command: the verdict is NONE whatever the rest of the line holds. *)
Theorem call_line_is_not_subprocess :
  forall lexer sd ident c rest,
    input lexer = ident ++ c :: rest ->
    is_identifier ident ->
    is_python_keyword ident = false ->
    is_shell_command ident = false ->
    follows_python c = true ->
    exists d,
      detect_subprocess_line lexer sd = Return d /\ verdict d = DETECT_NONE.
Proof.
  intros lexer sd ident c rest Hin Hident Hkey Hcmd Hc.
  assert (Hne : ident <> []).
  { intros ->. destruct Hident as [H _]. discriminate H. }
  assert (Hcases : c = chr "(" \/ c = chr "[" \/ c = chr ".").
  { unfold follows_python in Hc.
    repeat match type of Hc with
           | _ || _ = true => apply orb_prop in Hc as [Hc|Hc]
           end; apply Z.eqb_eq in Hc; auto. }
  unfold detect_subprocess_line.
  rewrite (detect_opening_word lexer sd ident (c :: rest) Hin Hident Hkey);
    [|destruct Hcases as [->|[->| ->]]; reflexivity
     |destruct Hcases as [->|[->| ->]]; reflexivity].
  cbn [bind].
  set (l1 := moved _ _).
  assert (Hl1 : lookahead l1 = c)
    by (exact (lookahead_moved (mark_end lexer) ident _ Hin)).
  destruct (python_signal_decides ident l1
              (match line_scan_body (line_scan_start ident l1) with
               | Next s => s
               | _ => line_scan_start ident l1
               end)) as (t & Ht & Hd).
  - destruct (line_scan_body (line_scan_start ident l1)) as [r|b|s] eqn:E;
      try apply reaches_here.
    eapply reaches_next; [exact E|apply reaches_here].
  - unfold line_scan_body, line_scan_start.
    cbn [cursor in_string prev_was_ident_no_space seen_shell_signal
         python_eval_depth prev_was_space prev_was_flag string_char].
    rewrite Hl1, Hcmd.
    replace (Nat.ltb 0 (List.length ident)) with true
      by (destruct ident; [contradiction|reflexivity]).
    destruct Hcases as [->|[->| ->]]; eval_tests; reflexivity.
  - rewrite Ht. cbn [bind]. eexists. split; [reflexivity|]. exact Hd.
Qed.

Lemma call_line_is_not_subprocess_witness :
  exists d,
    detect_subprocess_line (lexer_on (codes "show(x) | cat > out")) None
    = Return d
    /\ verdict d = DETECT_NONE.
Proof.
  apply (call_line_is_not_subprocess (lexer_on (codes "show(x) | cat > out")) None
           (codes "show") (chr "(") (codes "x) | cat > out")).
  - reflexivity.
  - repeat split; [repeat constructor | simpl; lia].
  - reflexivity.
  - reflexivity.
  - reflexivity.
Defined.

(** ** Assignments *)

Lemma whitespace_cases :
  forall c, is_whitespace c = true -> c = chr " " \/ c = TAB.
Proof.
  intros c H. unfold is_whitespace in H.
  apply orb_prop in H as [H|H]; apply Z.eqb_eq in H; auto.
Qed.

(** One round of the loop at a blank outside a string. *)
Lemma line_scan_body_blank :
  forall s,
    in_string s = false ->
    is_whitespace (lookahead (cursor s)) = true ->
    line_scan_body s
    = Next (s |> set_cursor (advance (cursor s))
              |> set_prev_was_ident_no_space false
              |> set_prev_was_space true |> set_prev_was_flag false).
Proof.
  intros s Hs Hc. unfold line_scan_body. rewrite Hs.
  remember (lookahead (cursor s)) as c eqn:Ec. clear Ec.
  apply whitespace_cases in Hc as [-> | ->]; eval_tests; reflexivity.
Qed.

(** The loop reads a run of blanks outside a string, and leaves the signals,
    the nesting depth and a lowered [prev_was_flag] as they are. *)
Lemma blanks_reach :
  forall ws rest, all_pass is_whitespace ws ->
  forall s,
    input (cursor s) = ws ++ rest ->
    in_string s = false -> prev_was_flag s = false ->
    exists t,
      reaches line_scan_body s t
      /\ input (cursor t) = rest
      /\ in_string t = false /\ prev_was_flag t = false
      /\ python_eval_depth t = python_eval_depth s
      /\ signals t = signals s.
Proof.
  intros ws rest Hws. induction Hws as [|c ws Hc Hws IH]; intros s Hin Hs Hf.
  - exists s. repeat split; try assumption. apply reaches_here.
  - assert (Hla : lookahead (cursor s) = c)
      by (rewrite lookahead_first, Hin; reflexivity).
    pose proof (line_scan_body_blank s Hs ltac:(rewrite Hla; exact Hc)) as E.
    set (s1 := s |> set_cursor (advance (cursor s))
                 |> set_prev_was_ident_no_space false
                 |> set_prev_was_space true |> set_prev_was_flag false) in *.
    assert (Hin1 : input (cursor s1) = ws ++ rest).
    { unfold s1. signals_simpl. rewrite (advance_moved _ _ _ Hin).
      exact (input_moved (cursor s) [c] _ Hin). }
    destruct (IH s1 Hin1 Hs eq_refl)
      as (t & Hreach & Hint & Hst & Hft & Hdt & Hsig).
    exists t. split; [eapply reaches_next; [exact E|exact Hreach]|].
    repeat split; assumption.
Qed.

(** One round of the loop at a single equals sign, outside a string, outside
    [@(...)] and not behind a flag: the assignment signal goes up. *)
Lemma line_scan_body_assign :
  forall s rest,
    input (cursor s) = chr "=" :: rest ->
    first_of rest <> chr "=" ->
    in_string s = false -> prev_was_flag s = false ->
    python_eval_depth s = 0 ->
    exists s',
      line_scan_body s = Next s' /\ signals s' has_assignment = true.
Proof.
  intros s rest Hin Hnext Hs Hf Hd.
  assert (Hla : lookahead (cursor s) = chr "=")
    by (rewrite lookahead_first, Hin; reflexivity).
  assert (Hla' : lookahead (advance (cursor s)) = first_of rest).
  { rewrite (advance_moved _ _ _ Hin).
    exact (lookahead_moved (cursor s) [chr "="] _ Hin). }
  unfold line_scan_body. rewrite Hs, Hf, Hd, Hla, Hla'. eval_tests.
  apply Z.eqb_neq in Hnext. rewrite Hnext. cbn [andb].
  eexists. split; [reflexivity|]. reflexivity.
Qed.

(** A line of the form [name = ...], with a single equals sign, is an
    assignment: the verdict is NONE, whatever the name (a known shell command
    included) and whatever follows. *)
Theorem assignment_line_is_not_subprocess :
  forall lexer sd ident ws rest,
    input lexer = ident ++ ws ++ chr "=" :: rest ->
    is_identifier ident ->
    is_python_keyword ident = false ->
    all_pass is_whitespace ws ->
    first_of rest <> chr "=" ->
    exists d,
      detect_subprocess_line lexer sd = Return d /\ verdict d = DETECT_NONE.
Proof.
  intros lexer sd ident ws rest Hin Hident Hkey Hws Hnext.
  assert (Hfirst : first_of (ws ++ chr "=" :: rest) = chr "="
                   \/ is_whitespace (first_of (ws ++ chr "=" :: rest)) = true).
  { destruct Hws as [|c ws Hc _]; [left|right]; [reflexivity|exact Hc]. }
  unfold detect_subprocess_line.
  rewrite (detect_opening_word lexer sd ident (ws ++ chr "=" :: rest)
             Hin Hident Hkey).
  2:{ destruct Hfirst as [-> |H]; [reflexivity|].
      apply whitespace_cases in H as [-> | ->]; reflexivity. }
  2:{ destruct Hfirst as [-> |H]; [reflexivity|].
      apply whitespace_cases in H as [-> | ->]; reflexivity. }
  cbn [bind]. set (l1 := moved _ _).
  assert (Hl1 : input l1 = ws ++ chr "=" :: rest)
    by (exact (input_moved (mark_end lexer) ident _ Hin)).
  destruct (blanks_reach ws (chr "=" :: rest) Hws (line_scan_start ident l1)
              Hl1 eq_refl eq_refl)
    as (t & Hreach & Hint & Hst & Hft & Hdt & _).
  destruct (line_scan_body_assign t rest Hint Hnext Hst Hft Hdt)
    as (s' & E & Hsig).
  destruct (python_signal_decides ident l1 s') as (u & Hu & Hd).
  - eapply reaches_trans; [exact Hreach|].
    eapply reaches_next; [exact E|apply reaches_here].
  - unfold python_signal. rewrite Hsig. reflexivity.
  - rewrite Hu. cbn [bind]. eexists. split; [reflexivity|]. exact Hd.
Qed.

Lemma assignment_line_is_not_subprocess_witness :
  exists d,
    detect_subprocess_line (lexer_on (codes "ls = run | sort")) None = Return d
    /\ verdict d = DETECT_NONE.
Proof.
  apply (assignment_line_is_not_subprocess (lexer_on (codes "ls = run | sort"))
           None (codes "ls") (codes " ") (codes " run | sort")).
  - reflexivity.
  - repeat split; [repeat constructor | simpl; lia].
  - reflexivity.
  - repeat constructor.
  - discriminate.
Defined.

(** ** The first word of a line *)

Lemma read_identifier_word :
  forall room lexer buf,
    all_pass is_identifier_char buf ->
    all_pass is_identifier_char (fst (read_identifier room lexer buf))
    /\ (List.length (fst (read_identifier room lexer buf))
        <= List.length buf + room)%nat.
Proof.
  induction room as [|room IH]; intros lexer buf Hbuf; cbn [read_identifier].
  - cbn [fst]. split; [exact Hbuf|lia].
  - destruct (is_identifier_char (lookahead lexer)) eqn:E.
    + destruct (IH (advance lexer) (buf ++ [lookahead lexer])) as [H1 H2].
      { unfold all_pass in *. apply Forall_app. split; [exact Hbuf|].
        constructor; [exact E|constructor]. }
      split; [exact H1|]. rewrite length_app in H2. simpl in H2. lia.
    + cbn [fst]. split; [exact Hbuf|lia].
Qed.

Lemma first_identifier_word :
  forall lexer pos sd,
    flow_all any (fun st => is_word (fst (fst st)))
      (first_identifier lexer pos sd).
Proof.
  intros lexer pos sd. unfold first_identifier.
  destruct (is_identifier_start (lookahead lexer)).
  2:{ split; [constructor|simpl; lia]. }
  pose proof (read_identifier_word 63 lexer [] ltac:(constructor)) as Hr.
  destruct (read_identifier 63 lexer []) as [first_ident lexer'].
  cbn [fst List.length Nat.add] in Hr.
  eapply (flow_all_bind _ any).
  { destruct (_ && _); [|exact I].
    destruct (if forallb is_prefix_letter first_ident then sd else None);
      [exact I|]. destruct (is_path_prefix first_ident); exact I. }
  intros ? _ _. cbn beta iota.
  eapply (flow_all_bind _ any); [split_ifs; exact I|].
  intros ? _ _. cbn beta iota.
  eapply (flow_all_bind _ any); [split_ifs; exact I|].
  intros ? _ _. cbn beta iota.
  split_ifs; simpl; try exact I; exact Hr.
Qed.

Lemma unreadable_commands_are :
  unreadable_commands = ["docker-compose"; "g++"; "clang++"]%string.
Proof. vm_compute. reflexivity. Qed.

(** The word that the opening analysis hands on is made of identifier
    characters, at most 63 of them; so the entries of the command table with
    another character in them ([g++], [clang++], [docker-compose]) never
    match it. *)
Theorem first_word_is_an_identifier :
  forall lexer sd first_ident lexer' pos,
    detect_opening lexer sd = Fall (first_ident, lexer', pos) ->
    all_pass is_identifier_char first_ident
    /\ (List.length first_ident <= 63)%nat
    /\ Forall (fun w => first_ident <> codes w) unreadable_commands
    /\ unreadable_commands = ["docker-compose"; "g++"; "clang++"]%string.
Proof.
  intros lexer sd first_ident lexer' pos H.
  assert (Hword : is_word first_ident).
  { assert (Hall : flow_all any (fun st => is_word (fst (fst st)))
                     (detect_opening lexer sd)).
    { unfold detect_opening.
      destruct (_ =? chr "/"); [exact I|].
      eapply (flow_all_bind _ any); [unfold probe; split_ifs; exact I|intros [? ?] _ _].
      eapply (flow_all_bind _ any); [unfold probe; split_ifs; exact I|intros [? ?] _ _].
      eapply (flow_all_bind _ any); [unfold probe; split_ifs; exact I|intros [? ?] _ _].
      eapply (flow_all_bind _ any); [unfold probe; split_ifs; exact I|intros [? ?] _ _].
      cbn beta iota.
      destruct (_ =? chr "["); [exact I|].
      destruct (_ =? chr "@"); [exact I|].
      destruct (if _ =? chr "$" then _ else _) as [lx p].
      eapply flow_all_bind; [apply first_identifier_word|].
      intros [[fi lx'] p'] _ Hfi. cbn beta iota. cbn [fst] in Hfi.
      eapply (flow_all_bind _ any); [split_ifs; exact I|].
      intros ? _ _. exact Hfi. }
    rewrite H in Hall. exact Hall. }
  destruct Hword as [Hchars Hlen]. split; [exact Hchars|]. split; [exact Hlen|].
  assert (Hbad : forall w, forallb is_identifier_char (codes w) = false ->
                           first_ident <> codes w).
  { intros w Hw ->. unfold all_pass in Hchars.
    rewrite Forall_forall in Hchars.
    assert (forallb is_identifier_char (codes w) = true)
      by (apply forallb_forall; exact Hchars).
    congruence. }
  split; [|exact unreadable_commands_are].
  rewrite unreadable_commands_are.
  repeat constructor; apply Hbad; reflexivity.
Qed.

Lemma first_word_is_an_identifier_witness :
  detect_opening (lexer_on (codes "g++ -O2 main.cc")) None
  = Fall (codes "g", moved 1 (mark_end (lexer_on (codes "g++ -O2 main.cc"))), 1%nat)
  /\ all_pass is_identifier_char (codes "g")
  /\ (List.length (codes "g") <= 63)%nat
  /\ Forall (fun w => codes "g" <> codes w) unreadable_commands
  /\ unreadable_commands = ["docker-compose"; "g++"; "clang++"]%string.
Proof.
  split; [reflexivity|].
  exact (first_word_is_an_identifier (lexer_on (codes "g++ -O2 main.cc")) None
           (codes "g") _ 1%nat eq_refl).
Defined.

(** ** Which part of a call reports which token *)

Ltac kinds := unfold emits, emitted; simpl; try exact I; auto 20.

Lemma emits_more :
  forall kinds kinds' r,
    incl kinds kinds' -> emits kinds r -> emits kinds' r.
Proof.
  intros kinds kinds' r Hincl. unfold emits.
  destruct (emitted r); [apply Hincl|auto].
Qed.

Lemma flow_all_more :
  forall {R A : Type} (P P' : R -> Prop) (Q : A -> Prop) (m : flow R A),
    (forall r, P r -> P' r) -> flow_all P Q m -> flow_all P' Q m.
Proof. intros R A P P' Q [|r|a] H; simpl; auto. Qed.

Lemma scan_escape_kinds :
  forall scanner lexer valid_symbols,
    flow_all (emits front_kinds) any (scan_escape scanner lexer valid_symbols).
Proof.
  intros. unfold scan_escape, finish, no_token. split_ifs; simpl; kinds.
Qed.

Lemma content_body_kinds :
  forall scanner delimiter advanced_once st r,
    content_body scanner delimiter advanced_once st = Ret r ->
    emits front_kinds r.
Proof.
  intros scanner delimiter advanced_once [has_content lexer] r.
  unfold content_body.
  destruct has_content; split_ifs; intros E; try discriminate;
    injection E as <-; kinds.
Qed.

Lemma scan_content_kinds :
  forall scanner lexer valid_symbols advanced_once,
    flow_all (emits front_kinds) any
      (scan_content scanner lexer valid_symbols advanced_once).
Proof.
  intros. unfold scan_content.
  destruct (_ && _); [|exact I].
  apply (loop_invariant _ (fun _ => True) (emits front_kinds) any); try exact I.
  - intros; exact I.
  - intros st r _ E. eapply content_body_kinds. exact E.
  - intros; exact I.
Qed.

Lemma layout_body_kinds :
  forall scanner valid_symbols s r,
    layout_body scanner valid_symbols s = Ret r -> emits front_kinds r.
Proof.
  intros scanner valid_symbols s r. unfold layout_body.
  split_ifs; intros E; try discriminate; injection E as <-; kinds.
Qed.

Lemma scan_layout_kinds :
  forall scanner lexer valid_symbols,
    flow_all (emits front_kinds) any (scan_layout scanner lexer valid_symbols).
Proof.
  intros. unfold scan_layout.
  apply (loop_invariant _ (fun _ => True) (emits front_kinds) any); try exact I.
  - intros; exact I.
  - intros s r _. apply layout_body_kinds.
  - intros; exact I.
Qed.

Lemma scan_layout_emit_kinds :
  forall scanner valid_symbols s,
    flow_all (emits front_kinds) any (scan_layout_emit scanner valid_symbols s).
Proof.
  intros. unfold scan_layout_emit, finish.
  destruct (found_end_of_line s); [|exact I].
  eapply (flow_all_bind _ any); [|intros ? _ _]; split_ifs; simpl; kinds.
Qed.

Lemma scan_front_kinds :
  forall scanner lexer valid_symbols,
    flow_all (emits front_kinds) any (scan_front scanner lexer valid_symbols).
Proof.
  intros. unfold scan_front.
  eapply (flow_all_bind _ any); [apply scan_escape_kinds|intros ? _ _].
  eapply (flow_all_bind _ any); [apply scan_content_kinds|intros ? _ _].
  eapply (flow_all_bind _ any); [apply scan_layout_kinds|intros ? _ _].
  eapply (flow_all_bind _ any); [apply scan_layout_emit_kinds|intros ? _ _].
  exact I.
Qed.

Lemma scan_operators_kinds :
  forall scanner lexer valid_symbols,
    flow_all (emits operator_kinds) any
      (scan_operators scanner lexer valid_symbols).
Proof.
  intros. unfold scan_operators, scan_logical_operators,
    scan_keyword_operators, finish, no_token.
  eapply (flow_all_bind _ any); [|intros ? _ _]; split_ifs; simpl; kinds.
Qed.

(** What the subprocess stage reports, it reports in statement context. *)
Lemma scan_subprocess_kinds :
  forall scanner lexer valid_symbols first_comment,
    flow_all
      (fun r => emits back_kinds r
                /\ (within_brackets valid_symbols = false
                    /\ error_recovery_mode valid_symbols = false
                    \/ emitted r = None))
      any
      (scan_subprocess scanner lexer valid_symbols first_comment).
Proof.
  intros. unfold scan_subprocess, finish.
  destruct (check_subprocess _ _ _) eqn:Hc; [|exact I].
  assert (Hctx : within_brackets valid_symbols = false
                 /\ error_recovery_mode valid_symbols = false).
  { unfold check_subprocess in Hc.
    repeat match type of Hc with
           | _ && _ = true => apply andb_prop in Hc as [Hc ?]
           end.
    split; apply negb_true_iff; assumption. }
  destruct (detect_subprocess_line_returns lexer (Some new_delimiter)) as [d Hd].
  rewrite Hd. simpl.
  destruct (open_quotes _ _) as [string_delim lexer'].
  split_ifs; simpl; try exact I; (split; [kinds|left; exact Hctx]).
Qed.

Lemma scan_path_prefix_kinds :
  forall scanner lexer valid_symbols first_comment,
    flow_all (emits [PATH_PREFIX]) any
      (scan_path_prefix scanner lexer valid_symbols first_comment).
Proof.
  intros. unfold scan_path_prefix, finish, no_token. split_ifs; simpl; kinds.
Qed.

Lemma scan_string_start_kinds :
  forall scanner lexer valid_symbols first_comment,
    flow_all (emits [STRING_START]) any
      (scan_string_start scanner lexer valid_symbols first_comment).
Proof.
  intros. unfold scan_string_start, finish, no_token.
  destruct (_ && _); [|exact I].
  destruct (string_prefix _ _ _ _) as [[delimiter has_flags] lexer'].
  destruct (_ =? BACKTICK); [kinds|].
  destruct (open_quotes _ _) as [d lexer''].
  split_ifs; simpl; kinds.
Qed.

(** The three parts of a call, for a property of each. *)
Lemma scan_by_parts :
  forall (P : ScanResult -> Prop) scanner lexer valid_symbols,
    flow_all P any (scan_front scanner lexer valid_symbols) ->
    (forall l, flow_all P any (scan_operators scanner l valid_symbols)) ->
    (forall l fc, flow_all P (fun _ => False)
                    (scan_back scanner l valid_symbols fc)) ->
    forall r, scan scanner lexer valid_symbols = Some r -> P r.
Proof.
  intros P scanner lexer valid_symbols Hf Ho Hb r. unfold scan, scan_with.
  destruct (scan_front scanner lexer valid_symbols) as [|r'|s]; simpl in *;
    try discriminate.
  { intros H. injection H as <-. exact Hf. }
  specialize (Ho (here s)).
  destruct (scan_operators scanner (here s) valid_symbols) as [|r'|l];
    simpl in *; try discriminate.
  { intros H. injection H as <-. exact Ho. }
  specialize (Hb l (first_comment_indent_length s)).
  destruct (scan_back _ _ _ _) as [|r'|r']; simpl in *; try discriminate.
  - intros H. injection H as <-. exact Hb.
  - contradiction.
Qed.

Lemma scan_back_kinds :
  forall scanner lexer valid_symbols first_comment,
    flow_all
      (fun r => emits back_kinds r
                /\ (within_brackets valid_symbols = false
                    /\ error_recovery_mode valid_symbols = false
                    \/ ~ (exists t, emitted r = Some t /\ In t subprocess_kinds)))
      (fun _ => False)
      (scan_back scanner lexer valid_symbols first_comment).
Proof.
  intros. unfold scan_back.
  eapply (flow_all_bind _ any).
  { eapply flow_all_more; [|apply scan_subprocess_kinds].
    intros r [Hk [Hc|Hn]]; (split; [exact Hk|]); [left; exact Hc|right].
    intros (t & Ht & _). congruence. }
  intros ? _ _.
  eapply (flow_all_bind _ any).
  { eapply flow_all_more; [|apply scan_path_prefix_kinds].
    intros r Hr. split; [eapply emits_more; [|exact Hr]|right].
    - intros t [<-|[]]. unfold back_kinds, subprocess_kinds. simpl. auto 10.
    - intros (t & Ht & Hin). unfold emits in Hr. rewrite Ht in Hr.
      destruct Hr as [<-|[]]. simpl in Hin.
      repeat destruct Hin as [Hin|Hin]; try discriminate; contradiction. }
  intros ? _ _.
  eapply (flow_all_bind _ any).
  { eapply flow_all_more; [|apply scan_string_start_kinds].
    intros r Hr. split; [eapply emits_more; [|exact Hr]|right].
    - intros t [<-|[]]. unfold back_kinds, subprocess_kinds. simpl. auto 10.
    - intros (t & Ht & Hin). unfold emits in Hr. rewrite Ht in Hr.
      destruct Hr as [<-|[]]. simpl in Hin.
      repeat destruct Hin as [Hin|Hin]; try discriminate; contradiction. }
  intros ? _ _. unfold no_token. simpl. split; [kinds|right].
  intros (t & Ht & _). discriminate Ht.
Qed.

(** ** The tokens of a call *)

(** The symbol of a call is one of the sixteen that the three parts report
    between them, none of them a symbol that is only read. *)
Lemma scan_reports_no_read_only_symbol :
  forall scanner lexer valid_symbols r,
    scan scanner lexer valid_symbols = Some r ->
    emits (front_kinds ++ operator_kinds ++ back_kinds) r
    /\ (forall t, emitted r = Some t -> ~ In t read_only_kinds).
Proof.
  intros scanner lexer valid_symbols r Hr.
  assert (H : emits (front_kinds ++ operator_kinds ++ back_kinds) r).
  { revert r Hr. apply scan_by_parts.
    - eapply flow_all_more; [|apply scan_front_kinds].
      intros r. apply emits_more. intros t Ht. apply in_or_app. auto.
    - intros l. eapply flow_all_more; [|apply scan_operators_kinds].
      intros r. apply emits_more. intros t Ht.
      apply in_or_app. right. apply in_or_app. auto.
    - intros l fc. eapply flow_all_more; [|apply scan_back_kinds].
      intros r [Hk _]. revert Hk. apply emits_more. intros t Ht.
      apply in_or_app. right. apply in_or_app. auto. }
  split; [exact H|]. intros t Ht Hin. unfold emits in H. rewrite Ht in H.
  simpl in H, Hin.
  repeat destruct H as [H|H]; try contradiction; subst t;
    repeat destruct Hin as [Hin|Hin]; try discriminate; contradiction.
Qed.

(** SUBPROCESS_START, SUBPROCESS_MACRO_START and BLOCK_MACRO_START are
    reported at statement level only: never inside brackets and never in
    error-recovery mode. *)
Theorem subprocess_tokens_need_statement_context :
  forall scanner lexer valid_symbols r t,
    scan scanner lexer valid_symbols = Some r ->
    emitted r = Some t ->
    In t subprocess_kinds ->
    within_brackets valid_symbols = false
    /\ error_recovery_mode valid_symbols = false.
Proof.
  intros scanner lexer valid_symbols r t Hr Ht Hin.
  assert (H : emits front_kinds r \/ emits operator_kinds r
              \/ (within_brackets valid_symbols = false
                  /\ error_recovery_mode valid_symbols = false)
              \/ ~ (exists t, emitted r = Some t /\ In t subprocess_kinds)).
  { revert r Hr Ht. 
    intros r Hr _. revert r Hr. apply scan_by_parts.
    - eapply flow_all_more; [|apply scan_front_kinds]. auto.
    - intros l. eapply flow_all_more; [|apply scan_operators_kinds]. auto.
    - intros l fc. eapply flow_all_more; [|apply scan_back_kinds].
      intros r [_ [H|H]]; auto. }
  destruct H as [H|[H|[H|H]]].
  - unfold emits in H. rewrite Ht in H. simpl in H, Hin.
    repeat destruct H as [H|H]; try contradiction; subst t;
      repeat destruct Hin as [Hin|Hin]; try discriminate; contradiction.
  - unfold emits in H. rewrite Ht in H. simpl in H, Hin.
    repeat destruct H as [H|H]; try contradiction; subst t;
      repeat destruct Hin as [Hin|Hin]; try discriminate; contradiction.
  - exact H.
  - exfalso. apply H. exists t. auto.
Qed.

(** Of the 21 external symbols the scanner reports 16: the three closing
    brackets and EXCEPT are read from [valid_symbols] and never reported,
    and COMMENT is not used.  A reported symbol is one the parser asked for,
    with two exceptions that the code makes: STRING_END is reported when
    STRING_CONTENT is valid, and DEDENT may be reported without being
    valid. *)
Theorem reported_symbol_is_valid :
  forall scanner lexer valid_symbols r t,
    scan scanner lexer valid_symbols = Some r ->
    emitted r = Some t ->
    ~ In t read_only_kinds
    /\ (forall t', licence t = Some t' -> valid_symbols t' = true).
Proof.
  intros scanner lexer valid_symbols r t Hr Ht. split.
  - exact (proj2 (scan_reports_no_read_only_symbol scanner lexer valid_symbols
                    r Hr) t Ht).
  - intros t' Hl.
    pose proof (scan_outcome_holds scanner lexer valid_symbols r Hr) as H.
    unfold scan_outcome in H. rewrite Ht in H.
    destruct t; simpl in Hl; try discriminate; injection Hl as <-;
      try (destruct H as [H _]; exact H).
Qed.

(** ** Layout tokens end where the call began *)

Lemma token_end_advance :
  forall lexer b, token_end (lexer_advance lexer b) = token_end lexer.
Proof. intros lexer b. unfold lexer_advance. destruct (input lexer); reflexivity. Qed.

Lemma token_end_while :
  forall b p n lexer, token_end (lexer_while b p n lexer) = token_end lexer.
Proof.
  intros b p. induction n as [|n IH]; intros lexer; simpl; [reflexivity|].
  destruct (p (lookahead lexer)); [|reflexivity].
  rewrite IH. apply token_end_advance.
Qed.

Lemma layout_body_keeps_mark :
  forall scanner valid_symbols mark s s',
    token_end (here s) = mark ->
    layout_body scanner valid_symbols s = Next s' -> token_end (here s') = mark.
Proof.
  intros scanner valid_symbols mark s s' H. unfold layout_body.
  split_ifs; intros E; try discriminate; injection E as <-; cbn [here];
    unfold skip, skip_while; rewrite ?token_end_advance, ?token_end_while,
      ?token_end_advance; exact H.
Qed.

Lemma layout_body_break_mark :
  forall scanner valid_symbols mark s b,
    token_end (here s) = mark ->
    layout_body scanner valid_symbols s = Break b -> token_end (here b) = mark.
Proof.
  intros scanner valid_symbols mark s b H. unfold layout_body.
  split_ifs; intros E; try discriminate; injection E as <-; exact H.
Qed.

Lemma layout_body_unmarked :
  forall scanner valid_symbols s r,
    layout_body scanner valid_symbols s = Ret r -> emitted r = None.
Proof.
  intros scanner valid_symbols s r. unfold layout_body.
  split_ifs; intros E; try discriminate; injection E as <-; reflexivity.
Qed.

Lemma scan_front_marked :
  forall scanner lexer valid_symbols,
    outside_string scanner valid_symbols ->
    flow_all (marked_at (position lexer)) any
      (scan_front scanner lexer valid_symbols).
Proof.
  intros scanner lexer valid_symbols Hout. unfold scan_front.
  rewrite (scan_escape_outside _ _ _ Hout). cbn [bind].
  rewrite (scan_content_outside _ _ _ Hout). cbn [bind].
  eapply (flow_all_bind _ (fun s => token_end (here s) = Some (position lexer))).
  { unfold scan_layout.
    apply (loop_invariant _
             (fun s => token_end (here s) = Some (position lexer))
             (marked_at (position lexer))
             (fun s => token_end (here s) = Some (position lexer))).
    - intros s s'. apply layout_body_keeps_mark.
    - intros s r _ E. left. eapply layout_body_unmarked. exact E.
    - intros s b. apply layout_body_break_mark.
    - reflexivity. }
  intros s _ Hs.
  eapply (flow_all_bind _ any); [|intros ? _ _; exact I].
  unfold scan_layout_emit, finish.
  destruct (found_end_of_line s); [|exact I].
  eapply (flow_all_bind _ any); [|intros ? _ _];
    split_ifs; simpl; try exact I; right; exact Hs.
Qed.

(** NEWLINE, INDENT and DEDENT are reported with the end of the token marked
    where the call began: the line breaks, the indentation and the comments
    that the layout loop went over are skipped, not made part of the
    token. *)
Theorem layout_tokens_end_at_entry :
  forall scanner lexer valid_symbols r t,
    outside_string scanner valid_symbols ->
    scan scanner lexer valid_symbols = Some r ->
    emitted r = Some t ->
    In t layout_kinds ->
    token_end (lexer_after r) = Some (position lexer).
Proof.
  intros scanner lexer valid_symbols r t Hout Hr Ht Hin.
  assert (H : marked_at (position lexer) r
              \/ emits (operator_kinds ++ back_kinds) r).
  { revert r Hr Ht. intros r Hr _. revert r Hr. apply scan_by_parts.
    - eapply flow_all_more; [|apply scan_front_marked; exact Hout]. auto.
    - intros l. eapply flow_all_more; [|apply scan_operators_kinds].
      intros r Hk. right. revert Hk. apply emits_more.
      intros x Hx. apply in_or_app. auto.
    - intros l fc. eapply flow_all_more; [|apply scan_back_kinds].
      intros r [Hk _]. right. revert Hk. apply emits_more.
      intros x Hx. apply in_or_app. auto. }
  destruct H as [[H|H]|H].
  - congruence.
  - exact H.
  - unfold emits in H. rewrite Ht in H. simpl in H, Hin.
    repeat destruct H as [H|H]; try contradiction; subst t;
      repeat destruct Hin as [Hin|Hin]; try discriminate; contradiction.
Qed.

(** ** The content of a string and its end *)

Lemma end_character_cases :
  forall d, end_character d = SQUOTE \/ end_character d = DQUOTE
            \/ end_character d = BACKTICK \/ end_character d = 0.
Proof.
  intros d. unfold end_character.
  destruct (has_bit d SingleQuote); [auto|].
  destruct (has_bit d DoubleQuote); [auto|].
  destruct (has_bit d BackQuote); auto.
Qed.

Lemma is_ordinary_parts :
  forall q c, is_ordinary q c = true ->
    (c =? 0) = false /\ (c =? BACKSLASH) = false /\ (c =? q) = false
    /\ (c =? NL) = false /\ is_brace c = false.
Proof.
  intros q c H. unfold is_ordinary in H.
  repeat match type of H with
         | _ && _ = true => apply andb_prop in H as [H ?]
         end.
  repeat split; apply negb_true_iff; assumption.
Qed.

(** One round of the content loop at an ordinary character. *)
Lemma content_body_ordinary :
  forall scanner d has_content lexer,
    is_ordinary (end_character d) (lookahead lexer) = true ->
    content_body scanner d false (has_content, lexer)
    = Next (true, advance lexer).
Proof.
  intros scanner d has_content lexer H.
  destruct (is_ordinary_parts _ _ H) as (H0 & Hb & Hq & Hn & Hbrace).
  unfold content_body. rewrite H0, Hbrace, Hb, Hq, Hn. reflexivity.
Qed.

(** The content loop reads a run of ordinary characters. *)
Lemma content_reach :
  forall scanner d body rest,
    all_pass (is_ordinary (end_character d)) body ->
  forall has_content lexer,
    input lexer = body ++ rest ->
    reaches (content_body scanner d false) (has_content, lexer)
      (has_content || negb (Nat.eqb (List.length body) 0),
       moved (List.length body) lexer).
Proof.
  intros scanner d body rest Hbody.
  induction Hbody as [|c body Hc Hbody IH]; intros has_content lexer Hin.
  - cbn [List.length Nat.eqb negb]. rewrite orb_false_r, moved_0.
    apply reaches_here.
  - eapply reaches_next.
    + apply content_body_ordinary. rewrite lookahead_first, Hin. exact Hc.
    + rewrite (advance_moved lexer c (body ++ rest) Hin).
      specialize (IH true (moved 1 lexer)
                    (input_moved lexer [c] _ Hin)).
      rewrite moved_moved in IH. cbn [List.length Nat.eqb negb orb] in *.
      rewrite orb_true_r. exact IH.
Qed.

(** One round of the content loop at the end character of a string that is
    not triple-quoted. *)
Lemma content_body_at_end :
  forall scanner d has_content lexer,
    end_character d <> 0 ->
    is_triple d = false ->
    lookahead lexer = end_character d ->
    content_body scanner d false (has_content, lexer)
    = Ret (if has_content
           then {| token_found := true;
                   lexer_after := mark_end (set_result lexer STRING_CONTENT);
                   scanner_after := scanner |}
           else {| token_found := true;
                   lexer_after :=
                     mark_end (set_result (advance lexer) STRING_END);
                   scanner_after := pop_delimiter scanner |}).
Proof.
  intros scanner d has_content lexer Hq Ht Hla.
  unfold content_body. rewrite Hla, Ht.
  destruct (end_character_cases d) as [E|[E|[E|E]]]; [| | |contradiction];
    rewrite E; unfold is_brace; eval_tests; destruct has_content; reflexivity.
Qed.

(** A call inside a string, before a stretch of ordinary characters: what
    the content loop does at the first character behind the stretch is what
    the call reports. *)
Lemma scan_content_reads :
  forall scanner lexer valid_symbols d body c rest r,
    valid_symbols STRING_CONTENT = true ->
    error_recovery_mode valid_symbols = false ->
    delimiters scanner <> [] ->
    array_back (delimiters scanner) new_delimiter = d ->
    input lexer = body ++ c :: rest ->
    all_pass (is_ordinary (end_character d)) body ->
    is_brace c = false ->
    content_body scanner d false
      (negb (Nat.eqb (List.length body) 0), moved (List.length body) lexer)
    = Ret r ->
    scan scanner lexer valid_symbols = Some r.
Proof.
  intros scanner lexer valid_symbols d body c rest r Hv He Hne Hd Hin Hbody
    Hc Hret.
  assert (Hfirst : is_brace (lookahead lexer) = false).
  { rewrite lookahead_first, Hin. destruct Hbody as [|c' body Hc' _].
    - exact Hc.
    - cbn [app first_of hd]. apply (is_ordinary_parts _ c' Hc'). }
  assert (Hescape : scan_escape scanner lexer valid_symbols = Fall false).
  { unfold scan_escape. rewrite Hfirst, andb_false_r. reflexivity. }
  pose proof (content_reach scanner d body (c :: rest) Hbody false lexer Hin)
    as Hreach.
  cbn [orb] in Hreach.
  destruct (loop_from_reached (content_body scanner d false)
              (fun st => remaining (snd st))
              (content_body_shrinks scanner d false) _ _ Hreach
              (S (List.length (input lexer))))
    as (fuel' & Hfuel & Heq).
  { unfold remaining. simpl. lia. }
  destruct fuel' as [|fuel']; [lia|].
  unfold scan, scan_with, scan_front. rewrite Hescape. cbn [bind].
  unfold scan_content. rewrite Hv, He, (nonempty_length _ Hne), Hd.
  cbn [andb negb]. rewrite Heq. cbn [loop]. rewrite Hret. reflexivity.
Qed.

Lemma end_character_no_brace :
  forall d, end_character d <> 0 -> is_brace (end_character d) = false.
Proof.
  intros d H.
  destruct (end_character_cases d) as [E|[E|[E|E]]]; [| | |contradiction];
    rewrite E; reflexivity.
Qed.

(** The string that is not triple-quoted. *)
Lemma single_string_body_and_end :
  forall scanner lexer valid_symbols d body rest,
    valid_symbols STRING_CONTENT = true ->
    error_recovery_mode valid_symbols = false ->
    delimiters scanner <> [] ->
    array_back (delimiters scanner) new_delimiter = d ->
    end_character d <> 0 ->
    is_triple d = false ->
    input lexer = body ++ end_character d :: rest ->
    all_pass (is_ordinary (end_character d)) body ->
    exists r,
      scan scanner lexer valid_symbols = Some r
      /\ token_start (lexer_after r) = token_start lexer
      /\ match body with
         | [] =>
             emitted r = Some STRING_END
             /\ scanner_after r
                = {| indents := indents scanner;
                     delimiters := removelast (delimiters scanner);
                     inside_f_string := false |}
             /\ token_end (lexer_after r) = Some (position lexer + 1)%nat
             /\ input (lexer_after r) = rest
         | _ :: _ =>
             emitted r = Some STRING_CONTENT
             /\ scanner_after r = scanner
             /\ token_end (lexer_after r)
                = Some (position lexer + List.length body)%nat
             /\ input (lexer_after r) = end_character d :: rest
         end.
Proof.
  intros scanner lexer valid_symbols d body rest Hv He Hne Hd Hq Ht Hin Hbody.
  set (l1 := moved (List.length body) lexer).
  assert (Hl1 : lookahead l1 = end_character d)
    by (exact (lookahead_moved lexer body _ Hin)).
  assert (Hin1 : input l1 = end_character d :: rest)
    by (exact (input_moved lexer body _ Hin)).
  eexists. split.
  { eapply (scan_content_reads scanner lexer valid_symbols d body _ rest);
      try eassumption.
    - apply end_character_no_brace. exact Hq.
    - apply content_body_at_end; assumption. }
  fold l1. destruct body as [|c body].
  - cbn [List.length Nat.eqb negb lexer_after scanner_after emitted token_found].
    unfold l1 in *. rewrite moved_0 in *.
    unfold advance, lexer_advance. rewrite Hin. cbn.
    repeat split. f_equal. lia.
  - cbn [List.length Nat.eqb negb lexer_after scanner_after emitted token_found].
    cbn. repeat split. exact Hin1.
Qed.

(** One round of the content loop at three end characters in a row, in a
    triple-quoted string. *)
Lemma content_body_at_triple_end :
  forall scanner d has_content lexer rest,
    end_character d <> 0 ->
    is_triple d = true ->
    input lexer = end_character d :: end_character d :: end_character d :: rest ->
    content_body scanner d false (has_content, lexer)
    = Ret (if has_content
           then {| token_found := true;
                   lexer_after :=
                     set_result (moved 2 (mark_end lexer)) STRING_CONTENT;
                   scanner_after := scanner |}
           else {| token_found := true;
                   lexer_after :=
                     set_result (mark_end (moved 3 lexer)) STRING_END;
                   scanner_after := pop_delimiter scanner |}).
Proof.
  intros scanner d has_content [inp pos ts te rs] rest Hq Ht Hin.
  cbn [input] in Hin. subst inp.
  unfold content_body, lookahead, advance, lexer_advance, mark_end, moved.
  cbn [input position token_start token_end result_symbol skipn].
  rewrite Ht, !Z.eqb_refl.
  destruct (end_character_cases d) as [E|[E|[E|E]]]; [| | |contradiction];
    rewrite E; unfold is_brace; eval_tests; destruct has_content;
    cbn [set_result input position token_start token_end result_symbol];
    repeat f_equal; lia.
Qed.

(** The triple-quoted string. *)
Lemma triple_string_body_and_end :
  forall scanner lexer valid_symbols d body rest,
    valid_symbols STRING_CONTENT = true ->
    error_recovery_mode valid_symbols = false ->
    delimiters scanner <> [] ->
    array_back (delimiters scanner) new_delimiter = d ->
    end_character d <> 0 ->
    is_triple d = true ->
    input lexer
    = body ++ end_character d :: end_character d :: end_character d :: rest ->
    all_pass (is_ordinary (end_character d)) body ->
    exists r,
      scan scanner lexer valid_symbols = Some r
      /\ token_start (lexer_after r) = token_start lexer
      /\ match body with
         | [] =>
             emitted r = Some STRING_END
             /\ scanner_after r
                = {| indents := indents scanner;
                     delimiters := removelast (delimiters scanner);
                     inside_f_string := false |}
             /\ token_end (lexer_after r) = Some (position lexer + 3)%nat
         | _ :: _ =>
             emitted r = Some STRING_CONTENT
             /\ scanner_after r = scanner
             /\ token_end (lexer_after r)
                = Some (position lexer + List.length body)%nat
         end.
Proof.
  intros scanner lexer valid_symbols d body rest Hv He Hne Hd Hq Ht Hin Hbody.
  set (l1 := moved (List.length body) lexer).
  assert (Hin1 : input l1
                 = end_character d :: end_character d :: end_character d :: rest)
    by (exact (input_moved lexer body _ Hin)).
  eexists. split.
  { eapply (scan_content_reads scanner lexer valid_symbols d body _ _);
      try eassumption.
    - apply end_character_no_brace. exact Hq.
    - apply (content_body_at_triple_end scanner d _ l1 rest); assumption. }
  fold l1. destruct body as [|c body].
  - cbn [List.length Nat.eqb negb lexer_after scanner_after emitted token_found].
    unfold l1. rewrite moved_0. cbn. repeat split.
  - cbn [List.length Nat.eqb negb lexer_after scanner_after emitted token_found].
    cbn. repeat split.
Qed.

(** Inside a string, before a stretch of ordinary characters that runs up
    to the closing quotes (the end character once, or three times for a
    triple-quoted string): a call reports the stretch as STRING_CONTENT,
    ending before the closing quotes, and leaves the state alone; when the
    stretch is empty it reports STRING_END for the closing quotes, pops the
    delimiter and clears [inside_f_string]. *)
Theorem string_body_and_end :
  forall scanner lexer valid_symbols d body rest,
    valid_symbols STRING_CONTENT = true ->
    error_recovery_mode valid_symbols = false ->
    delimiters scanner <> [] ->
    array_back (delimiters scanner) new_delimiter = d ->
    end_character d <> 0 ->
    input lexer = body ++ closing_quotes d ++ rest ->
    all_pass (is_ordinary (end_character d)) body ->
    exists r,
      scan scanner lexer valid_symbols = Some r
      /\ token_start (lexer_after r) = token_start lexer
      /\ match body with
         | [] =>
             emitted r = Some STRING_END
             /\ scanner_after r
                = {| indents := indents scanner;
                     delimiters := removelast (delimiters scanner);
                     inside_f_string := false |}
             /\ token_end (lexer_after r)
                = Some (position lexer + List.length (closing_quotes d))%nat
         | _ :: _ =>
             emitted r = Some STRING_CONTENT
             /\ scanner_after r = scanner
             /\ token_end (lexer_after r)
                = Some (position lexer + List.length body)%nat
         end.
Proof.
  intros scanner lexer valid_symbols d body rest Hv He Hne Hd Hq Hin Hbody.
  unfold closing_quotes in *. destruct (is_triple d) eqn:Ht.
  - cbn [repeat app List.length] in *.
    destruct (triple_string_body_and_end scanner lexer valid_symbols d body rest
                Hv He Hne Hd Hq Ht Hin Hbody) as (r & Hr & Hs & H).
    exists r. split; [exact Hr|]. split; [exact Hs|exact H].
  - cbn [repeat app List.length] in *.
    destruct (single_string_body_and_end scanner lexer valid_symbols d body rest
                Hv He Hne Hd Hq Ht Hin Hbody) as (r & Hr & Hs & H).
    exists r. split; [exact Hr|]. split; [exact Hs|].
    destruct body; [|destruct H as (H1 & H2 & H3 & _); auto].
    destruct H as (H1 & H2 & H3 & _). auto.
Qed.

(** ** Measuring the indentation *)

Lemma skip_skipped :
  forall lexer c rest, input lexer = c :: rest -> skip lexer = skipped 1 lexer.
Proof.
  intros [inp pos ts te rs] c rest H. simpl in H. subst inp.
  unfold skip, lexer_advance, skipped. simpl. rewrite Nat.add_1_r. reflexivity.
Qed.

Lemma skipped_skipped :
  forall n m lexer, skipped (S m) (skipped n lexer) = skipped (n + S m) lexer.
Proof.
  intros n m [inp pos ts te rs]. unfold skipped.
  cbn [input position token_start token_end result_symbol].
  rewrite skipn_skipn, <- !Nat.add_assoc, (Nat.add_comm (S m) n). reflexivity.
Qed.

Lemma input_skipped :
  forall lexer w rest, input lexer = w ++ rest ->
    input (skipped (List.length w) lexer) = rest.
Proof.
  intros lexer w rest H. unfold skipped. simpl. rewrite H, skipn_app, Nat.sub_diag.
  rewrite skipn_all2 by lia. reflexivity.
Qed.

Lemma indent_width_nonneg : forall ws, 0 <= indent_width ws.
Proof.
  induction ws as [|c ws IH]; simpl; [lia|]. destruct (c =? TAB); lia.
Qed.

(** One round of the layout loop at a blank. *)
Lemma layout_body_blank :
  forall scanner valid_symbols s c rest,
    input (here s) = c :: rest ->
    is_whitespace c = true ->
    0 <= indent_length s ->
    indent_length s + indent_width [c] < 4294967296 ->
    layout_body scanner valid_symbols s
    = Next (mkLayout (found_end_of_line s)
              (indent_length s + indent_width [c])
              (first_comment_indent_length s) (skipped 1 (here s))).
Proof.
  intros scanner valid_symbols s c rest Hin Hc H0 Hw.
  unfold layout_body. rewrite lookahead_first, Hin. cbn [first_of hd].
  rewrite (skip_skipped _ _ _ Hin). cbn [indent_width] in *.
  apply whitespace_cases in Hc as [-> | ->]; eval_tests;
    change (TAB =? TAB) with true in *; change (chr " " =? TAB) with false in *;
    cbn match in *; unfold to_uint32; rewrite Z.mod_small by lia;
    do 2 f_equal; lia.
Qed.

(** The layout loop goes over a run of blanks and adds up its width. *)
Lemma layout_reach :
  forall scanner valid_symbols ws rest,
    all_pass is_whitespace ws ->
  forall s,
    input (here s) = ws ++ rest ->
    0 <= indent_length s ->
    indent_length s + indent_width ws < 4294967296 ->
    ws <> [] ->
    reaches (layout_body scanner valid_symbols) s
      (mkLayout (found_end_of_line s) (indent_length s + indent_width ws)
         (first_comment_indent_length s) (skipped (List.length ws) (here s))).
Proof.
  intros scanner valid_symbols ws rest Hws.
  induction Hws as [|c ws Hc Hws IH]; intros s Hin H0 Hw Hne; [contradiction|].
  pose proof (indent_width_nonneg ws) as Hpos.
  assert (Hstep : indent_length s + indent_width [c] < 4294967296).
  { cbn [indent_width] in *. destruct (c =? TAB); lia. }
  pose proof (layout_body_blank scanner valid_symbols s c (ws ++ rest) Hin Hc H0
                Hstep) as E.
  eapply reaches_next; [exact E|].
  destruct ws as [|c' ws'].
  - cbn [indent_width List.length]. cbn [indent_width] in E. apply reaches_here.
  - set (s1 := mkLayout _ _ _ _) in *.
    assert (Hin1 : input (here s1) = (c' :: ws') ++ rest)
      by (exact (input_skipped (here s) [c] _ Hin)).
    specialize (IH s1 Hin1).
    cbn [indent_length found_end_of_line first_comment_indent_length here s1] in IH.
    unfold s1 in IH. cbn [indent_length found_end_of_line first_comment_indent_length here] in IH.
    replace (indent_length s + indent_width (c :: c' :: ws'))
      with (indent_length s + indent_width [c] + indent_width (c' :: ws'))
      by (cbn [indent_width]; lia).
    replace (skipped (List.length (c :: c' :: ws')) (here s))
      with (skipped (List.length (c' :: ws')) (skipped 1 (here s)))
      by (cbn [List.length]; rewrite skipped_skipped; reflexivity).
    apply IH.
    + cbn [indent_width] in *. destruct (c =? TAB); lia.
    + cbn [indent_width] in *. destruct (c =? TAB); lia.
    + discriminate.
Qed.

(** The layout loop on a line break, a run of blanks and a character that
    is not layout: it stops at that character with the width of the run. *)
Lemma scan_layout_measures :
  forall scanner lexer valid_symbols ws c rest,
    input lexer = NL :: ws ++ c :: rest ->
    all_pass is_whitespace ws ->
    starts_layout c = false ->
    indent_width ws < 4294967296 ->
    scan_layout scanner lexer valid_symbols
    = Fall (mkLayout true (indent_width ws) (-1)
              (skipped (1 + List.length ws) (mark_end lexer))).
Proof.
  intros scanner lexer valid_symbols ws c rest Hin Hws Hc Hw.
  destruct (starts_layout_false _ Hc) as (H1 & H2 & H3 & H4 & H5 & H6 & H7 & H8).
  unfold scan_layout. set (l0 := mark_end lexer).
  assert (Hl0 : input l0 = NL :: ws ++ c :: rest) by exact Hin.
  set (s0 := mkLayout false 0 (-1) l0).
  set (s1 := mkLayout true 0 (-1) (skipped 1 l0)).
  set (s2 := mkLayout true (indent_width ws) (-1) (skipped (1 + List.length ws) l0)).
  assert (E0 : layout_body scanner valid_symbols s0 = Next s1).
  { unfold layout_body, s0. cbn [here]. rewrite lookahead_first, Hl0.
    cbn [first_of hd]. change (NL =? NL) with true. cbn match.
    rewrite (skip_skipped _ _ _ Hl0). reflexivity. }
  assert (Hin1 : input (here s1) = ws ++ c :: rest)
    by (exact (input_skipped l0 [NL] _ Hl0)).
  assert (Hreach : reaches (layout_body scanner valid_symbols) s0 s2).
  { eapply reaches_next; [exact E0|].
    destruct ws as [|c' ws'].
    - apply reaches_here.
    - pose proof (layout_reach scanner valid_symbols (c' :: ws') (c :: rest)
                    Hws s1 Hin1 (Z.le_refl 0) Hw ltac:(discriminate)) as H.
      cbn [found_end_of_line indent_length first_comment_indent_length here s1] in H.
      unfold s1 in H.
      cbn [found_end_of_line indent_length first_comment_indent_length here] in H.
      cbn [List.length] in H. rewrite skipped_skipped in H. exact H. }
  assert (Hin2 : input (here s2) = c :: rest).
  { unfold s2. cbn [here].
    replace (1 + List.length ws)%nat with (List.length (NL :: ws)) by reflexivity.
    apply input_skipped. exact Hl0. }
  assert (E2 : layout_body scanner valid_symbols s2 = Break s2).
  { unfold layout_body. rewrite lookahead_first, Hin2. cbn [first_of hd].
    rewrite H1, H2, H3, H4, H5, H6, H7. cbn [orb andb].
    unfold eof. rewrite Hin2. reflexivity. }
  destruct (loop_from_reached (layout_body scanner valid_symbols)
              (fun s => remaining (here s))
              (layout_body_shrinks scanner valid_symbols) _ _ Hreach
              (S (List.length (input l0))))
    as (fuel' & Hfuel & Heq).
  { unfold remaining. simpl. lia. }
  destruct fuel' as [|fuel']; [lia|].
  fold s0. rewrite Heq. cbn [loop]. rewrite E2. reflexivity.
Qed.

(** The indentation of a line: after a line break, a run of spaces and tabs
    and a first character that is not layout, the measured width is the
    number of spaces plus eight times the number of tabs.  A width above the
    top of the indent stack gives INDENT and pushes the width; a width below
    it gives DEDENT and pops one entry; the width of the top gives NEWLINE
    and leaves the stack alone.  In each case the lexer stands at the first
    character of the line, everything before it skipped. *)
Theorem indentation_of_a_line :
  forall scanner lexer valid_symbols ws c rest,
    outside_string scanner valid_symbols ->
    input lexer = NL :: ws ++ c :: rest ->
    all_pass is_whitespace ws ->
    starts_layout c = false ->
    indent_width ws < 4294967296 ->
    indents scanner <> [] ->
    let top := last (indents scanner) 0 in
    let line := skipped (1 + List.length ws) (mark_end lexer) in
    (valid_symbols INDENT = true -> top < indent_width ws ->
     scan scanner lexer valid_symbols
     = Some {| token_found := true;
               lexer_after := set_result line INDENT;
               scanner_after :=
                 {| indents := indents scanner ++ [indent_width ws mod 65536];
                    delimiters := delimiters scanner;
                    inside_f_string := inside_f_string scanner |} |})
    /\ (valid_symbols DEDENT = true -> indent_width ws < top ->
        inside_f_string scanner = false ->
        scan scanner lexer valid_symbols
        = Some {| token_found := true;
                  lexer_after := set_result line DEDENT;
                  scanner_after :=
                    {| indents := removelast (indents scanner);
                       delimiters := delimiters scanner;
                       inside_f_string := false |} |})
    /\ (valid_symbols NEWLINE = true ->
        error_recovery_mode valid_symbols = false ->
        indent_width ws = top ->
        scan scanner lexer valid_symbols
        = Some {| token_found := true;
                  lexer_after := set_result line NEWLINE;
                  scanner_after := scanner |}).
Proof.
  intros scanner lexer valid_symbols ws c rest Hout Hin Hws Hc Hw Hne top line.
  pose proof (indent_width_nonneg ws) as Hpos.
  assert (Hfront :
            scan scanner lexer valid_symbols
            = run (s <- (_ <- scan_layout_emit scanner valid_symbols
                                (mkLayout true (indent_width ws) (-1) line) ;;
                         Fall (mkLayout true (indent_width ws) (-1) line)) ;;
                   lexer <- scan_operators scanner (here s) valid_symbols ;;
                   scan_back scanner lexer valid_symbols
                     (first_comment_indent_length s))).
  { unfold scan, scan_with, scan_front.
    rewrite (scan_escape_outside _ _ _ Hout). cbn [bind].
    rewrite (scan_content_outside _ _ _ Hout). cbn [bind].
    rewrite (scan_layout_measures scanner lexer valid_symbols ws c rest
               Hin Hws Hc Hw).
    reflexivity. }
  rewrite Hfront. unfold scan_layout_emit.
  cbn [found_end_of_line here indent_length first_comment_indent_length].
  rewrite (nonempty_length _ Hne). unfold array_back. fold top.
  split; [|split].
  - intros Hv Hlt. rewrite Hv. apply Z.ltb_lt in Hlt. rewrite Hlt. reflexivity.
  - intros Hv Hlt Hf. rewrite Hv, Hf.
    assert (H1 : (top <? indent_width ws) = false) by (apply Z.ltb_ge; lia).
    assert (H2 : (indent_width ws <? top) = true) by (apply Z.ltb_lt; lia).
    assert (H3 : (-1 <? top) = true) by (apply Z.ltb_lt; lia).
    rewrite H1, H2, H3, andb_false_r. cbn [orb andb negb bind run finish].
    unfold pop_indent, array_pop. rewrite Hf. reflexivity.
  - intros Hv He Heq. rewrite Hv, He.
    assert (H1 : (top <? indent_width ws) = false) by (apply Z.ltb_ge; lia).
    assert (H2 : (indent_width ws <? top) = false) by (apply Z.ltb_ge; lia).
    rewrite H1, H2, !andb_false_r. cbn [orb andb negb bind run finish].
    reflexivity.
Qed.

(** ** What holds of every state that the host can reach *)

Lemma scan_keeps_range :
  forall scanner lexer valid_symbols r,
    state_in_range scanner ->
    scan scanner lexer valid_symbols = Some r ->
    state_in_range (scanner_after r).
Proof.
  intros scanner lexer valid_symbols r ([rest Hroot] & Hw & Hd) Hr.
  pose proof (scan_outcome_holds scanner lexer valid_symbols r Hr) as Hout.
  assert (Hsame : scanner_after r = scanner -> state_in_range (scanner_after r)).
  { intros ->. repeat split; eauto. }
  unfold scan_outcome in Hout.
  destruct (emitted r) as [[]|]; open_outcome; auto.
  - (* INDENT *)
    match goal with H : scanner_after r = _ |- _ => rewrite H end.
    unfold state_in_range, push_indent, array_push. cbn [indents delimiters].
    rewrite Hroot. repeat split.
    + eexists. reflexivity.
    + rewrite <- Hroot. apply Forall_app. split; [assumption|].
      constructor; [apply to_uint16_range|constructor].
    + assumption.
  - (* DEDENT *)
    match goal with H : scanner_after r = _ |- _ => rewrite H end.
    unfold state_in_range, pop_indent, array_pop. cbn [indents delimiters].
    repeat split.
    + unfold array_back in *. rewrite Hroot in *.
      match goal with H : ?w < last (0 :: rest) 0 |- _ =>
        apply (rooted_pop rest w); lia end.
    + apply Forall_removelast. assumption.
    + assumption.
  - (* STRING_START *)
    match goal with H : scanner_after r = _ |- _ => rewrite H end.
    unfold state_in_range, push_delimiter, array_push. cbn [indents delimiters].
    repeat split; eauto.
    apply Forall_app. split; [assumption|].
    constructor; [|constructor]. split; assumption.
  - (* STRING_END *)
    match goal with H : scanner_after r = _ |- _ => rewrite H end.
    unfold state_in_range, pop_delimiter, array_pop. cbn [indents delimiters].
    repeat split; eauto. apply Forall_removelast. assumption.
Qed.

Lemma roundtrip_keeps_range :
  forall scanner, state_in_range scanner -> state_in_range (roundtrip scanner).
Proof.
  intros scanner (_ & _ & Hd). rewrite roundtrip_spec.
  unfold state_in_range. cbn [indents delimiters]. repeat split.
  - eexists. reflexivity.
  - constructor; [lia|].
    apply Forall_firstn_keeps. apply Forall_forall. intros w Hin.
    apply in_map_iff in Hin as (w' & <- & _).
    pose proof (to_uint8_range w'). lia.
  - apply Forall_forall. intros d Hin.
    apply in_map_iff in Hin as (d' & <- & Hin').
    pose proof (Forall_firstn_keeps delimiter_ok (written_delimiters scanner)
                  _ Hd) as Hd'.
    rewrite Forall_forall in Hd'. destruct (Hd' d' Hin') as [Hfit Hend].
    assert (E : to_uint8 (flags d') = flags d').
    { unfold to_uint8, flags_fit in *. apply Z.mod_small. lia. }
    rewrite E. destruct d' as [f]. split; assumption.
Qed.

(** In every state that the host can bring about (by creating the scanner,
    by scan calls, by saving and restoring) the indent stack has 0 at its
    bottom and holds 16-bit widths, and every open delimiter has one of the
    three quotes as its end character and flags within the seven bits: the
    top of either stack is there whenever the scanner reads it. *)
Theorem reachable_state_in_range :
  forall scanner,
    reachable scanner ->
    (exists rest, indents scanner = 0 :: rest)
    /\ Forall (fun w => 0 <= w < 65536) (indents scanner)
    /\ Forall (fun d => 0 <= flags d < 128
                        /\ In (end_character d) [SQUOTE; DQUOTE; BACKTICK])
         (delimiters scanner).
Proof.
  intros scanner H.
  assert (Hrange : state_in_range scanner).
  { induction H as [|scanner lexer valid_symbols r _ IH Hr|scanner _ IH].
    - repeat split; [exists []; reflexivity|repeat constructor; lia|constructor].
    - eapply scan_keeps_range; eassumption.
    - apply roundtrip_keeps_range. exact IH. }
  destruct Hrange as (Hroot & Hw & Hd). split; [exact Hroot|]. split; [exact Hw|].
  eapply Forall_impl; [|exact Hd]. intros d [Hfit Hend]. split; [exact Hfit|].
  destruct (end_character_cases d) as [E|[E|[E|E]]]; try contradiction;
    rewrite E; simpl; auto.
Qed.

(** ** A flag left over by a reset *)

(** With no delimiter open, a raised [inside_f_string] stays up until a
    call reports STRING_START: STRING_END, which lowers it, needs an open
    delimiter. *)
Lemma left_over_flag_kept :
  forall start later,
    inside_f_string start = true -> delimiters start = [] ->
    calls_without STRING_START start later ->
    inside_f_string later = true /\ delimiters later = [].
Proof.
  intros start later Hflag Hnone Hrun.
  induction Hrun as [|scanner lexer valid_symbols r _ [IHf IHd] Hr Hquiet];
    [split; assumption|].
  pose proof (scan_outcome_holds scanner lexer valid_symbols r Hr) as Hout.
  unfold scan_outcome in Hout.
  destruct (emitted r) as [[]|]; open_outcome;
    try congruence;
    match goal with H : scanner_after r = _ |- _ => rewrite H end;
    split; assumption.
Qed.

(** [deserialize] with length 0, the call that resets a scanner, leaves
    [inside_f_string] as it was.  When the flag was up, it stays up through
    the calls that follow until one of them reports STRING_START, and none
    of these calls reports DEDENT, however far the indent stack has grown
    since the reset: a block that is opened in this stretch is not closed
    in it. *)
Theorem left_over_flag_blocks_dedent :
  forall scanner buffer later lexer valid_symbols r,
    inside_f_string scanner = true ->
    calls_without STRING_START (deserialize scanner buffer 0) later ->
    scan later lexer valid_symbols = Some r ->
    inside_f_string later = true /\ emitted r <> Some DEDENT.
Proof.
  intros scanner buffer later lexer valid_symbols r Hflag Hrun Hr.
  destruct (left_over_flag_kept (deserialize scanner buffer 0) later)
    as [Hf _]; [exact Hflag|reflexivity|exact Hrun|].
  split; [exact Hf|]. intros Ht.
  pose proof (scan_outcome_holds later lexer valid_symbols r Hr) as Hout.
  unfold scan_outcome in Hout. rewrite Ht in Hout. destruct Hout as [Hout _].
  congruence.
Qed.

(** ** Operator tokens *)


(** ** Line openings that decide at once *)

(** A line that starts, after blanks, with a path ([/], [./], [~/]) is a
    bare subprocess; one that starts with explicit subprocess syntax ([$(],
    [$[], [!(], [![]) or with a list ([[]) is not; in each case the detector
    answers at once, whatever follows, with the lexer left at the last
    character of the opening. *)
Theorem opening_decides :
  forall lexer sd ws start v rest,
    input lexer = ws ++ codes start ++ rest ->
    all_pass is_whitespace ws ->
    In (start, v) opening_table ->
    exists d,
      detect_subprocess_line lexer sd = Return d
      /\ verdict d = v
      /\ after d
         = moved (List.length ws + String.length start - 1) (mark_end lexer).
Proof.
  intros [inp pos ts te rs] sd ws start v rest Hin Hws Hstart.
  cbn [input] in Hin. subst inp.
  unfold detect_subprocess_line, detect_opening.
  assert (Hblank : is_whitespace (first_of (codes start ++ rest)) = false).
  { simpl in Hstart.
    repeat match type of Hstart with
           | _ \/ _ => destruct Hstart as [Hstart|Hstart]
           | False => contradiction
           end; injection Hstart as <- <-; reflexivity. }
  rewrite (advance_while_moved is_whitespace ws (codes start ++ rest) _ Hws Hblank)
    by reflexivity.
  unfold mark_end.
  cbn [input position token_start token_end result_symbol].
  rewrite moved_explicit.
  simpl in Hstart.
  repeat match type of Hstart with
         | _ \/ _ => destruct Hstart as [Hstart|Hstart]
         | False => contradiction
         end; injection Hstart as <- <-;
    (eexists; split; [reflexivity|]; split; [reflexivity|]);
    cbn [String.length codes app];
    match goal with
    | |- context [(List.length ws + 1 - 1)%nat] =>
        replace (List.length ws + 1 - 1)%nat with (List.length ws) by lia;
        rewrite moved_explicit; reflexivity
    | |- context [ws ++ ?c :: ?rest'] =>
        replace (List.length ws + 2 - 1)%nat
          with (List.length (ws ++ [c])) by (rewrite length_app; simpl; lia);
        replace (ws ++ c :: rest') with ((ws ++ [c]) ++ rest')
          by (rewrite <- app_assoc; reflexivity);
        rewrite moved_explicit; cbn; rewrite length_app; cbn; f_equal; lia
    end.
Qed.

Lemma opening_decides_witness :
  exists d,
    detect_subprocess_line (lexer_on (codes "  ./run.sh = 1")) None = Return d
    /\ verdict d = DETECT_SUBPROCESS
    /\ after d = moved 3 (mark_end (lexer_on (codes "  ./run.sh = 1"))).
Proof.
  apply (opening_decides (lexer_on (codes "  ./run.sh = 1")) None
           (codes "  ") "./" DETECT_SUBPROCESS (codes "run.sh = 1")).
  - reflexivity.
  - repeat constructor.
  - simpl. tauto.
Defined.

(** ** Decorators *)

(** A line that starts with an at sign and a name directly followed by a
    dot or an opening parenthesis is a Python decorator: the verdict is
    NONE. *)
Theorem decorator_is_not_subprocess :
  forall lexer sd ws name c rest,
    input lexer = ws ++ chr "@" :: name ++ c :: rest ->
    all_pass is_whitespace ws ->
    is_identifier_start (first_of name) = true ->
    all_pass is_identifier_char name ->
    c = chr "." \/ c = chr "(" ->
    exists d,
      detect_subprocess_line lexer sd = Return d /\ verdict d = DETECT_NONE.
Proof.
  intros [inp pos ts te rs] sd ws name c rest Hin Hws Hstart Hname Hc.
  cbn [input] in Hin. subst inp.
  assert (Hne : name <> []) by (intros ->; discriminate Hstart).
  unfold detect_subprocess_line, detect_opening.
  rewrite (advance_while_moved is_whitespace ws (chr "@" :: name ++ c :: rest)
             _ Hws eq_refl) by reflexivity.
  unfold mark_end.
  cbn [input position token_start token_end result_symbol].
  rewrite moved_explicit.
  set (l0 := mkLexer (chr "@" :: name ++ c :: rest) _ _ _ _).
  assert (Hl0 : input l0 = chr "@" :: name ++ c :: rest) by reflexivity.
  assert (Hla0 : lookahead l0 = chr "@") by reflexivity.
  rewrite Hla0. eval_tests. unfold probe.
  repeat (progress (cbn [bind]; rewrite ?Hla0); eval_tests).
  unfold probe_at_sign.
  rewrite (advance_moved l0 _ _ Hl0).
  set (l1 := moved 1 l0).
  assert (Hl1 : input l1 = name ++ c :: rest)
    by (exact (input_moved l0 [chr "@"] _ Hl0)).
  assert (Hla1 : lookahead l1 = first_of name).
  { rewrite lookahead_first, Hl1. apply first_of_app. exact Hne. }
  rewrite Hla1, Hstart.
  assert (Hcc : is_identifier_char (first_of (c :: rest)) = false)
    by (destruct Hc as [-> | ->]; reflexivity).
  rewrite (advance_while_moved is_identifier_char name (c :: rest) l1 Hname
             Hcc Hl1).
  rewrite (lookahead_moved l1 name (c :: rest) Hl1). cbn [first_of hd].
  destruct Hc as [-> | ->]; eval_tests;
    (eexists; split; [reflexivity|reflexivity]).
Qed.

Lemma decorator_is_not_subprocess_witness :
  exists d,
    detect_subprocess_line (lexer_on (codes "@app.route(x) > y")) None = Return d
    /\ verdict d = DETECT_NONE.
Proof.
  apply (decorator_is_not_subprocess (lexer_on (codes "@app.route(x) > y")) None
           [] (codes "app") (chr ".") (codes "route(x) > y")).
  - reflexivity.
  - constructor.
  - reflexivity.
  - repeat constructor.
  - left. reflexivity.
Defined.

(** ** The end of the input *)


(** ** Quoted arguments *)









(** ** Command lines *)

Lemma plain_advance :
  forall lexer,
    line_is_plain (input lexer) = true ->
    lookahead lexer <> 0 -> lookahead lexer <> NL ->
    line_is_plain (input (advance lexer)) = true.
Proof.
  intros [inp pos ts te rs] H H0 Hn. unfold advance, lexer_advance, lookahead in *.
  cbn [input] in *. destruct inp as [|c inp]; [exact H|].
  cbn [input line_is_plain] in *.
  apply Z.eqb_neq in H0, Hn. rewrite H0, Hn in H. cbn [orb] in H.
  apply andb_prop in H as [_ H]. exact H.
Qed.

Lemma plain_head :
  forall lexer,
    line_is_plain (input lexer) = true ->
    lookahead lexer <> 0 -> lookahead lexer <> NL ->
    is_plain (lookahead lexer) = true.
Proof.
  intros [inp pos ts te rs] H H0 Hn. unfold lookahead in *.
  cbn [input] in *. destruct inp as [|c inp]; [contradiction|].
  cbn [line_is_plain] in H.
  apply Z.eqb_neq in H0, Hn. rewrite H0, Hn in H. cbn [orb] in H.
  apply andb_prop in H as [H _]. exact H.
Qed.

Lemma plain_while :
  forall p, p 0 = false -> p NL = false ->
  forall n lexer,
    line_is_plain (input lexer) = true ->
    line_is_plain (input (lexer_while false p n lexer)) = true.
Proof.
  intros p H0 Hn. induction n as [|n IH]; intros lexer H; simpl; [exact H|].
  destruct (p (lookahead lexer)) eqn:E; [|exact H].
  apply IH. apply plain_advance; [exact H| |]; intros Hc; rewrite Hc in E;
    congruence.
Qed.

Lemma plain_advance_while :
  forall p lexer, p 0 = false -> p NL = false ->
    line_is_plain (input lexer) = true ->
    line_is_plain (input (advance_while p lexer)) = true.
Proof. intros p lexer H0 Hn H. apply plain_while; assumption. Qed.

Lemma is_plain_parts :
  forall c, is_plain c = true ->
    (c =? chr "=") = false /\ (c =? chr "!") = false
    /\ (c =? DQUOTE) = false /\ (c =? SQUOTE) = false.
Proof.
  intros c H. unfold is_plain in H. apply negb_true_iff in H.
  repeat match type of H with
         | _ || _ = false => apply orb_false_elim in H as [H ?]
         end.
  repeat split; assumption.
Qed.

Lemma plain_not_equals :
  forall lexer,
    line_is_plain (input lexer) = true -> (lookahead lexer =? chr "=") = false.
Proof.
  intros [inp pos ts te rs] H. unfold lookahead. cbn [input] in *.
  destruct inp as [|c inp]; [reflexivity|]. cbn [line_is_plain] in H.
  destruct ((c =? 0) || (c =? NL)) eqn:E.
  - apply orb_prop in E as [E|E]; apply Z.eqb_eq in E; rewrite E; reflexivity.
  - apply andb_prop in H as [H _]. apply is_plain_parts in H as [H _]. exact H.
Qed.

Lemma python_signal_raise_shell :
  forall x s,
    In x [has_flag; has_pipe; has_redirect; has_env_arg; has_subprocess_macro] ->
    python_signal (raise x s) = python_signal s.
Proof.
  intros x s H. simpl in H.
  repeat destruct H as [H|H]; try contradiction; subst x; reflexivity.
Qed.

(** Proves that a lexer reached by [advance] and [advance_while] from one
    with a plain line before it has a plain line before it. *)
Ltac plain_lexer :=
  lazymatch goal with
  | H : line_is_plain (input ?l) = true |- line_is_plain (input ?l) = true =>
      exact H
  | |- line_is_plain (input (advance_while _ _)) = true =>
      apply plain_advance_while; [reflexivity|reflexivity|plain_lexer]
  | |- line_is_plain (input (advance ?l)) = true =>
      apply plain_advance;
      [ plain_lexer
      | match goal with
        | H : lookahead l <> 0 |- _ => exact H
        | H : (lookahead l =? ?k) = true |- _ =>
            apply Z.eqb_eq in H; rewrite H; discriminate
        end
      | match goal with
        | H : lookahead l <> NL |- _ => exact H
        | H : (lookahead l =? ?k) = true |- _ =>
            apply Z.eqb_eq in H; rewrite H; discriminate
        end ]
  end.

(** One round of the loop on a plain line leaves it on a plain line: the
    characters that are left raise shell signals only. *)
Lemma line_scan_body_plain :
  forall s s',
    on_plain_line s -> line_scan_body s = Next s' -> on_plain_line s'.
Proof.
  intros s s' (Hsh & Hstr & Hpy & Hpl) E. unfold line_scan_body in E.
  destruct (negb (lookahead (cursor s) =? 0) && negb (lookahead (cursor s) =? NL))
    eqn:Hc; [|discriminate].
  apply andb_prop in Hc as [H0 Hn].
  apply negb_true_iff, Z.eqb_neq in H0. apply negb_true_iff, Z.eqb_neq in Hn.
  destruct (is_plain_parts _ (plain_head _ Hpl H0 Hn)) as (He & Hx & Hdq & Hsq).
  pose proof (plain_not_equals _ (plain_advance _ Hpl H0 Hn)) as Hnext.
  rewrite Hstr, Hsh, He, Hx, Hdq, Hsq, ?Hnext in E.
  cbn [negb andb orb] in E. rewrite ?andb_false_r in E.
  injection E as <-.
  repeat (lazymatch goal with
          | |- on_plain_line (if ?b then _ else _) => destruct b eqn:?
          end).
  all: unfold on_plain_line; signals_simpl.
  all: repeat match goal with
         | |- context [if ?b then _ else _] => destruct b eqn:?
         end.
  all: signals_simpl.
  all: rewrite ?python_signal_raise_shell by (simpl; auto 10).
  all: repeat split; try assumption; try reflexivity; try plain_lexer.
Qed.

(** On a plain line behind a shell signal the loop ends with no Python
    signal up, and with every signal that was up before. *)
Lemma plain_line_decides :
  forall first_ident lexer s,
    reaches line_scan_body (line_scan_start first_ident lexer) s ->
    on_plain_line s ->
    exists t,
      line_scan first_ident lexer = Fall t
      /\ python_signal (signals t) = false
      /\ (forall x, signals s x = true -> signals t x = true).
Proof.
  intros first_ident lexer s Hreach Hs.
  destruct (line_scan_falls first_ident lexer) as [t Ht].
  exists t. split; [exact Ht|].
  unfold line_scan in Ht.
  destruct (loop_from_reached line_scan_body (fun s => remaining (cursor s))
              line_scan_body_shrinks _ _ Hreach
              (S (List.length (input lexer))))
    as (fuel' & _ & Heq).
  { unfold remaining. simpl. lia. }
  rewrite Heq in Ht.
  pose proof (loop_invariant line_scan_body
                (fun u => on_plain_line u
                          /\ forall x, signals s x = true -> signals u x = true)
                any
                (fun u => python_signal (signals u) = false
                          /\ forall x, signals s x = true -> signals u x = true))
    as Hinv.
  specialize (Hinv (fun u u' Hu E =>
                      conj (line_scan_body_plain u u' (proj1 Hu) E)
                           (fun x Hx =>
                              line_scan_body_keeps_signal x u u' E
                                (proj2 Hu x Hx)))).
  specialize (Hinv (fun _ _ _ _ => I)).
  assert (Hbreak : forall u b,
             on_plain_line u
             /\ (forall x, signals s x = true -> signals u x = true) ->
             line_scan_body u = Break b ->
             python_signal (signals b) = false
             /\ (forall x, signals s x = true -> signals b x = true)).
  { intros u b [(_ & _ & Hp & _) Hk] E. unfold line_scan_body in E.
    destruct (_ && _); [discriminate|]. injection E as <-. split; assumption. }
  specialize (Hinv Hbreak fuel' s (conj Hs (fun x Hx => Hx))).
  rewrite Ht in Hinv. exact Hinv.
Qed.

Lemma input_advance :
  forall lexer, input (advance lexer) = tl (input lexer).
Proof. intros [[|c inp] pos ts te rs]; reflexivity. Qed.

Lemma shell_signalled_raise :
  forall x s,
    In x [has_flag; has_pipe; has_redirect; has_env_arg; has_subprocess_macro] ->
    shell_signalled (raise x s) = true.
Proof.
  intros x s H. simpl in H. unfold shell_signalled, raise.
  repeat destruct H as [H|H]; try contradiction; subst x; cbn [Signal_beq];
    rewrite ?orb_true_r; reflexivity.
Qed.

Lemma shell_signalled_kept :
  forall s t : Signals,
    (forall x, s x = true -> t x = true) ->
    shell_signalled s = true -> shell_signalled t = true.
Proof.
  intros s t H. unfold shell_signalled. intros Hs.
  repeat match type of Hs with
         | _ || _ = true => apply orb_prop in Hs as [Hs|Hs]
         end;
    rewrite (H _ Hs), ?orb_true_r; reflexivity.
Qed.

(** One round of the loop at a shell mark on a plain line, outside a string
    and with no Python signal up: a shell signal goes up, and the loop is
    on a plain line behind it. *)
Lemma line_scan_body_mark :
  forall s,
    in_string s = false ->
    python_signal (signals s) = false ->
    shell_mark (input (cursor s)) = true ->
    line_is_plain (input (cursor s)) = true ->
    exists s',
      line_scan_body s = Next s'
      /\ on_plain_line s' /\ shell_signalled (signals s') = true.
Proof.
  intros s Hs Hpy Hm Hpl.
  destruct (input (cursor s)) as [|c l'] eqn:Hin; [discriminate Hm|].
  assert (Hla : lookahead (cursor s) = c)
    by (rewrite lookahead_first, Hin; reflexivity).
  assert (Hin1 : input (advance (cursor s)) = l')
    by (rewrite input_advance, Hin; reflexivity).
  assert (Hla1 : lookahead (advance (cursor s)) = first_of l')
    by (rewrite lookahead_first, Hin1; reflexivity).
  assert (Hla2 : lookahead (advance (advance (cursor s))) = first_of (tl l'))
    by (rewrite lookahead_first, input_advance, Hin1; reflexivity).
  assert (H0 : c <> 0).
  { intros ->. discriminate Hm. }
  assert (Hn : c <> NL).
  { intros ->. discriminate Hm. }
  assert (Hpl1 : line_is_plain (input (advance (cursor s))) = true).
  { apply plain_advance; rewrite ?Hla, ?Hin; assumption. }
  pose proof (plain_not_equals _ Hpl1) as Hne. rewrite Hla1 in Hne.
  rewrite <- Hin in Hpl.
  cbn [shell_mark] in Hm. unfold line_scan_body. rewrite Hs, Hla, ?Hla1.
  apply Z.eqb_neq in H0, Hn. rewrite H0, Hn. cbn [negb andb].
  destruct (c =? chr "-") eqn:E1.
  { apply Z.eqb_eq in E1. subst c. eval_tests.
    destruct (first_of l' =? chr "-") eqn:E2; cbv iota;
      rewrite ?Hla1, ?Hla2, Hm;
      (eexists; split; [reflexivity|]); unfold on_plain_line; signals_simpl;
      rewrite python_signal_raise_shell by (simpl; auto);
      rewrite shell_signalled_raise by (simpl; auto);
      repeat split; try assumption.
    apply plain_advance; [exact Hpl1| |]; rewrite Hla1; intros H;
      rewrite H in E2; discriminate E2. }
  destruct (c =? chr "|") eqn:E2.
  { apply Z.eqb_eq in E2. subst c. eval_tests. rewrite ?Hla1, ?Hne.
    destruct (first_of l' =? chr "|") eqn:E3; cbn [negb];
      (eexists; split; [reflexivity|]); unfold on_plain_line; signals_simpl;
      rewrite python_signal_raise_shell by (simpl; auto);
      rewrite shell_signalled_raise by (simpl; auto);
      repeat split; try assumption.
    apply plain_advance; [exact Hpl1| |]; rewrite Hla1; intros H;
      rewrite H in E3; discriminate E3. }
  destruct (c =? chr "&") eqn:E3.
  { apply Z.eqb_eq in E3. subst c. eval_tests. rewrite ?Hla1, Hm.
    (eexists; split; [reflexivity|]); unfold on_plain_line; signals_simpl;
      rewrite python_signal_raise_shell by (simpl; auto);
      rewrite shell_signalled_raise by (simpl; auto);
      repeat split; try assumption.
    apply plain_advance; [exact Hpl1| |]; rewrite Hla1; intros H;
      rewrite H in Hm; discriminate Hm. }
  destruct (c =? chr ">") eqn:E4.
  { apply Z.eqb_eq in E4. subst c. eval_tests. rewrite ?Hla1, ?Hne.
    (eexists; split; [reflexivity|]); unfold on_plain_line; signals_simpl;
      rewrite python_signal_raise_shell by (simpl; auto);
      rewrite shell_signalled_raise by (simpl; auto);
      repeat split; assumption. }
  destruct (c =? chr "<") eqn:E5; [|discriminate Hm].
  apply Z.eqb_eq in E5. subst c. eval_tests. rewrite ?Hla1, ?Hne, Hm.
  (eexists; split; [reflexivity|]); unfold on_plain_line; signals_simpl;
    rewrite python_signal_raise_shell by (simpl; auto);
    rewrite shell_signalled_raise by (simpl; auto);
    repeat split; assumption.
Qed.

Lemma shell_mark_first :
  forall l, shell_mark l = true ->
    In (first_of l) [chr "-"; chr "|"; chr "&"; chr ">"; chr "<"].
Proof.
  intros [|c l] H; [discriminate H|]. cbn [shell_mark first_of hd] in *.
  repeat match type of H with
         | (if ?b then _ else _) = true =>
             let E := fresh "E" in
             destruct b eqn:E;
             [apply Z.eqb_eq in E; subst c; simpl; tauto|]
         end.
  discriminate H.
Qed.



(** A word that is no keyword, followed (after optional blanks) by a shell
    mark, opens a subprocess line, whether or not the word is a known
    command, when the rest of the line holds no equals sign, exclamation
    mark or quote. *)
Theorem shell_mark_line_is_subprocess :
  forall lexer sd ident ws rest,
    input lexer = ident ++ ws ++ rest ->
    is_identifier ident ->
    is_python_keyword ident = false ->
    all_pass is_whitespace ws ->
    shell_mark rest = true ->
    line_is_plain rest = true ->
    exists d,
      detect_subprocess_line lexer sd = Return d
      /\ verdict d = DETECT_SUBPROCESS.
Proof.
  intros lexer sd ident ws rest Hin Hident Hkey Hws Hm Hplain.
  assert (Hfirst : In (first_of (ws ++ rest))
                      [chr "-"; chr "|"; chr "&"; chr ">"; chr "<"; chr " "; TAB]).
  { destruct Hws as [|b ws Hb _].
    - apply shell_mark_first in Hm. simpl in *. tauto.
    - apply whitespace_cases in Hb as [-> | ->]; simpl; tauto. }
  unfold detect_subprocess_line.
  rewrite (detect_opening_word lexer sd ident (ws ++ rest) Hin Hident Hkey).
  2:{ simpl in Hfirst.
      repeat destruct Hfirst as [Hfirst|Hfirst]; try contradiction;
        rewrite <- Hfirst; reflexivity. }
  2:{ simpl in Hfirst.
      repeat destruct Hfirst as [Hfirst|Hfirst]; try contradiction;
        rewrite <- Hfirst; reflexivity. }
  cbn [bind]. set (l1 := moved _ _).
  assert (Hl1 : input l1 = ws ++ rest)
    by (exact (input_moved (mark_end lexer) ident _ Hin)).
  destruct (blanks_reach ws rest Hws (line_scan_start ident l1)
              Hl1 eq_refl eq_refl)
    as (t & Hreach & Hint & Hst & _ & _ & Hsig).
  destruct (line_scan_body_mark t Hst) as (s' & E & Hs' & Hshell).
  - rewrite Hsig. reflexivity.
  - rewrite Hint. exact Hm.
  - rewrite Hint. exact Hplain.
  - destruct (plain_line_decides ident l1 s') as (u & Hu & Hpy & Hkeep).
    + eapply reaches_trans; [exact Hreach|].
      eapply reaches_next; [exact E|apply reaches_here].
    + exact Hs'.
    + rewrite Hu. cbn [bind]. eexists. split; [reflexivity|].
      cbn [verdict detected]. unfold line_decision. rewrite Hpy.
      rewrite (shell_signalled_kept _ _ Hkeep Hshell). reflexivity.
Qed.

Lemma shell_mark_line_is_subprocess_witness :
  (exists d,
     detect_subprocess_line
       (lexer_on (codes "mytool --verbose run(x)" ++ [NL])) None
     = Return d
     /\ verdict d = DETECT_SUBPROCESS)
  /\ (exists d,
        detect_subprocess_line (lexer_on (codes "a > b" ++ [NL])) None
        = Return d
        /\ verdict d = DETECT_SUBPROCESS).
Proof.
  split.
  - apply (shell_mark_line_is_subprocess
             (lexer_on (codes "mytool --verbose run(x)" ++ [NL]))
             None (codes "mytool") (codes " ")
             (codes "--verbose run(x)" ++ [NL])).
    + reflexivity.
    + repeat split; [repeat constructor | simpl; lia].
    + reflexivity.
    + repeat constructor.
    + reflexivity.
    + reflexivity.
  - apply (shell_mark_line_is_subprocess
             (lexer_on (codes "a > b" ++ [NL]))
             None (codes "a") (codes " ") (codes "> b" ++ [NL])).
    + reflexivity.
    + repeat split; [repeat constructor | simpl; lia].
    + reflexivity.
    + repeat constructor.
    + reflexivity.
    + reflexivity.
Defined.

(** ** The characters that the keyword test can read *)

Lemma within_advance :
  forall lexer b, within_ctype lexer -> within_ctype (lexer_advance lexer b).
Proof.
  intros lexer b H. unfold within_ctype, lexer_advance in *.
  destruct (input lexer) as [|c rest] eqn:E; [rewrite E; exact H|].
  cbn [input]. inversion H; assumption.
Qed.

Lemma within_while :
  forall b p n lexer, within_ctype lexer -> within_ctype (lexer_while b p n lexer).
Proof.
  intros b p. induction n as [|n IH]; intros lexer H; simpl; [exact H|].
  destruct (p (lookahead lexer)); [|exact H]. apply IH, within_advance, H.
Qed.

Lemma within_mark_end :
  forall lexer, within_ctype lexer -> within_ctype (mark_end lexer).
Proof. intros lexer H. exact H. Qed.

Lemma within_lookahead :
  forall lexer, within_ctype lexer -> ctype_defined (lookahead lexer) = true.
Proof.
  intros lexer H. unfold within_ctype, lookahead in *.
  destruct (input lexer) as [|c rest]; [reflexivity|]. inversion H; assumption.
Qed.

(** Proves that a lexer reached by advancing, skipping and marking stays
    within the domain. *)
Ltac within :=
  repeat lazymatch goal with
    | H : within_ctype ?l |- within_ctype ?l => exact H
    | |- within_ctype (lexer_advance _ _) => apply within_advance
    | |- within_ctype (lexer_while _ _ _ _) => apply within_while
    | |- within_ctype (mark_end _) => apply within_mark_end
    end.

Lemma content_body_within :
  forall scanner delimiter advanced_once st st',
    within_ctype (snd st) ->
    content_body scanner delimiter advanced_once st = Next st' ->
    within_ctype (snd st').
Proof.
  intros scanner delimiter advanced_once [has_content lexer] st' H.
  cbn [snd] in H. unfold content_body, advance.
  split_ifs; intros E; try discriminate; injection E as <-; cbn [snd]; within.
Qed.

Lemma content_body_break_within :
  forall scanner delimiter advanced_once st b,
    within_ctype (snd st) ->
    content_body scanner delimiter advanced_once st = Break b ->
    within_ctype b.
Proof.
  intros scanner delimiter advanced_once [has_content lexer] b H.
  cbn [snd] in H. unfold content_body.
  split_ifs; intros E; try discriminate; injection E as <-; exact H.
Qed.

Lemma scan_content_within :
  forall scanner lexer valid_symbols advanced_once,
    within_ctype lexer ->
    flow_all any within_ctype
      (scan_content scanner lexer valid_symbols advanced_once).
Proof.
  intros scanner lexer valid_symbols advanced_once H. unfold scan_content.
  destruct (_ && _); [|exact H].
  apply (loop_invariant _ (fun st => within_ctype (snd st)) any within_ctype).
  - intros st st'. apply content_body_within.
  - intros; exact I.
  - intros st b. apply content_body_break_within.
  - exact H.
Qed.

Lemma layout_body_within :
  forall scanner valid_symbols s s',
    within_ctype (here s) ->
    layout_body scanner valid_symbols s = Next s' -> within_ctype (here s').
Proof.
  intros scanner valid_symbols s s' H. unfold layout_body, skip, skip_while.
  split_ifs; intros E; try discriminate; injection E as <-; cbn [here]; within.
Qed.

Lemma layout_body_break_within :
  forall scanner valid_symbols s b,
    within_ctype (here s) ->
    layout_body scanner valid_symbols s = Break b -> within_ctype (here b).
Proof.
  intros scanner valid_symbols s b H. unfold layout_body.
  split_ifs; intros E; try discriminate; injection E as <-; exact H.
Qed.

Lemma scan_layout_within :
  forall scanner lexer valid_symbols,
    within_ctype lexer ->
    flow_all any (fun s => within_ctype (here s))
      (scan_layout scanner lexer valid_symbols).
Proof.
  intros scanner lexer valid_symbols H. unfold scan_layout.
  apply (loop_invariant _ (fun s => within_ctype (here s)) any
           (fun s => within_ctype (here s))).
  - apply layout_body_within.
  - intros; exact I.
  - apply layout_body_break_within.
  - exact H.
Qed.

(** The stages up to layout emission hand on a lexer that shows characters
    of the input only. *)
Lemma scan_front_within :
  forall scanner lexer valid_symbols,
    within_ctype lexer ->
    flow_all any (fun s => within_ctype (here s))
      (scan_front scanner lexer valid_symbols).
Proof.
  intros scanner lexer valid_symbols H. unfold scan_front.
  eapply (flow_all_bind any any); [|intros ? _ _].
  { destruct (scan_escape scanner lexer valid_symbols); exact I. }
  eapply flow_all_bind; [apply scan_content_within; exact H|intros lexer' _ Hl].
  eapply flow_all_bind; [apply scan_layout_within; exact Hl|intros s _ Hs].
  eapply (flow_all_bind any any); [|intros ? _ _; exact Hs].
  destruct (scan_layout_emit scanner valid_symbols s); exact I.
Qed.

(** The ampersand and bar operators fall through with the lexer they were
    given. *)
Lemma scan_logical_operators_falls :
  forall scanner lexer valid_symbols l,
    scan_logical_operators scanner lexer valid_symbols = Fall l -> l = lexer.
Proof.
  intros scanner lexer valid_symbols l. unfold scan_logical_operators, finish,
    no_token.
  split_ifs; intros E; try discriminate; injection E as <-; reflexivity.
Qed.

End Libc.

(** * The C library

    What a scan call does on an input within the domain of [isalnum] is
    fixed by the C standard: it is the same for every library. *)

Lemma isalnum_any_library :
  forall (lib1 lib2 : CLibrary) c,
    ctype_defined c = true -> @isalnum lib1 c = @isalnum lib2 c.
Proof. intros lib1 lib2 c H. unfold isalnum. rewrite H. reflexivity. Qed.

Lemma scan_keyword_operators_any_library :
  forall (lib1 lib2 : CLibrary) scanner lexer valid_symbols,
    within_ctype lexer ->
    @scan_keyword_operators lib1 scanner lexer valid_symbols
    = @scan_keyword_operators lib2 scanner lexer valid_symbols.
Proof.
  intros lib1 lib2 scanner lexer valid_symbols H. unfold scan_keyword_operators.
  rewrite (isalnum_any_library lib1 lib2
             (lookahead (advance (advance (advance lexer)))))
    by (apply within_lookahead; repeat apply within_advance; exact H).
  rewrite (isalnum_any_library lib1 lib2 (lookahead (advance (advance lexer))))
    by (apply within_lookahead; repeat apply within_advance; exact H).
  reflexivity.
Qed.

(** The loops of the scanner read at least one character in every round
    that does not leave them, so each of them ends within the input that is
    left.  Every call of the subprocess detector comes back with a verdict.
    Every scan call on an input whose characters are all within the domain
    of [isalnum] comes back with a result, and with the same result
    whatever the C library answers outside that domain.  Where the keyword
    test reads a character beyond the domain the C standard leaves the call
    undefined, and nothing is said. *)
Theorem scan_and_detector_return :
  (forall lexer sd, exists d, detect_subprocess_line lexer sd = Return d)
  /\ (forall (lib1 lib2 : CLibrary) scanner lexer valid_symbols,
        within_ctype lexer ->
        exists r,
          @scan lib1 scanner lexer valid_symbols = Some r
          /\ @scan lib2 scanner lexer valid_symbols = Some r).
Proof.
  split; [exact detect_subprocess_line_returns|].
  intros lib1 lib2 scanner lexer valid_symbols H.
  destruct (@scan_total lib1 scanner lexer valid_symbols) as [r Hr].
  exists r. split; [exact Hr|]. rewrite <- Hr. unfold scan, scan_with.
  pose proof (scan_front_within scanner lexer valid_symbols H) as Hfront.
  destruct (scan_front scanner lexer valid_symbols) as [|r0|s];
    [reflexivity|reflexivity|].
  cbn [bind]. simpl in Hfront. unfold scan_operators.
  destruct (scan_logical_operators scanner (here s) valid_symbols) as [|r1|l]
    eqn:El; [reflexivity|reflexivity|].
  cbn [bind]. apply scan_logical_operators_falls in El. subst l.
  rewrite (scan_keyword_operators_any_library lib2 lib1 scanner (here s)
             valid_symbols Hfront).
  reflexivity.
Qed.

(** The theorem at the word [or] before the letter e with an acute accent,
    code point 233: both libraries report KEYWORD_OR.  Before the code
    point 262, beyond the domain, the two libraries part. *)
Lemma scan_and_detector_return_witness :
  (exists r,
     @scan strict_library create (lexer_on (codes "or" ++ [233]))
       (only [KEYWORD_OR]) = Some r
     /\ @scan generous_library create (lexer_on (codes "or" ++ [233]))
          (only [KEYWORD_OR]) = Some r
     /\ emitted r = Some KEYWORD_OR)
  /\ @scan strict_library create (lexer_on (codes "or" ++ [262]))
       (only [KEYWORD_OR])
     <> @scan generous_library create (lexer_on (codes "or" ++ [262]))
          (only [KEYWORD_OR]).
Proof.
  split.
  - destruct (proj2 scan_and_detector_return strict_library generous_library
                create (lexer_on (codes "or" ++ [233])) (only [KEYWORD_OR]))
      as (r & H1 & H2).
    { repeat constructor. }
    exists r. split; [exact H1|]. split; [exact H2|].
    vm_compute in H1. injection H1 as <-. reflexivity.
  - vm_compute. discriminate.
Defined.

(** * Sample runs

    The runs below are made with [strict_library]; none of their inputs
    leaves the domain of [isalnum]. *)

#[local] Existing Instance strict_library.

(** The theorem at the state after the opening quote of a format string,
    restored into a scanner that has a block open. *)
Lemma roundtrip_within_format_witness :
  restore one_block_open in_format_string = in_format_string
  /\ (forall lexer valid_symbols,
        scan (restore one_block_open in_format_string) lexer valid_symbols
        = scan in_format_string lexer valid_symbols).
Proof.
  apply roundtrip_within_format.
  - apply (reachable_after create (lexer_on (codes "f" ++ [DQUOTE]))
             (only [STRING_START])); [constructor|vm_compute; reflexivity].
  - simpl. lia.
  - repeat constructor; lia.
  - vm_compute. lia.
Defined.

(** C3 as stated fails for the state with the indent stack [0; 256], which
    INDENT leaves at a line indented by 32 tabs: it is restored with the
    stack [0; 0], and on that same line the original state gives no token
    where the restored one gives INDENT. *)
Lemma roundtrip_loses_wide_indent :
  reachable wide_block_open
  /\ indents (roundtrip wide_block_open) = [0; 0]
  /\ (exists r r',
        scan wide_block_open sample_wide_line (only [INDENT]) = Some r
        /\ scan (roundtrip wide_block_open) sample_wide_line (only [INDENT]) = Some r'
        /\ emitted r = None
        /\ emitted r' = Some INDENT).
Proof.
  split.
  { apply (reachable_after create sample_wide_line (only [INDENT]));
      [constructor|vm_compute; reflexivity]. }
  split; [reflexivity|].
  eexists. eexists.
  split; [vm_compute; reflexivity|]. split; [vm_compute; reflexivity|].
  split; reflexivity.
Qed.

(** The theorem at the first line of a block indented by four columns. *)
Lemma indent_stack_invariant_witness :
  exists r,
    scan create (lexer_on ([NL] ++ codes "    y")) (only [INDENT]) = Some r
    /\ indent_stack_ok (scanner_after r)
    /\ (emitted r = Some INDENT ->
        exists w, array_back (indents create) 0 < w
                  /\ indents (scanner_after r) = indents create ++ [w])
    /\ (emitted r = Some DEDENT ->
        indents (scanner_after r) = removelast (indents create))
    /\ (emitted r <> Some INDENT -> emitted r <> Some DEDENT ->
        indents (scanner_after r) = indents create).
Proof.
  apply (indent_stack_invariant create (lexer_on ([NL] ++ codes "    y"))
           (only [INDENT]) create_indent_stack_ok).
  intros w H. vm_compute in H. injection H as <-. reflexivity.
Defined.

(** C4 as stated fails on a line indented by 8192 tabs: the width 65536 is
    above the top 0, INDENT is reported, and the entry pushed is 0. *)
Lemma wide_indent_breaks_increasing :
  exists r,
    scan create (lexer_on ([NL] ++ repeat TAB (64 * 128) ++ codes "x")) (only [INDENT])
    = Some r
    /\ emitted r = Some INDENT
    /\ indents (scanner_after r) = [0; 0]
    /\ ~ indent_stack_ok (scanner_after r).
Proof.
  eexists. split; [vm_compute; reflexivity|].
  split; [reflexivity|]. split; [reflexivity|].
  intros [_ Hinc]. simpl in Hinc. lia.
Qed.

(** The theorem with every symbol valid, at the start of an indented line. *)
Lemma error_recovery_suppresses_newline_and_escape_witness :
  error_recovery_mode all_valid = true
  /\ (exists r,
        scan create (lexer_on ([NL] ++ codes "  x")) all_valid = Some r
        /\ emitted r <> Some NEWLINE
        /\ emitted r <> Some ESCAPE_INTERPOLATION).
Proof.
  apply (error_recovery_suppresses_newline_and_escape create
           (lexer_on ([NL] ++ codes "  x")) all_valid); reflexivity.
Defined.

(** C5 as stated fails for INDENT and DEDENT: with every symbol valid, a
    deeper line still gives INDENT and a shallower one still gives DEDENT. *)
Lemma error_recovery_still_indents_and_dedents :
  error_recovery_mode all_valid = true
  /\ (exists r,
        scan create (lexer_on ([NL] ++ codes "  x")) all_valid = Some r
        /\ emitted r = Some INDENT)
  /\ (exists r,
        scan one_block_open (lexer_on ([NL] ++ codes "x")) all_valid = Some r
        /\ emitted r = Some DEDENT).
Proof.
  split; [reflexivity|].
  split; (eexists; split; [vm_compute; reflexivity|reflexivity]).
Qed.

(** The theorem at the text [{{] inside [f"..."]. *)
Lemma escape_interpolation_outside_recovery_witness :
  exists r,
    scan in_format_string (lexer_at 2 (codes "{{x"))
      (only [ESCAPE_INTERPOLATION; STRING_CONTENT]) = Some r
    /\ emitted r = Some ESCAPE_INTERPOLATION
    /\ position (lexer_after r) = 4%nat
    /\ token_end (lexer_after r) = Some 4%nat
    /\ scanner_after r = in_format_string.
Proof.
  apply (escape_interpolation_outside_recovery in_format_string
           (lexer_at 2 (codes "{{x"))
           (only [ESCAPE_INTERPOLATION; STRING_CONTENT])
           (chr "{") (codes "{x")); try reflexivity.
  discriminate.
Defined.

(** C6 as stated fails in error-recovery mode: with every symbol valid, a
    format string open and [{{] ahead, the call reports no token. *)
Lemma escape_interpolation_in_recovery :
  all_valid ESCAPE_INTERPOLATION = true
  /\ is_format (array_back (delimiters in_format_string) new_delimiter) = true
  /\ lookahead (lexer_at 2 (codes "{{x")) = chr "{"
  /\ lookahead (advance (lexer_at 2 (codes "{{x"))) = chr "{"
  /\ (exists r,
        scan in_format_string (lexer_at 2 (codes "{{x")) all_valid = Some r
        /\ emitted r <> Some ESCAPE_INTERPOLATION).
Proof.
  repeat split. eexists. split; [vm_compute; reflexivity|]. discriminate.
Qed.



(** The theorem at the text [andy] with KEYWORD_AND, SUBPROCESS_START and
    STRING_START valid: the scan call reports no token. *)
Lemma operator_failure_short_circuits_witness :
  exists r,
    scan create sample_andy (only [KEYWORD_AND; SUBPROCESS_START; STRING_START])
    = Some r
    /\ token_found r = false
    /\ scanner_after r = create.
Proof.
  apply (operator_failure_short_circuits scan_back create sample_andy
           (only [KEYWORD_AND; SUBPROCESS_START; STRING_START])
           (mkLayout false 0 (-1) (mark_end sample_andy))).
  - reflexivity.
  - left. repeat split.
Defined.

(** C10 as stated fails when none of LOGICAL_AND, LOGICAL_OR and
    BACKGROUND_AMP is valid, even with both keywords valid: a lone [&] at the
    end of the line then gets past operator dispatch, the subprocess detector
    runs and takes it for the background operator, and the call reports
    SUBPROCESS_START. *)
Lemma lone_ampersand_reaches_detector :
  (exists s,
      scan_front create (lexer_on (codes "&"))
        (only [KEYWORD_AND; KEYWORD_OR; SUBPROCESS_START]) = Fall s
      /\ lookahead (here s) = chr "&"
      /\ lookahead (advance (here s)) <> chr "&")
  /\ only [KEYWORD_AND; KEYWORD_OR; SUBPROCESS_START] BACKGROUND_AMP = false
  /\ (exists r,
        scan create (lexer_on (codes "&"))
          (only [KEYWORD_AND; KEYWORD_OR; SUBPROCESS_START]) = Some r
        /\ emitted r = Some SUBPROCESS_START).
Proof.
  split; [|split; [reflexivity|]].
  - eexists. split; [vm_compute; reflexivity|]. split; [reflexivity|discriminate].
  - eexists. split; [vm_compute; reflexivity|]. reflexivity.
Qed.

(** The theorem at the opening of a format string. *)
Lemma scan_keeps_f_string_flag_witness :
  exists r,
    scan create (lexer_on (codes "f" ++ [DQUOTE])) (only [STRING_START]) = Some r
    /\ f_string_flag_ok (scanner_after r).
Proof.
  apply (scan_keeps_f_string_flag create (lexer_on (codes "f" ++ [DQUOTE]))
           (only [STRING_START])).
  intros H. discriminate H.
Defined.

(** The theorem at the line [ls -la]. *)
Lemma subprocess_start_is_zero_width_witness :
  exists r,
    scan create sample_ls (only [SUBPROCESS_START]) = Some r
    /\ (emitted r = Some SUBPROCESS_START ->
        exists s,
          scan_front create sample_ls (only [SUBPROCESS_START]) = Fall s
          /\ token_start (lexer_after r) = position (here s)
          /\ token_end (lexer_after r) = Some (position (here s))
          /\ scanner_after r = create).
Proof.
  apply (subprocess_start_is_zero_width create sample_ls (only [SUBPROCESS_START])).
  reflexivity.
Defined.

Lemma reachable_state_in_range_witness :
  (exists rest, indents in_format_string = 0 :: rest)
  /\ Forall (fun w => 0 <= w < 65536) (indents in_format_string)
  /\ Forall (fun d => 0 <= flags d < 128
                      /\ In (end_character d) [SQUOTE; DQUOTE; BACKTICK])
       (delimiters in_format_string).
Proof.
  apply reachable_state_in_range.
  apply (reachable_after create (lexer_on (codes "f" ++ [DQUOTE]))
           (only [STRING_START])); [constructor|vm_compute; reflexivity].
Defined.

Lemma subprocess_macro_token_witness :
  exists r,
    scan create (lexer_on (codes "echo!  hi")) (only [SUBPROCESS_MACRO_START])
    = Some r
    /\ emitted r = Some SUBPROCESS_MACRO_START
    /\ scanner_after r = create
    /\ token_start (lexer_after r) = 0%nat
    /\ token_end (lexer_after r) = Some 7%nat
    /\ input (lexer_after r) = codes "hi".
Proof.
  apply (subprocess_macro_token create (lexer_on (codes "echo!  hi"))
           (only [SUBPROCESS_MACRO_START]) (codes "echo") (codes "  ")
           (codes "hi")).
  - left. reflexivity.
  - repeat split.
  - reflexivity.
  - reflexivity.
  - reflexivity.
  - repeat split; [repeat constructor | simpl; lia].
  - reflexivity.
  - discriminate.
  - repeat constructor.
  - reflexivity.
Defined.

Lemma block_macro_token_witness :
  exists r,
    scan create (lexer_on (codes "with! Ctx():")) (only [BLOCK_MACRO_START])
    = Some r
    /\ emitted r = Some BLOCK_MACRO_START
    /\ scanner_after r = create
    /\ token_start (lexer_after r) = 0%nat
    /\ token_end (lexer_after r) = Some 5%nat
    /\ input (lexer_after r) = codes " Ctx():".
Proof.
  apply (block_macro_token create (lexer_on (codes "with! Ctx():"))
           (only [BLOCK_MACRO_START]) (chr " ") (codes "Ctx():")).
  - left. reflexivity.
  - repeat split.
  - reflexivity.
  - reflexivity.
  - reflexivity.
Defined.

Lemma string_start_token_witness :
  exists r d,
    scan create (lexer_on (codes "rb" ++ [SQUOTE; SQUOTE; SQUOTE] ++ codes "x"))
      (only [STRING_START; SUBPROCESS_START])
    = Some r
    /\ emitted r = Some STRING_START
    /\ scanner_after r
       = {| indents := [0]; delimiters := [d]; inside_f_string := false |}
    /\ flag_view d = (false, true, true, true, SQUOTE)
    /\ token_start (lexer_after r) = 0%nat
    /\ token_end (lexer_after r) = Some 5%nat.
Proof.
  apply (string_start_token create
           (lexer_on (codes "rb" ++ [SQUOTE; SQUOTE; SQUOTE] ++ codes "x"))
           (only [STRING_START; SUBPROCESS_START])
           (codes "rb") SQUOTE ([SQUOTE; SQUOTE] ++ codes "x")).
  - left. reflexivity.
  - reflexivity.
  - reflexivity.
  - repeat constructor.
  - simpl. lia.
  - reflexivity.
Defined.

Lemma path_prefix_token_witness :
  exists r,
    scan create (lexer_on (codes "pf" ++ [DQUOTE] ++ codes "/tmp"))
      (only [PATH_PREFIX; STRING_START; SUBPROCESS_START])
    = Some r
    /\ emitted r = Some PATH_PREFIX
    /\ scanner_after r = create
    /\ token_start (lexer_after r) = 0%nat
    /\ token_end (lexer_after r) = Some 2%nat
    /\ input (lexer_after r) = DQUOTE :: codes "/tmp".
Proof.
  apply (path_prefix_token create
           (lexer_on (codes "pf" ++ [DQUOTE] ++ codes "/tmp"))
           (only [PATH_PREFIX; STRING_START; SUBPROCESS_START])
           (codes "pf") DQUOTE (codes "/tmp")).
  - left. reflexivity.
  - reflexivity.
  - reflexivity.
  - reflexivity.
  - reflexivity.
Defined.


Lemma reported_symbol_is_valid_witness :
  (scan in_plain_string (lexer_at 1 [SQUOTE]) (only [STRING_CONTENT])
   = Some {| token_found := true;
             lexer_after :=
               mark_end (set_result (advance (lexer_at 1 [SQUOTE])) STRING_END);
             scanner_after := create |}
   /\ ~ In STRING_END read_only_kinds
   /\ only [STRING_CONTENT] STRING_CONTENT = true)
  /\ (exists r,
        scan one_block_open (lexer_on (NL :: codes "x")) nothing_valid = Some r
        /\ emitted r = Some DEDENT /\ nothing_valid DEDENT = false).
Proof.
  split.
  - assert (E : scan in_plain_string (lexer_at 1 [SQUOTE]) (only [STRING_CONTENT])
                = Some {| token_found := true;
                          lexer_after :=
                            mark_end (set_result (advance (lexer_at 1 [SQUOTE]))
                                        STRING_END);
                          scanner_after := create |})
      by (vm_compute; reflexivity).
    split; [exact E|].
    destruct (reported_symbol_is_valid in_plain_string (lexer_at 1 [SQUOTE])
                (only [STRING_CONTENT]) _ STRING_END E eq_refl) as [Hno Hvalid].
    split; [exact Hno|]. exact (Hvalid STRING_CONTENT eq_refl).
  - eexists. split; [vm_compute; reflexivity|]. split; reflexivity.
Defined.

Lemma subprocess_tokens_need_statement_context_witness :
  scan create sample_ls (only [SUBPROCESS_START])
  = Some {| token_found := true;
            lexer_after :=
              set_result (moved 6 (mark_end sample_ls)) SUBPROCESS_START;
            scanner_after := create |}
  /\ within_brackets (only [SUBPROCESS_START]) = false
  /\ error_recovery_mode (only [SUBPROCESS_START]) = false.
Proof.
  assert (E : scan create sample_ls (only [SUBPROCESS_START])
              = Some {| token_found := true;
                        lexer_after :=
                          set_result (moved 6 (mark_end sample_ls)) SUBPROCESS_START;
                        scanner_after := create |})
    by (vm_compute; reflexivity).
  split; [exact E|].
  apply (subprocess_tokens_need_statement_context create sample_ls
           (only [SUBPROCESS_START]) _ SUBPROCESS_START E);
    [reflexivity | simpl; auto].
Defined.

Lemma layout_tokens_end_at_entry_witness :
  exists r,
    scan create (lexer_at 5 ([NL] ++ codes "    x")) (only [INDENT]) = Some r
    /\ emitted r = Some INDENT
    /\ position (lexer_after r) = 10%nat
    /\ token_end (lexer_after r) = Some 5%nat.
Proof.
  destruct (scan create (lexer_at 5 ([NL] ++ codes "    x")) (only [INDENT]))
    as [r|] eqn:E; [|vm_compute in E; discriminate E].
  exists r. split; [reflexivity|].
  assert (Ht : emitted r = Some INDENT)
    by (vm_compute in E; injection E as <-; reflexivity).
  assert (Hp : position (lexer_after r) = 10%nat)
    by (vm_compute in E; injection E as <-; reflexivity).
  split; [exact Ht|]. split; [exact Hp|].
  apply (layout_tokens_end_at_entry create
           (lexer_at 5 ([NL] ++ codes "    x")) (only [INDENT]) r INDENT);
    [left; reflexivity | exact E | exact Ht | simpl; auto].
Defined.

Lemma indentation_of_a_line_witness :
  scan create (lexer_on ([NL] ++ [TAB] ++ codes "  x = 1")) (only [INDENT])
  = Some {| token_found := true;
            lexer_after :=
              set_result
                (skipped 4 (mark_end (lexer_on ([NL] ++ [TAB] ++ codes "  x = 1"))))
                INDENT;
            scanner_after :=
              {| indents := [0; 10]; delimiters := []; inside_f_string := false |} |}.
Proof.
  apply (indentation_of_a_line create
           (lexer_on ([NL] ++ [TAB] ++ codes "  x = 1")) (only [INDENT])
           ([TAB] ++ codes "  ") (chr "x") (codes " = 1")).
  - left. reflexivity.
  - reflexivity.
  - repeat constructor.
  - reflexivity.
  - simpl. lia.
  - discriminate.
  - reflexivity.
  - simpl. lia.
Defined.


Lemma string_body_and_end_witness :
  exists r,
    scan {| indents := [0];
            delimiters := [set_triple (set_end_character new_delimiter DQUOTE)];
            inside_f_string := false |}
      (lexer_at 3 (codes "doc" ++ [DQUOTE; DQUOTE; DQUOTE; NL]))
      (only [STRING_CONTENT])
    = Some r
    /\ token_start (lexer_after r) = 3%nat
    /\ emitted r = Some STRING_CONTENT
    /\ scanner_after r
       = {| indents := [0];
            delimiters := [set_triple (set_end_character new_delimiter DQUOTE)];
            inside_f_string := false |}
    /\ token_end (lexer_after r) = Some 6%nat.
Proof.
  apply (string_body_and_end
           {| indents := [0];
              delimiters := [set_triple (set_end_character new_delimiter DQUOTE)];
              inside_f_string := false |}
           (lexer_at 3 (codes "doc" ++ [DQUOTE; DQUOTE; DQUOTE; NL]))
           (only [STRING_CONTENT])
           (set_triple (set_end_character new_delimiter DQUOTE))
           (codes "doc") [NL]).
  - reflexivity.
  - reflexivity.
  - discriminate.
  - reflexivity.
  - discriminate.
  - reflexivity.
  - repeat constructor.
Defined.

(** The theorem at a scanner that is reset while it is inside a format
    string: the next line opens a block at column 4, and the line after it,
    at column 0, does not close the block, as it does when the flag is
    down. *)
Lemma left_over_flag_blocks_dedent_witness :
  option_map scanner_after
    (scan (deserialize in_format_string [] 0)
       (lexer_on (NL :: codes "    x")) (only [INDENT]))
  = Some left_over_block
  /\ (forall lexer valid_symbols r,
        scan left_over_block lexer valid_symbols = Some r ->
        inside_f_string left_over_block = true /\ emitted r <> Some DEDENT)
  /\ (exists r,
        scan one_block_open (lexer_on (NL :: codes "x")) (only [DEDENT]) = Some r
        /\ emitted r = Some DEDENT).
Proof.
  assert (E : scan (deserialize in_format_string [] 0)
                (lexer_on (NL :: codes "    x")) (only [INDENT])
              = Some {| token_found := true;
                        lexer_after :=
                          set_result
                            (skipped 5 (mark_end (lexer_on (NL :: codes "    x"))))
                            INDENT;
                        scanner_after := left_over_block |})
    by (vm_compute; reflexivity).
  split; [rewrite E; reflexivity|]. split.
  - intros lexer valid_symbols r.
    apply (left_over_flag_blocks_dedent in_format_string [] left_over_block
             lexer valid_symbols r); [reflexivity|].
    exact (calls_more STRING_START _ _ _ _ _
             (calls_none STRING_START _) E ltac:(discriminate)).
  - eexists. split; [vm_compute; reflexivity|]. reflexivity.
Defined.
